(** * AppVault: inventory scanner, winget matcher, install worker and
      export/import codec of [AppVault.py], as a shallow embedding.

    Conventions of the embedding.
    - A Python [str] is a Rocq [string]; a character is an 8-bit [ascii],
      read as a code point below 256.  Whitespace, line boundaries and
      lower-casing are Python's on that range.  Literal text of the program
      outside that range (dashes, check marks) is kept as its UTF-8 bytes.
    - The clock, the file system, the registry and the [winget] process are
      explicit arguments of the functions that consult them.
    - Signals emitted by the worker threads are collected in a trace. *)

From Stdlib Require Import ZArith NArith Ascii String List Bool Lia.
From stdpp Require Import base option list strings gmap pretty sorting.

Local Open Scope list_scope.
Local Open Scope stdpp_scope.

(** ** Python strings *)

Module Str.

Definition ord (c : ascii) : N := N_of_ascii c.

Definition between (lo hi n : N) : bool := (lo <=? n)%N && (n <=? hi)%N.

(** [c.isspace()]: TAB..CR, FS..US, SPACE, NEL, NBSP. *)
Definition isspace (c : ascii) : bool :=
  let n := ord c in
  between 9 13 n || between 28 32 n || (n =? 133)%N || (n =? 160)%N.

(** The line boundaries of [str.splitlines]: LF, VT, FF, CR, FS, GS, RS, NEL. *)
Definition islinebreak (c : ascii) : bool :=
  let n := ord c in
  between 10 13 n || between 28 30 n || (n =? 133)%N.

Definition isdigit (c : ascii) : bool := between 48 57 (ord c).

(** [c.lower()]: A..Z and the upper-case letters of Latin-1. *)
Definition lower_char (c : ascii) : ascii :=
  let n := ord c in
  if between 65 90 n || (between 192 222 n && negb (n =? 215)%N)
  then ascii_of_N (n + 32) else c.

Fixpoint lower (s : string) : string :=
  match s with
  | EmptyString => EmptyString
  | String c s' => String (lower_char c) (lower s')
  end.

(** [s.startswith(p)] *)
Definition startswith (s p : string) : bool := String.prefix p s.

(** [sub in s] *)
Fixpoint contains (sub s : string) : bool :=
  String.prefix sub s ||
  match s with
  | EmptyString => false
  | String _ s' => contains sub s'
  end.

(** [s[:n]] *)
Fixpoint take (n : nat) (s : string) : string :=
  match n, s with
  | S n', String c s' => String c (take n' s')
  | _, _ => EmptyString
  end.

Fixpoint lstrip (s : string) : string :=
  match s with
  | String c s' => if isspace c then lstrip s' else s
  | EmptyString => EmptyString
  end.

Fixpoint rstrip (s : string) : string :=
  match s with
  | EmptyString => EmptyString
  | String c s' =>
      match rstrip s' with
      | EmptyString => if isspace c then EmptyString else String c EmptyString
      | r => String c r
      end
  end.

(** [s.strip()] *)
Definition strip (s : string) : string := rstrip (lstrip s).

(** [s.split()]: the maximal runs of non-whitespace characters.  [cur] is
    the run being read, last character first. *)
Fixpoint split_go (cur : string) (s : string) : list string :=
  match s with
  | EmptyString =>
      match cur with EmptyString => [] | _ => [String.rev cur] end
  | String c s' =>
      if isspace c then
        match cur with
        | EmptyString => split_go EmptyString s'
        | _ => String.rev cur :: split_go EmptyString s'
        end
      else split_go (String c cur) s'
  end.

Definition split (s : string) : list string := split_go EmptyString s.

(** [s.splitlines()]: a line ends at a line boundary (CR LF counting as
    one) or at the end of the text; no empty last line is produced.
    [cur] is the line being read, last character first; [fresh] tells
    that no character of the current line has been seen yet. *)
Fixpoint splitlines_go (fresh : bool) (cur : string) (s : string) : list string :=
  match s with
  | EmptyString => if fresh then [] else [String.rev cur]
  | String c s' =>
      if islinebreak c then
        match c, s' with
        | "013"%char, String "010"%char s'' =>
            String.rev cur :: splitlines_go true EmptyString s''
        | _, _ => String.rev cur :: splitlines_go true EmptyString s'
        end
      else splitlines_go false (String c cur) s'
  end.

Definition splitlines (s : string) : list string :=
  splitlines_go true EmptyString s.

(** [sep.join(l)] *)
Fixpoint join (sep : string) (l : list string) : string :=
  match l with
  | [] => EmptyString
  | [x] => x
  | x :: l' => x +:+ sep +:+ join sep l'
  end.

(** Truthiness of a string: [bool(s)]. *)
Definition nonempty (s : string) : bool :=
  match s with EmptyString => false | _ => true end.

End Str.

(** ** The fragment of [re] used by the scanner

    The patterns of [WINDOWS_BUILTIN_PATTERNS] are made of literal
    characters, one bounded repetition of a digit class and an optional
    anchor at the start of the text. *)

Module Re.

Inductive atom : Type :=
  | Chr (c : ascii)          (* a literal character, escaped or not *)
  | Digits (n : nat).        (* \d{n,} *)

Record regex : Type := Regex { anchored : bool; atoms : list atom }.

Fixpoint lit (s : string) : list atom :=
  match s with
  | EmptyString => []
  | String c s' => Chr c :: lit s'
  end.

(** Zero or more digits, then [k]. *)
Fixpoint digits_star (k : string -> bool) (s : string) : bool :=
  k s ||
  match s with
  | String d s' => Str.isdigit d && digits_star k s'
  | EmptyString => false
  end.

(** At least [n] digits, then [k]. *)
Fixpoint digits_from (n : nat) (k : string -> bool) (s : string) : bool :=
  match n with
  | O => digits_star k s
  | S n' =>
      match s with
      | String d s' => Str.isdigit d && digits_from n' k s'
      | EmptyString => false
      end
  end.

(** Does the sequence of atoms match a prefix of the text? *)
Fixpoint match_here (l : list atom) : string -> bool :=
  match l with
  | [] => fun _ => true
  | Chr c :: rest =>
      fun s =>
        match s with
        | String d s' => bool_decide (c = d) && match_here rest s'
        | EmptyString => false
        end
  | Digits n :: rest => digits_from n (match_here rest)
  end.

Fixpoint match_anywhere (l : list atom) (s : string) : bool :=
  match_here l s ||
  match s with
  | String _ s' => match_anywhere l s'
  | EmptyString => false
  end.

(** [re.search(pat, s)] as a truth value. *)
Definition search (r : regex) (s : string) : bool :=
  if anchored r then match_here (atoms r) s else match_anywhere (atoms r) s.

End Re.

(** ** Section 2 of the program: the registry scanner *)

(** The dataclass [AppRecord].  Python does not enforce the [str]
    annotations of its fields: a record built by [from_dict] holds whatever
    values the document has.  The record is therefore given over the type
    [V] of its field values; [AppRecord] is the record as annotated. *)
Record AppRecord_of (V : Type) : Type := mkAppRecord {
  name : V;
  publisher : V;
  version : V;
  uninstall_string : V;
  install_location : V;
  source : V;
  winget_id : V;
  winget_status : V;
  install_status : V;
  install_error : V
}.

Arguments mkAppRecord {V}.
Arguments name {V}.
Arguments publisher {V}.
Arguments version {V}.
Arguments uninstall_string {V}.
Arguments install_location {V}.
Arguments source {V}.
Arguments winget_id {V}.
Arguments winget_status {V}.
Arguments install_status {V}.
Arguments install_error {V}.

Abbreviation AppRecord := (AppRecord_of string).

(** [AppRecord(name=..., publisher=..., ...)] with the defaults of the
    dataclass for the four state fields. *)
Definition new_record (n p v u l src : string) : AppRecord :=
  mkAppRecord n p v u l src EmptyString "unknown" EmptyString EmptyString.

Definition WINDOWS_BUILTIN_PATTERNS : list Re.regex :=
  [ Re.Regex false (Re.lit "microsoft.net");
    Re.Regex false (Re.lit "microsoft visual c++");
    Re.Regex false (Re.lit "windows sdk");
    Re.Regex false (Re.lit "kb" ++ [Re.Digits 6]);
    Re.Regex false (Re.lit "update for microsoft");
    Re.Regex false (Re.lit "security update");
    Re.Regex false (Re.lit "microsoft.directx");
    Re.Regex false (Re.lit "directx");
    Re.Regex false (Re.lit "windows subsystem");
    Re.Regex true  (Re.lit "microsoft windows");
    Re.Regex false (Re.lit "nvidia physx");
    Re.Regex true  (Re.lit "intel(r)");
    Re.Regex false (Re.lit "microsoft edge webview");
    Re.Regex false (Re.lit "windows pc health") ].

Definition EXCLUDE_PUBLISHERS : gset string :=
  {[ "microsoft corporation"; "microsoft windows"; "windows" ]}.

Definition allowed_ms : list string :=
  [ "microsoft office"; "microsoft 365"; "visual studio code";
    "microsoft teams"; "onedrive"; "onenote"; "skype" ].

Definition _is_builtin (name publisher : string) : bool :=
  let nl := Str.lower name in
  if existsb (fun pat => Re.search pat nl) WINDOWS_BUILTIN_PATTERNS then true
  else if bool_decide (Str.lower publisher ∈ EXCLUDE_PUBLISHERS) then
    if negb (existsb (fun a => Str.contains a nl) allowed_ms) then true
    else false
  else false.

(** The three views of the uninstall registry, in the order they are read. *)
Inductive hive : Type := HKLM_x64 | HKLM_x86 | HKCU.

(** [sorted(l, key=key)]: a stable sort that compares keys with [<] only.
    Each element is placed before the first later element whose key is
    not smaller, so equal keys keep their order of arrival. *)
Fixpoint insert_by {A} (key : A -> string) (x : A) (l : list A) : list A :=
  match l with
  | [] => [x]
  | y :: l' =>
      if String.ltb (key y) (key x) then y :: insert_by key x l'
      else x :: y :: l'
  end.

Fixpoint sorted {A} (key : A -> string) (l : list A) : list A :=
  match l with
  | [] => []
  | x :: l' => insert_by key x (sorted key l')
  end.

(** The de-duplication loop of [scan_installed_apps], with its two
    variables [seen] and [unique]. *)
Fixpoint dedup_loop (apps : list AppRecord) (seen : gset string)
    (unique : list AppRecord) : list AppRecord :=
  match apps with
  | [] => unique
  | a :: rest =>
      let key := Str.lower (name a) in
      if bool_decide (key ∈ seen) then dedup_loop rest seen unique
      else dedup_loop rest ({[ key ]} ∪ seen) (unique ++ [a])
  end.

(** [scan_installed_apps()]; [_read_hive] is the registry as the scanner
    sees it: the records each view yields after filtering. *)
Definition scan_installed_apps (_read_hive : hive -> list AppRecord) : list AppRecord :=
  let apps := [] in
  let apps := apps ++ _read_hive HKLM_x64 in
  let apps := apps ++ _read_hive HKLM_x86 in
  let apps := apps ++ _read_hive HKCU in
  let unique := dedup_loop apps ∅ [] in
  sorted (fun x => Str.lower (name x)) unique.

(** ** Section 3 of the program: the winget matcher *)

(** The test on a token [p] of a row: [. in p], not [p.startswith(-)],
    [len(p) > 3]. *)
Definition is_id_token (p : string) : bool :=
  Str.contains "." p && negb (Str.startswith p "-") && (3 <? String.length p).

(** [sum(1 for word in name_lower.split() if word in row_text)] *)
Definition score (name_lower row_text : string) : nat :=
  length (filter (fun word => Str.contains word row_text = true) (Str.split name_lower)).

(** The inner loop [for i, p in enumerate(parts)]: it stops at the first
    token that passes the test and yields it with its position. *)
Fixpoint first_id_token (i : nat) (parts : list string) : option (nat * string) :=
  match parts with
  | [] => None
  | p :: rest => if is_id_token p then Some (i, p) else first_id_token (S i) rest
  end.

(** One turn of the loop over the lines; the state is
    [(best_id, best_score)]. *)
Definition parse_line (name_lower : string) (st : string * nat) (line : string)
    : string * nat :=
  let '(best_id, best_score) := st in
  let parts := Str.split line in
  if length parts <? 2 then st
  else
    match first_id_token 0 parts with
    | None => st
    | Some (i, p) =>
        let candidate_id := p in
        let row_text := Str.lower (Str.join " " (take i parts)) in
        let sc := score name_lower row_text in
        if (best_score <? sc) || ((sc =? best_score) && negb (Str.nonempty best_id))
        then (candidate_id, sc)
        else st
    end.

Definition _parse_winget_id (output name : string) : string :=
  let lines := Str.splitlines (Str.strip output) in
  let name_lower := Str.lower name in
  fst (fold_left (parse_line name_lower) lines (EmptyString, 0)).

(** The two command lines of [_search_winget]: the exact query on the
    name, and the query on [short], the first word of the name. *)
Definition exact_query (app_name : string) : list string :=
  ["winget"; "search"; "--exact"; "--name"; app_name; "--accept-source-agreements"].

Definition fuzzy_query (app_name : string) : list string :=
  let short := match Str.split app_name with
               | w :: _ => w
               | [] => app_name
               end in
  ["winget"; "search"; "--name"; short; "--accept-source-agreements"].

(** [_search_winget(app_name)]; [_run] is the catalog: the standard output
    of [winget] on a command line, empty when the call raises. *)
Definition _search_winget (_run : list string -> string) (app_name : string)
    : string * string :=
  let out := _run (exact_query app_name) in
  let pkg_id := _parse_winget_id out app_name in
  if Str.nonempty pkg_id then (pkg_id, "found")
  else
    let out := _run (fuzzy_query app_name) in
    let pkg_id := _parse_winget_id out app_name in
    if Str.nonempty pkg_id then (pkg_id, "found")
    else (EmptyString, "not_found").

(** ** The workers and their surroundings *)

(** What [subprocess.run] does with a command line. *)
Inductive proc_outcome : Type :=
  | Completed (returncode : Z) (stdout stderr : string)
  | TimeoutExpired
  | Raised (msg : string).        (* any other exception, with its [str] *)

(** What a worker thread meets while it runs.  [n] is the position in
    [self.indices] of the item being processed.
    - [stop_poll n]: the value of [self._stop] read at the top of turn [n];
    - [subprocess_run n args]: the outcome of running [args] during turn [n];
    - [_ts n k]: the clock text of the [k]-th call of [_ts()] in turn [n];
    - [_log_path]: what the call of [_log_path()] at the head of
      [InstallWorker.run] gives, the path of the session log, or [None]
      when it raises (the folder of the logs cannot be made, or the log
      file cannot be opened). *)
Record world : Type := World {
  stop_poll : nat -> bool;
  subprocess_run : nat -> list string -> proc_outcome;
  _ts : nat -> nat -> string;
  _log_path : option string
}.

Inductive signal : Type :=
  | progress (current total : nat)
  | app_matched (idx : Z) (winget_id status : string)
  | finished
  | app_started (idx : Z) (name : string)
  | app_finished (idx : Z) (status error_msg : string)
  | overall_progress (done total : nat)
  | log_message (text : string)
  | all_done.

(** A trace records the signals emitted and the external commands run; a
    command carries the index of the entry it is run for. *)
Inductive event : Type :=
  | Emit (s : signal)
  | Run (idx : Z) (args : list string).

(** The position a Python integer [i] denotes in a list of length [len]:
    negative integers count from the end. *)
Definition position (len : nat) (i : Z) : option nat :=
  if (0 <=? i)%Z then Some (Z.to_nat i)
  else if (0 <=? Z.of_nat len + i)%Z then Some (Z.to_nat (Z.of_nat len + i))
  else None.

(** [l[i]]; [None] stands for [IndexError]. *)
Definition getitem {A} (l : list A) (i : Z) : option A :=
  match position (length l) i with
  | Some p => l !! p
  | None => None
  end.

(** The inner [_run] of [_search_winget]: the standard output, or the
    empty text when [subprocess.run] raises. *)
Definition search_output (o : proc_outcome) : string :=
  match o with
  | Completed _ stdout _ => stdout
  | _ => EmptyString
  end.

(** The command lines [_search_winget] runs, in order: the fuzzy query is
    run only when the exact one gave no identifier. *)
Definition search_commands (_run : list string -> string) (app_name : string)
    : list (list string) :=
  if Str.nonempty (_parse_winget_id (_run (exact_query app_name)) app_name)
  then [exact_query app_name]
  else [exact_query app_name; fuzzy_query app_name].

(** The body of one turn of [WingetMatcher.run] once [app] is fetched. *)
Definition match_item (w : world) (total n : nat) (idx : Z) (app : AppRecord)
    : list event :=
  if bool_decide (winget_status app = "found") then
    [Emit (progress (n + 1) total)]
  else
    let _run := fun args => search_output (subprocess_run w n args) in
    let '(wid, status) := _search_winget _run (name app) in
    map (Run idx) (search_commands _run (name app))
    ++ [Emit (app_matched idx wid status); Emit (progress (n + 1) total)].

(** The loop of [WingetMatcher.run].  The second component tells whether
    the loop ended by [IndexError] instead of returning. *)
Fixpoint match_loop (w : world) (apps : list AppRecord) (total n : nat)
    (indices : list Z) : list event * bool :=
  match indices with
  | [] => ([], false)
  | idx :: rest =>
      if stop_poll w n then ([], false)
      else
        match getitem apps idx with
        | None => ([], true)
        | Some app =>
            let '(tr, raised) := match_loop w apps total (S n) rest in
            (match_item w total n idx app ++ tr, raised)
        end
  end.

(** [WingetMatcher.run], on entries as annotated: were the name of an
    entry no text, [_parse_winget_id] would raise at its [name.lower()]
    and the run would end there, its completion signal not emitted.  The
    second component tells whether the loop ended by [IndexError]. *)
Definition WingetMatcher_run (w : world) (apps : list AppRecord) (indices : list Z)
    : list event * bool :=
  let total := length indices in
  let '(tr, raised) := match_loop w apps total 0 indices in
  if raised then (tr, true) else (tr ++ [Emit finished], false).

(** ** Section 4 of the program: the installation engine *)

Definition failure_keywords : list string :=
  ["error"; "failed"; "no package"; "not found"; "0x"].

Definition has_failure_keyword (line : string) : bool :=
  existsb (fun kw => Str.contains kw (Str.lower line)) failure_keywords.

(** The [for] loop of [_extract_winget_error]: [Some] is its [return]. *)
Fixpoint extract_loop (lines : list string) : option string :=
  match lines with
  | [] => None
  | line :: rest =>
      if has_failure_keyword line then Some (Str.take 120 (Str.strip line))
      else extract_loop rest
  end.

(** [_extract_winget_error(output)]; [None] stands for the [IndexError]
    of [...[-1]] on an empty list. *)
Definition _extract_winget_error (output : string) : option string :=
  match extract_loop (Str.splitlines output) with
  | Some r => Some r
  | None =>
      if Str.nonempty (Str.strip output)
      then Str.take 120 <$> last (Str.splitlines (Str.strip output))
      else Some "Unknown error"
  end.

Definition install_command (winget_id : string) : list string :=
  ["winget"; "install"; "--id"; winget_id; "--silent";
   "--accept-package-agreements"; "--accept-source-agreements"].

(** The [try] statement of [InstallWorker.run]: the log lines it emits and
    the [(status, err)] it leaves. *)
Definition install_attempt (w : world) (n : nat) (app : AppRecord)
    : list event * (string * string) :=
  match subprocess_run w n (install_command (winget_id app)) with
  | Completed returncode stdout stderr =>
      if bool_decide (returncode = 0%Z) then
        ([Emit (log_message ("[" +:+ _ts w n 1 +:+ "] ✓ Success: " +:+ name app))],
         ("success", EmptyString))
      else
        match _extract_winget_error (stdout +:+ stderr) with
        | Some err =>
            ([Emit (log_message ("[" +:+ _ts w n 1 +:+ "] ✗ Failed: " +:+ name app
                                 +:+ " — " +:+ err))],
             ("failed", err))
        | None => ([], ("failed", "list index out of range"))
        end
  | TimeoutExpired =>
      ([Emit (log_message ("[" +:+ _ts w n 1 +:+ "] ✗ Timeout: " +:+ name app))],
       ("failed", "Installation timed out after 5 minutes."))
  | Raised msg => ([], ("failed", msg))
  end.

(** The body of one turn of [InstallWorker.run] once [app] is fetched. *)
Definition install_item (w : world) (total n done : nat) (idx : Z) (app : AppRecord)
    : list event :=
  if negb (bool_decide (winget_status app = "found")) || negb (Str.nonempty (winget_id app))
  then
    [ Emit (app_started idx (name app));
      Emit (app_finished idx "manual" "No Winget package available");
      Emit (overall_progress (done + 1) total) ]
  else
    let '(logs, (status, err)) := install_attempt w n app in
    [ Emit (app_started idx (name app));
      Emit (log_message ("[" +:+ _ts w n 0 +:+ "] Installing: " +:+ name app
                         +:+ " (" +:+ winget_id app +:+ ")"));
      Run idx (install_command (winget_id app)) ]
    ++ logs
    ++ [ Emit (app_finished idx status err);
         Emit (overall_progress (done + 1) total) ].

Fixpoint install_loop (w : world) (apps : list AppRecord) (total n done : nat)
    (indices : list Z) : list event * bool :=
  match indices with
  | [] => ([], false)
  | idx :: rest =>
      if stop_poll w n then ([], false)
      else
        match getitem apps idx with
        | None => ([], true)
        | Some app =>
            let '(tr, raised) := install_loop w apps total (S n) (done + 1) rest in
            (install_item w total n done idx app ++ tr, raised)
        end
  end.

(** [InstallWorker.run].  The call of [_log_path()] comes first and is
    not guarded: when it raises, the run ends there with that exception
    and has emitted no signal.  The lines written to the session log are
    not part of the trace, and the list of entries is not reordered while
    the worker runs.  The second component tells whether the loop ended
    by [IndexError]. *)
Definition InstallWorker_run (w : world) (apps : list AppRecord) (indices : list Z)
    : list event * bool :=
  let total := length indices in
  let done := 0 in
  match _log_path w with
  | None => ([], false)
  | Some log_path =>
      let '(tr, raised) := install_loop w apps total 0 done indices in
      if raised then (tr, true) else (tr ++ [Emit all_done], false)
  end.

(** ** Section 7 of the program: the slots that record the install signals

    The widget at position [i] holds the record at position [i] of the
    list of entries: [_on_scan_done] builds the widgets in its order. *)

(** [AppListItem.update_status(status, error)], on the record. *)
Definition update_status (status error : string) (a : AppRecord) : AppRecord :=
  mkAppRecord (name a) (publisher a) (version a) (uninstall_string a)
    (install_location a) (source a) (winget_id a) (winget_status a)
    status error.

(** [if idx < len(self._item_widgets): self._item_widgets[idx].update_status(...)];
    an index below the range raises in the slot and changes nothing. *)
Definition update_at (idx : Z) (status error : string) (apps : list AppRecord)
    : list AppRecord :=
  if (idx <? Z.of_nat (length apps))%Z then
    match position (length apps) idx with
    | Some p => alter (update_status status error) p apps
    | None => apps
    end
  else apps.

Definition _on_app_started (idx : Z) (name : string) (apps : list AppRecord)
    : list AppRecord :=
  update_at idx "installing" EmptyString apps.

Definition _on_app_finished (idx : Z) (status error : string) (apps : list AppRecord)
    : list AppRecord :=
  update_at idx status error apps.

(** The slot connected to each signal of the install worker; the signals
    other than started and finished leave the entries alone. *)
Definition on_install_signal (apps : list AppRecord) (e : event) : list AppRecord :=
  match e with
  | Emit (app_started idx name) => _on_app_started idx name apps
  | Emit (app_finished idx status error) => _on_app_finished idx status error apps
  | _ => apps
  end.

(** The entries once the main window has handled the signals of a trace,
    in the order of their emission. *)
Definition after_signals (tr : list event) (apps : list AppRecord) : list AppRecord :=
  fold_left on_install_signal tr apps.

(** ** Section 5 of the program: the export / import engine *)

Definition APP_VERSION : string := "1.0.0".

(** [datetime.datetime.now()] *)
Record datetime : Type := Datetime {
  year : nat; month : nat; day : nat;
  hour : nat; minute : nat; second : nat; microsecond : nat
}.

(** Decimal text of [n], padded with zeros on the left to [width]. *)
Fixpoint zeros (k : nat) : string :=
  match k with O => EmptyString | S k' => String "0" (zeros k') end.

Definition zfill (width n : nat) : string :=
  let s : string := pretty n in
  zeros (width - String.length s) +:+ s.

(** [now.strftime(%Y-%m-%d %H:%M)] *)
Definition strftime_minute (d : datetime) : string :=
  zfill 4 (year d) +:+ "-" +:+ zfill 2 (month d) +:+ "-" +:+ zfill 2 (day d)
  +:+ " " +:+ zfill 2 (hour d) +:+ ":" +:+ zfill 2 (minute d).

(** [now.isoformat()] *)
Definition isoformat (d : datetime) : string :=
  zfill 4 (year d) +:+ "-" +:+ zfill 2 (month d) +:+ "-" +:+ zfill 2 (day d)
  +:+ "T" +:+ zfill 2 (hour d) +:+ ":" +:+ zfill 2 (minute d)
  +:+ ":" +:+ zfill 2 (second d)
  +:+ (if bool_decide (microsecond d = 0) then EmptyString
       else "." +:+ zfill 6 (microsecond d)).

#[local] Set Warnings "-register-all".

(** The values [json.load] returns.  A dictionary is the list of its
    items in order, the keys being pairwise distinct; a float is kept by
    its literal. *)
Inductive json : Type :=
  | JNull
  | JBool (b : bool)
  | JInt (n : Z)
  | JFloat (lit : string)
  | JStr (s : string)
  | JList (l : list json)
  | JDict (items : list (string * json)).

(** [type(v).__name__] *)
Definition type_name (v : json) : string :=
  match v with
  | JNull => "NoneType"
  | JBool _ => "bool"
  | JInt _ => "int"
  | JFloat _ => "float"
  | JStr _ => "str"
  | JList _ => "list"
  | JDict _ => "dict"
  end.

(** The exceptions the import can meet. *)
Inductive exn : Type :=
  | OSError (errno : nat) (strerror filename : string)
  | UnicodeDecodeError (byte : string) (position : nat) (reason : string)
  | JSONDecodeError (msg : string) (lineno colno pos : nat)
  | AttributeError (type_name attr : string)
  | TypeError_not_iterable (type_name : string)
  | TypeError_unexpected_keyword (key : string)
  | TypeError_missing_name.

(** [str(e)] *)
Definition str_exn (e : exn) : string :=
  match e with
  | OSError errno strerror filename =>
      "[Errno " +:+ pretty errno +:+ "] " +:+ strerror +:+ ": '" +:+ filename +:+ "'"
  | UnicodeDecodeError byte position reason =>
      "'utf-8' codec can't decode byte " +:+ byte +:+ " in position "
      +:+ pretty position +:+ ": " +:+ reason
  | JSONDecodeError msg lineno colno pos =>
      msg +:+ ": line " +:+ pretty lineno +:+ " column " +:+ pretty colno
      +:+ " (char " +:+ pretty pos +:+ ")"
  | AttributeError ty attr =>
      "'" +:+ ty +:+ "' object has no attribute '" +:+ attr +:+ "'"
  | TypeError_not_iterable ty => "'" +:+ ty +:+ "' object is not iterable"
  | TypeError_unexpected_keyword key =>
      "AppRecord.__init__() got an unexpected keyword argument '" +:+ key +:+ "'"
  | TypeError_missing_name =>
      "AppRecord.__init__() missing 1 required positional argument: 'name'"
  end.

(** A file, by what reading it as a JSON document gives.  The text
    encoding of [json.dump] and its decoding by [json.load] belong to the
    library: a file written by [json.dump] is the value it was given. *)
Inductive file : Type :=
  | NoOpen (errno : nat) (strerror : string)      (* [open] raises [OSError] *)
  | NoDecode (byte : string) (position : nat) (reason : string)
                                                  (* not UTF-8 *)
  | NoJson (text : string) (msg : string) (lineno colno pos : nat)
                                                  (* a text [json.load] rejects *)
  | Json (data : json).                           (* a text [json.load] accepts *)

Abbreviation filesystem := (gmap string file).

(** [with open(filepath, r) as f: data = json.load(f)] *)
Definition load_json (filepath : string) (fs : filesystem) : exn + json :=
  match fs !! filepath with
  | None => inl (OSError 2 "No such file or directory" filepath)
  | Some (NoOpen errno strerror) => inl (OSError errno strerror filepath)
  | Some (NoDecode byte position reason) => inl (UnicodeDecodeError byte position reason)
  | Some (NoJson _ msg lineno colno pos) => inl (JSONDecodeError msg lineno colno pos)
  | Some (Json data) => inr data
  end.

(** [AppRecord.to_dict], that is [asdict(self)]. *)
Definition to_dict (a : AppRecord) : json :=
  JDict [ ("name", JStr (name a));
          ("publisher", JStr (publisher a));
          ("version", JStr (version a));
          ("uninstall_string", JStr (uninstall_string a));
          ("install_location", JStr (install_location a));
          ("source", JStr (source a));
          ("winget_id", JStr (winget_id a));
          ("winget_status", JStr (winget_status a));
          ("install_status", JStr (install_status a));
          ("install_error", JStr (install_error a)) ].

(** [AppRecord.__dataclass_fields__], as the set of its keys. *)
Definition dataclass_fields : list string :=
  [ "name"; "publisher"; "version"; "uninstall_string"; "install_location";
    "source"; "winget_id"; "winget_status"; "install_status"; "install_error" ].

(** [d[k]] as an option. *)
Fixpoint dict_get (k : string) (items : list (string * json)) : option json :=
  match items with
  | [] => None
  | (k', v) :: rest => if bool_decide (k' = k) then Some v else dict_get k rest
  end.

(** [AppRecord] called with the keywords [kw]: an unknown keyword and a missing [name] raise
    [TypeError]; the other fields have the defaults of the dataclass. *)
Definition AppRecord_init (kw : list (string * json)) : exn + AppRecord_of json :=
  match find (fun kv => negb (bool_decide (kv.1 ∈ dataclass_fields))) kw with
  | Some (k, _) => inl (TypeError_unexpected_keyword k)
  | None =>
      match dict_get "name" kw with
      | None => inl TypeError_missing_name
      | Some n =>
          let arg k dflt := default (JStr dflt) (dict_get k kw) in
          inr (mkAppRecord n
                 (arg "publisher" EmptyString)
                 (arg "version" EmptyString)
                 (arg "uninstall_string" EmptyString)
                 (arg "install_location" EmptyString)
                 (arg "source" EmptyString)
                 (arg "winget_id" EmptyString)
                 (arg "winget_status" "unknown")
                 (arg "install_status" EmptyString)
                 (arg "install_error" EmptyString))
      end
  end.

(** [AppRecord.from_dict(d)] *)
Definition from_dict (d : json) : exn + AppRecord_of json :=
  match d with
  | JDict items =>
      AppRecord_init (filter (fun kv => kv.1 ∈ dataclass_fields) items)
  | _ => inl (AttributeError (type_name d) "items")
  end.

(** [iter(v)] run to its end. *)
Fixpoint chars (s : string) : list json :=
  match s with
  | EmptyString => []
  | String c s' => JStr (String c EmptyString) :: chars s'
  end.

Definition py_iter (v : json) : exn + list json :=
  match v with
  | JList l => inr l
  | JStr s => inr (chars s)
  | JDict items => inr (map (fun kv => JStr kv.1) items)
  | _ => inl (TypeError_not_iterable (type_name v))
  end.

(** [[AppRecord.from_dict(d) for d in ds]]: the first exception ends it. *)
Fixpoint from_dicts (ds : list json) : exn + list (AppRecord_of json) :=
  match ds with
  | [] => inr []
  | d :: rest =>
      match from_dict d with
      | inl e => inl e
      | inr a =>
          match from_dicts rest with
          | inl e => inl e
          | inr l => inr (a :: l)
          end
      end
  end.

(** The two assignments of the reset loop of [import_template]. *)
Definition reset_install (a : AppRecord_of json) : AppRecord_of json :=
  mkAppRecord (name a) (publisher a) (version a) (uninstall_string a)
    (install_location a) (source a) (winget_id a) (winget_status a)
    (JStr EmptyString) (JStr EmptyString).

(** The body of the [try] of [import_template]. *)
Definition import_body (filepath : string) (fs : filesystem)
    : exn + list (AppRecord_of json) :=
  match load_json filepath fs with
  | inl e => inl e
  | inr data =>
      match data with
      | JDict items =>
          match py_iter (default (JList []) (dict_get "apps" items)) with
          | inl e => inl e
          | inr ds =>
              match from_dicts ds with
              | inl e => inl e
              | inr apps => inr (map reset_install apps)
              end
          end
      | _ => inl (AttributeError (type_name data) "get")
      end
  end.

Definition import_template (filepath : string) (fs : filesystem)
    : list (AppRecord_of json) * string :=
  match import_body filepath fs with
  | inr apps => (apps, EmptyString)
  | inl e => ([], str_exn e)
  end.

(** [export_template(apps, filepath)]: the new state of the file system. *)
Definition export_template (apps : list AppRecord) (filepath : string)
    (now : datetime) (fs : filesystem) : filesystem :=
  let data := JDict [ ("appvault_version", JStr APP_VERSION);
                      ("exported_at", JStr (isoformat now));
                      ("apps", JList (map to_dict apps)) ] in
  <[ filepath := Json data ]> fs.

(** The store of the main window and [_do_import]: the part of it that
    decides what becomes of [self._apps]; [path] is the answer of the file
    dialog. *)
Definition _do_import (path : string) (fs : filesystem)
    (_apps : list (AppRecord_of json)) : list (AppRecord_of json) :=
  if negb (Str.nonempty path) then _apps
  else
    let '(apps, err) := import_template path fs in
    if Str.nonempty err then _apps
    else apps.

(** The line feed, and [LF.join(lines)]. *)
Definition LF : string := String "010"%char EmptyString.

(** What the first loop of [export_ps1] appends for one entry. *)
Definition winget_block (a : AppRecord) : list string :=
  let comment := "# " +:+ name a in
  let comment := if Str.nonempty (publisher a)
                 then comment +:+ "  |  " +:+ publisher a else comment in
  let comment := if Str.nonempty (version a)
                 then comment +:+ "  |  v" +:+ version a else comment in
  [ comment;
    "winget install --id " +:+ winget_id a +:+ " --silent "
      +:+ "--accept-package-agreements --accept-source-agreements";
    EmptyString ].

(** What the second loop of [export_ps1] appends for one entry. *)
Definition manual_block (a : AppRecord) : list string :=
  ["# " +:+ name a]
  ++ (if Str.nonempty (publisher a) then ["#   Publisher : " +:+ publisher a] else [])
  ++ (if Str.nonempty (version a) then ["#   Version   : " +:+ version a] else [])
  ++ [EmptyString].

(** The list [lines] of [export_ps1] when the file is written; [now] is
    the text of the clock, [strftime] already applied. *)
Definition ps1_lines (apps : list AppRecord) (now : string) : list string :=
  let winget_apps := filter (fun a => Str.nonempty (winget_id a) = true) apps in
  let manual_apps := filter (fun a => Str.nonempty (winget_id a) = false) apps in
  let lines :=
    [ "# ============================================================";
      "#  AppVault — Auto-generated Install Script";
      "#  Generated : " +:+ now;
      "#  Apps      : " +:+ pretty (length winget_apps) +:+ " via Winget  |  "
        +:+ pretty (length manual_apps) +:+ " manual";
      "# ============================================================";
      EmptyString;
      "# Requires winget (App Installer) — https://aka.ms/getwinget";
      EmptyString;
      "Write-Host '=== AppVault Install Script ===' -ForegroundColor Cyan";
      "Write-Host ''";
      EmptyString ] in
  let lines :=
    match winget_apps with
    | [] => lines
    | _ =>
        lines
        ++ [ "# ── Winget Installs ─────────────────────────────────────────";
             EmptyString ]
        ++ concat (map winget_block winget_apps)
    end in
  let lines :=
    match manual_apps with
    | [] => lines
    | _ =>
        lines
        ++ [ "# ── Manual Installs Required ────────────────────────────────";
             "# The following apps have no Winget package — install manually:";
             EmptyString ]
        ++ concat (map manual_block manual_apps)
    end in
  lines
  ++ [ "Write-Host '' ";
       "Write-Host 'Done! Check output above for any errors.' -ForegroundColor Green" ].

(** [export_ps1(apps, filepath)]: the new state of the file system and the
    pair returned.  The script begins with a comment sign: as a JSON
    document it is rejected at its first character. *)
Definition export_ps1 (apps : list AppRecord) (filepath : string)
    (clock : datetime) (fs : filesystem) : filesystem * (nat * nat) :=
  let now := strftime_minute clock in
  let winget_apps := filter (fun a => Str.nonempty (winget_id a) = true) apps in
  let manual_apps := filter (fun a => Str.nonempty (winget_id a) = false) apps in
  let text := Str.join LF (ps1_lines apps now) in
  (<[ filepath := NoJson text "Expecting value" 1 1 0 ]> fs,
   (length winget_apps, length manual_apps)).

(** ** Vocabulary of the properties *)

(** Stage one of the filter: the name hits a built-in pattern. *)
Definition name_is_builtin (name : string) : bool :=
  existsb (fun pat => Re.search pat (Str.lower name)) WINDOWS_BUILTIN_PATTERNS.

(** The publisher is one of the vendor labels, case aside. *)
Definition vendor_publisher (publisher : string) : Prop :=
  Str.lower publisher ∈ EXCLUDE_PUBLISHERS.

(** The name holds one of the allowed product names, case aside. *)
Definition allow_listed (name : string) : bool :=
  existsb (fun a => Str.contains a (Str.lower name)) allowed_ms.

(** The order [sorted] arranges the records in. *)
Definition key_le {A} (key : A -> string) (a b : A) : Prop :=
  String.le (key a) (key b).

(** [a] stands in [apps] at a position before which no record has its
    name, case aside. *)
Definition first_occurrence (apps : list AppRecord) (a : AppRecord) : Prop :=
  exists i, apps !! i = Some a
    /\ forall j b, j < i -> apps !! j = Some b ->
         Str.lower (name b) <> Str.lower (name a).

(** The candidate of a row as the code takes it: in a row of at least
    two tokens, the first token that passes the test, with its score. *)
Definition row_candidate (name_lower line : string) : option (string * nat) :=
  let parts := Str.split line in
  if length parts <? 2 then None
  else
    match first_id_token 0 parts with
    | None => None
    | Some (i, p) =>
        Some (p, score name_lower (Str.lower (Str.join " " (take i parts))))
    end.

Definition candidates (output name : string) : list (string * nat) :=
  omap (row_candidate (Str.lower name)) (Str.splitlines (Str.strip output)).

(** The candidates as the specification words them: every token of every
    row that passes the test, scored on the row text before it. *)
Definition spec_row_candidates (name_lower line : string) : list (string * nat) :=
  let parts := Str.split line in
  omap (fun i =>
          match parts !! i with
          | Some p =>
              if is_id_token p
              then Some (p, score name_lower (Str.lower (Str.join " " (take i parts))))
              else None
          | None => None
          end)
       (seq 0 (length parts)).

Definition spec_candidates (output name : string) : list (string * nat) :=
  concat (map (spec_row_candidates (Str.lower name))
              (Str.splitlines (Str.strip output))).

(** [c] is at position [k] of [cands], no candidate scores more than it
    and every candidate before it scores less. *)
Definition first_best (cands : list (string * nat)) (k : nat) (c : string * nat) : Prop :=
  cands !! k = Some c
  /\ (forall j c', cands !! j = Some c' -> c'.2 <= c.2)
  /\ (forall j c', j < k -> cands !! j = Some c' -> c'.2 < c.2).

(** The update of [(best_id, best_score)] by a candidate. *)
Definition keep (st c : string * nat) : string * nat :=
  if (st.2 <? c.2) || ((c.2 =? st.2) && negb (Str.nonempty st.1)) then c else st.

(** Texts made of whitespace only; texts holding a line boundary; the
    first and the last character of a text. *)
Fixpoint all_space (s : string) : bool :=
  match s with
  | EmptyString => true
  | String c s' => Str.isspace c && all_space s'
  end.

Fixpoint has_break (s : string) : bool :=
  match s with
  | EmptyString => false
  | String c s' => Str.islinebreak c || has_break s'
  end.

Definition head_char (s : string) : option ascii :=
  match s with
  | EmptyString => None
  | String c _ => Some c
  end.

Fixpoint last_char (s : string) : option ascii :=
  match s with
  | EmptyString => None
  | String c EmptyString => Some c
  | String _ s' => last_char s'
  end.

(** What follows the last line boundary of a text. *)
Fixpoint last_line (u : string) : string :=
  match u with
  | EmptyString => EmptyString
  | String c u' =>
      if has_break u' then last_line u'
      else if Str.islinebreak c then u' else u
  end.

(** [line] is the last stretch of [output] that holds a visible
    character: it ends at the last character of [output] that is not
    whitespace, holds no line boundary, and begins either right after a
    line boundary, some visible character standing before it, or at the
    first visible character of [output]. *)
Definition last_visible_line (output line : string) : Prop :=
  exists front post,
    output = front +:+ line +:+ post
    /\ all_space post = true
    /\ has_break line = false
    /\ (exists c, last_char line = Some c /\ Str.isspace c = false)
    /\ ((all_space front = true
         /\ exists c, head_char line = Some c /\ Str.isspace c = false)
        \/ (all_space front = false
            /\ exists c, last_char front = Some c /\ Str.islinebreak c = true)).

(** The number of turns a worker loop runs over [len] indices from turn
    [n] on: it ends at the first turn whose poll of [_stop] is true. *)
Fixpoint turns (w : world) (n len : nat) : nat :=
  match len with
  | O => O
  | S len' => if stop_poll w n then O else S (turns w (S n) len')
  end.

(** The turns of the two loops for the given indices, with no poll of
    [_stop]; a turn whose index is out of range ends the list. *)
Fixpoint install_items (w : world) (apps : list AppRecord) (total n done : nat)
    (indices : list Z) : list event :=
  match indices with
  | [] => []
  | idx :: rest =>
      match getitem apps idx with
      | Some app =>
          install_item w total n done idx app
          ++ install_items w apps total (S n) (done + 1) rest
      | None => []
      end
  end.

Fixpoint match_items (w : world) (apps : list AppRecord) (total n : nat)
    (indices : list Z) : list event :=
  match indices with
  | [] => []
  | idx :: rest =>
      match getitem apps idx with
      | Some app => match_item w total n idx app ++ match_items w apps total (S n) rest
      | None => []
      end
  end.


(** The entry is left to a manual installation. *)
Definition manual_entry (app : AppRecord) : Prop :=
  winget_status app <> "found" \/ winget_id app = EmptyString.

(** A run used in the checks: nothing is cancelled, every command ends
    with exit code 0, and the scenario of two entries, one matched and one
    not. *)
Definition calm_world : world :=
  World (fun _ => false)
        (fun _ _ => Completed 0 EmptyString EmptyString)
        (fun _ _ => "12:00:00")
        (Some "C:\Users\u\AppVault_logs\install_20240115_120000.log").

Definition foo_bar : list AppRecord :=
  [ mkAppRecord "Foo" EmptyString EmptyString EmptyString EmptyString EmptyString
      "Vendor.Foo" "found" EmptyString EmptyString;
    mkAppRecord "Bar" EmptyString EmptyString EmptyString EmptyString EmptyString
      EmptyString "not_found" EmptyString EmptyString ].

(** The same, with [stop()] called while the first item is in progress. *)
Definition stopped_world : world :=
  World (fun n => bool_decide (1 <= n))
        (fun _ _ => Completed 0 EmptyString EmptyString)
        (fun _ _ => "12:00:00")
        (Some "C:\Users\u\AppVault_logs\install_20240115_120000.log").


(** An exported record as the import gives it back: every field as a
    JSON string, the two install fields emptied. *)
Definition imported (a : AppRecord) : AppRecord_of json :=
  mkAppRecord (JStr (name a)) (JStr (publisher a)) (JStr (version a))
    (JStr (uninstall_string a)) (JStr (install_location a)) (JStr (source a))
    (JStr (winget_id a)) (JStr (winget_status a))
    (JStr EmptyString) (JStr EmptyString).

(** The record [from_dict] builds from the items [d] of an entry object
    whose name is [n]: each field is the value at its key, or else the
    default of the dataclass. *)
Definition record_of (n : json) (d : list (string * json)) : AppRecord_of json :=
  mkAppRecord n
    (default (JStr EmptyString) (dict_get "publisher" d))
    (default (JStr EmptyString) (dict_get "version" d))
    (default (JStr EmptyString) (dict_get "uninstall_string" d))
    (default (JStr EmptyString) (dict_get "install_location" d))
    (default (JStr EmptyString) (dict_get "source" d))
    (default (JStr EmptyString) (dict_get "winget_id" d))
    (default (JStr "unknown") (dict_get "winget_status" d))
    (default (JStr EmptyString) (dict_get "install_status" d))
    (default (JStr EmptyString) (dict_get "install_error" d)).

(** What the import makes of an entry object that has a name. *)
Definition imported_entry (d : list (string * json)) : AppRecord_of json :=
  reset_install (record_of (default JNull (dict_get "name" d)) d).

(** Two clock readings, a minute apart and a second apart. *)
Definition noon : datetime := Datetime 2024 1 15 12 0 0 0.
Definition noon_and_a_second : datetime := Datetime 2024 1 15 12 0 1 0.
Definition a_minute_past_noon : datetime := Datetime 2024 1 15 12 1 0 0.

(** A document whose only entry has a name and a key that is no field,
    and one whose second entry has no name. *)
Definition name_only_doc : json :=
  JDict [ ("apps", JList [ JDict [ ("name", JStr "X"); ("colour", JStr "red") ] ]) ].

Definition nameless_doc : json :=
  JDict [ ("apps", JList [ JDict [ ("name", JStr "X") ];
                           JDict [ ("publisher", JStr "P") ] ]) ].

(** ** More of the program: the command of the install page *)

(** [build_winget_command(apps)]; [clock] is the reading of
    [datetime.datetime.now()]. *)
Definition build_winget_command (apps : list AppRecord) (clock : datetime) : string :=
  let valid := filter (fun a => Str.nonempty (winget_id a) = true) apps in
  match valid with
  | [] => "# No apps with Winget IDs selected."
  | _ =>
      let lines := [ "# AppVault — Generated Install Script";
                     "# Generated: " +:+ strftime_minute clock;
                     EmptyString ] in
      let lines :=
        lines
        ++ map (fun a => "winget install --id " +:+ winget_id a
                         +:+ " --silent --accept-package-agreements --accept-source-agreements")
               valid in
      Str.join LF lines
  end.

(** ** More of the program: the slots that record the match signals *)

(** [AppListItem.update_winget(winget_id, status)], on the record. *)
Definition update_winget (wid status : string) (a : AppRecord) : AppRecord :=
  mkAppRecord (name a) (publisher a) (version a) (uninstall_string a)
    (install_location a) (source a) wid status
    (install_status a) (install_error a).

(** [_on_app_matched]: the widget at [idx], when there is one, takes the
    identifier and the status; an index below the range raises in the slot
    and changes nothing. *)
Definition _on_app_matched (idx : Z) (wid status : string) (apps : list AppRecord)
    : list AppRecord :=
  if (idx <? Z.of_nat (length apps))%Z then
    match position (length apps) idx with
    | Some p => alter (update_winget wid status) p apps
    | None => apps
    end
  else apps.

(** The slot connected to each signal of the matcher; the progress and
    completion signals drive the progress bar and the status line only. *)
Definition on_match_signal (apps : list AppRecord) (e : event) : list AppRecord :=
  match e with
  | Emit (app_matched idx wid status) => _on_app_matched idx wid status apps
  | _ => apps
  end.

Definition after_match_signals (tr : list event) (apps : list AppRecord)
    : list AppRecord :=
  fold_left on_match_signal tr apps.

(** ** Vocabulary of the further properties *)

(** A text without whitespace. *)
Fixpoint no_space (s : string) : bool :=
  match s with
  | EmptyString => true
  | String c s' => negb (Str.isspace c) && no_space s'
  end.

(** The match fields of an entry agree: found with an identifier, or
    not found with none. *)
Definition match_consistent (a : AppRecord) : Prop :=
  (winget_status a = "found" /\ winget_id a <> EmptyString)
  \/ (winget_status a <> "found" /\ winget_id a = EmptyString).

(** The progress signals of a trace, in order. *)
Definition progress_signals (tr : list event) : list (nat * nat) :=
  omap (fun e =>
          match e with
          | Emit (progress current total) => Some (current, total)
          | Emit (overall_progress done total) => Some (done, total)
          | _ => None
          end) tr.

(** The started and finished signals of a trace, in order, by index:
    [inl] for started, [inr] for finished. *)
Definition lifecycle (tr : list event) : list (Z + Z) :=
  omap (fun e =>
          match e with
          | Emit (app_started idx _) => Some (inl idx)
          | Emit (app_finished idx _ _) => Some (inr idx)
          | _ => None
          end) tr.

(** The fields of an entry the matcher has no business with, and those
    the install slots have no business with. *)
Definition match_frame (a : AppRecord) :=
  (name a, publisher a, version a, uninstall_string a, install_location a,
   source a, install_status a, install_error a).

Definition install_frame (a : AppRecord) :=
  (name a, publisher a, version a, uninstall_string a, install_location a,
   source a, winget_id a, winget_status a).

(** The install directive of a script for an identifier: the command
    line of the install worker, its arguments joined by single spaces. *)
Definition directive (winget_id : string) : string :=
  Str.join " " (install_command winget_id).

(** A line that begins as an install directive does. *)
Definition is_directive (line : string) : bool :=
  Str.startswith line "winget install --id ".

(** The entries that have an identifier, as the exports select them. *)
Definition with_id (apps : list AppRecord) : list AppRecord :=
  filter (fun a => Str.nonempty (winget_id a) = true) apps.

(** The lines [build_winget_command] joins. *)
Definition build_winget_lines (apps : list AppRecord) (clock : datetime) : list string :=
  match with_id apps with
  | [] => ["# No apps with Winget IDs selected."]
  | valid =>
      [ "# AppVault — Generated Install Script";
        "# Generated: " +:+ strftime_minute clock;
        EmptyString ]
      ++ map (fun a => directive (winget_id a)) valid
  end.

(** ** More of the program: the bundle *)

(** [s * n] *)
Fixpoint str_times (s : string) (n : nat) : string :=
  match n with
  | O => EmptyString
  | S n' => s +:+ str_times s n'
  end.

(** What the loop of [export_bundle] writes to the listing for one entry,
    one [f.write] after the other. *)
Definition listing_entry (a : AppRecord) : string :=
  ("  " +:+ name a +:+ LF)
  +:+ (if Str.nonempty (publisher a)
       then "    Publisher  : " +:+ publisher a +:+ LF else EmptyString)
  +:+ (if Str.nonempty (version a)
       then "    Version    : " +:+ version a +:+ LF else EmptyString)
  +:+ (if Str.nonempty (winget_id a)
       then "    Winget ID  : " +:+ winget_id a +:+ LF
       else "    Winget     : Manual install required" +:+ LF)
  +:+ LF.

(** The text written to the listing; [now] is the text of the clock. *)
Definition listing (apps : list AppRecord) (now : string) : string :=
  ("AppVault — Exported App List" +:+ LF +:+ "Generated: " +:+ now +:+ LF)
  +:+ (str_times "=" 60 +:+ LF +:+ LF)
  +:+ String.concat EmptyString (map listing_entry apps).

(** [export_bundle(apps, folder)]: the new state of the file system and the
    dictionary returned, as the list of its items.  [path_join] is
    [os.path.join]; the clock is read three times, by [export_template],
    by [export_ps1] and for the listing.  The folder is taken to exist
    after [os.makedirs] and the three files to open for writing.  The
    listing begins with a letter: as a JSON document it is rejected at
    its first character. *)
Definition export_bundle (path_join : string -> string -> string)
    (apps : list AppRecord) (folder : string)
    (clock1 clock2 clock3 : datetime) (fs : filesystem)
    : filesystem * list (string * string) :=
  let out := [] in
  let json_path := path_join folder "appvault_template.json" in
  let fs := export_template apps json_path clock1 fs in
  let out := out ++ [("appvault_template.json", json_path)] in
  let ps1_path := path_join folder "install.ps1" in
  let fs := (export_ps1 apps ps1_path clock2 fs).1 in
  let out := out ++ [("install.ps1", ps1_path)] in
  let txt_path := path_join folder "app_list.txt" in
  let now := strftime_minute clock3 in
  let fs := <[ txt_path := NoJson (listing apps now) "Expecting value" 1 1 0 ]> fs in
  let out := out ++ [("app_list.txt", txt_path)] in
  (fs, out).

(** A path made of the folder, a backslash and the file name. *)
Definition backslash_join (folder file : string) : string :=
  folder +:+ "\" +:+ file.

(** ** More of the program: the selection and the summaries of the main window

    A widget of the list is given by the state of its check box. *)

(** [[i for i, w in enumerate(self._item_widgets) if w.is_checked]], the
    indices [_do_match] and [_start_install] hand to the workers; [i] is
    where the enumeration stands. *)
Fixpoint checked_from (i : nat) (widgets : list bool) : list Z :=
  match widgets with
  | [] => []
  | is_checked :: rest =>
      if is_checked then Z.of_nat i :: checked_from (S i) rest
      else checked_from (S i) rest
  end.

Definition checked_indices (widgets : list bool) : list Z :=
  checked_from 0 widgets.

(** [[l[i] for i in indices]]; [None] stands for [IndexError]. *)
Fixpoint getitems {A} (l : list A) (indices : list Z) : option (list A) :=
  match indices with
  | [] => Some []
  | i :: rest =>
      match getitem l i with
      | None => None
      | Some x =>
          match getitems l rest with
          | None => None
          | Some xs => Some (x :: xs)
          end
      end
  end.

(** [_selected_apps] *)
Definition _selected_apps (_apps : list AppRecord) (widgets : list bool)
    : option (list AppRecord) :=
  getitems _apps (checked_indices widgets).

(** The counters [n_success], [n_failed] and [n_manual] of
    [_refresh_results] when its loop ends. *)
Definition _refresh_results (_apps : list AppRecord) : nat * nat * nat :=
  fold_left
    (fun '(n_success, n_failed, n_manual) app =>
       if bool_decide (install_status app = "success")
       then (n_success + 1, n_failed, n_manual)
       else if bool_decide (install_status app = "failed")
       then (n_success, n_failed + 1, n_manual)
       else if bool_decide (install_status app = "manual")
       then (n_success, n_failed, n_manual + 1)
       else (n_success, n_failed, n_manual))
    _apps (0, 0, 0).

(** The numbers [found] and [manual] of [_on_match_done]. *)
Definition _on_match_done (_apps : list AppRecord) : nat * nat :=
  (length (filter (fun a => winget_status a = "found") _apps),
   length (filter (fun a => winget_status a = "not_found") _apps)).

(** The status and the error text the install worker reports for an
    entry processed in turn [n]. *)
Definition item_outcome (w : world) (n : nat) (app : AppRecord) : string * string :=
  if negb (bool_decide (winget_status app = "found")) || negb (Str.nonempty (winget_id app))
  then ("manual", "No Winget package available")
  else (install_attempt w n app).2.

(** The entries a run that is not cancelled leaves, read along the
    widgets: [n] counts the checked boxes passed. *)
Fixpoint installed_from (w : world) (n : nat) (apps : list AppRecord)
    (widgets : list bool) : list AppRecord :=
  match apps, widgets with
  | a :: apps', true :: widgets' =>
      update_status (item_outcome w n a).1 (item_outcome w n a).2 a
      :: installed_from w (S n) apps' widgets'
  | a :: apps', false :: widgets' => a :: installed_from w n apps' widgets'
  | _, _ => apps
  end.

Fixpoint matched_from (w : world) (n : nat) (apps : list AppRecord)
    (widgets : list bool) : list AppRecord :=
  match apps, widgets with
  | a :: apps', true :: widgets' =>
      (if bool_decide (winget_status a = "found") then a
       else
         let r := _search_winget
                    (fun args => search_output (subprocess_run w n args)) (name a) in
         update_winget r.1 r.2 a)
      :: matched_from w (S n) apps' widgets'
  | a :: apps', false :: widgets' => a :: matched_from w n apps' widgets'
  | _, _ => apps
  end.

(** The entries whose box is checked. *)
Fixpoint checked_entries {A} (l : list A) (widgets : list bool) : list A :=
  match l, widgets with
  | x :: l', c :: widgets' =>
      if c then x :: checked_entries l' widgets' else checked_entries l' widgets'
  | _, _ => []
  end.

(** A run that never reads the stop flag set. *)
Definition never_stopped (w : world) : Prop := forall n, stop_poll w n = false.

(** An entry no install run has reported on. *)
Definition unreported (a : AppRecord) : Prop :=
  install_status a <> "success" /\ install_status a <> "failed"
  /\ install_status a <> "manual".

(** The number of entries with a given install status. *)
Definition with_status (status : string) (apps : list AppRecord) : nat :=
  length (filter (fun a => install_status a = status) apps).

(** ** More of the program: the list of the main window *)

(** [_on_scan_done(apps)]: the entries of the window and one widget for
    each of them, its box checked. *)
Definition _on_scan_done (apps : list AppRecord) : list AppRecord * list bool :=
  (apps, map (fun _ => true) apps).

(** [sorts.get(idx, sorts[0])] *)
Definition sorts (idx : Z) : AppRecord -> string :=
  if bool_decide (idx = 2%Z) then fun a => Str.lower (publisher a)
  else if bool_decide (idx = 3%Z) then fun a => Str.lower (source a)
  else fun a => Str.lower (name a).

(** [l.sort(key=key, reverse=rev)]: a reverse sort reverses the list,
    sorts it as [sorted] does and reverses the result, so that equal keys
    keep their order of arrival there too. *)
Definition list_sort {A} (key : A -> string) (rev : bool) (l : list A) : list A :=
  if rev then reverse (sorted key (reverse l)) else sorted key l.

(** [_do_sort(idx)], on the entries; the list is rebuilt by
    [_on_scan_done]. *)
Definition _do_sort (idx : Z) (_apps : list AppRecord) : list AppRecord * list bool :=
  let rev := bool_decide (idx = 1%Z) in
  _on_scan_done (list_sort (sorts idx) rev _apps).

(** [_do_filter(text)]: for each row of the list, whether it is hidden. *)
Definition _do_filter (text : string) (_apps : list AppRecord) : list bool :=
  let text := Str.lower text in
  map (fun app =>
         if Str.contains text (Str.lower (name app))
            || Str.contains text (Str.lower (publisher app))
         then false else true) _apps.

(* ================================================================== *)
(** * Properties *)
(* ================================================================== *)

(** ** Python strings: checks of the primitives *)

Example split_ex : Str.split "  Mozilla Firefox   Mozilla.Firefox  1.0 " =
  ["Mozilla"; "Firefox"; "Mozilla.Firefox"; "1.0"].
Proof. reflexivity. Qed.

Example splitlines_ex :
  Str.splitlines (String "a" (String "013" (String "010" (String "010" (String "b" (String "010" EmptyString))))))
  = ["a"; EmptyString; "b"].
Proof. reflexivity. Qed.

Example strip_ex : Str.strip "  a b  " = "a b".
Proof. reflexivity. Qed.

Example builtin_teams : _is_builtin "Microsoft Teams" "Microsoft Corporation" = false.
Proof. vm_compute. reflexivity. Qed.

Example builtin_vc : _is_builtin "Microsoft Visual C++ 2015 Redistributable" "Microsoft Corporation" = true.
Proof. vm_compute. reflexivity. Qed.

Example builtin_kb : _is_builtin "Hotfix (KB2553313)" "Contoso" = true.
Proof. vm_compute. reflexivity. Qed.

Example builtin_kb_short : _is_builtin "Hotfix (KB25533)" "Contoso" = false.
Proof. vm_compute. reflexivity. Qed.

Example builtin_office_update :
  _is_builtin "Security Update for Microsoft Office 2010 (KB2553313)" "Microsoft Corporation" = true.
Proof. vm_compute. reflexivity. Qed.

Example parse_ex1 :
  _parse_winget_id "Name            Id              Version
Mozilla Firefox Mozilla.Firefox 120.0.1 winget" "Mozilla Firefox" = "Mozilla.Firefox".
Proof. vm_compute. reflexivity. Qed.

(** ** The built-in filter *)

Lemma _is_builtin_eq name publisher :
  _is_builtin name publisher =
  name_is_builtin name
  || (bool_decide (vendor_publisher publisher) && negb (allow_listed name)).
Proof.
  unfold _is_builtin, name_is_builtin, vendor_publisher, allow_listed.
  destruct (existsb _ WINDOWS_BUILTIN_PATTERNS); [reflexivity|].
  destruct (bool_decide _); [|reflexivity].
  destruct (existsb _ allowed_ms); reflexivity.
Qed.

(** C5, as the code has it.  For an entry whose publisher is a vendor
    label (compared in lower case): without an allow-listed name it is
    excluded; with one, the publisher no longer excludes it, and it is
    excluded exactly when its name hits a built-in name pattern.  With
    publisher Microsoft Corporation, Microsoft Teams is kept and Microsoft
    Visual C++ 2015 Redistributable is excluded. *)
Theorem C5_vendor_rule name publisher :
  vendor_publisher publisher ->
  (allow_listed name = false -> _is_builtin name publisher = true)
  /\ (allow_listed name = true -> _is_builtin name publisher = name_is_builtin name)
  /\ (allow_listed name = true -> name_is_builtin name = false ->
      _is_builtin name publisher = false)
  /\ _is_builtin "Microsoft Teams" "Microsoft Corporation" = false
  /\ _is_builtin "Microsoft Visual C++ 2015 Redistributable" "Microsoft Corporation" = true.
Proof.
  intros Hv. rewrite _is_builtin_eq.
  rewrite (bool_decide_eq_true_2 _ Hv).
  repeat split.
  - intros ->. apply orb_true_r.
  - intros ->. cbn [andb negb]. apply orb_false_r.
  - intros -> ->. reflexivity.
Qed.

Lemma C5_vendor_rule_witness :
  vendor_publisher "Microsoft Corporation"
  /\ allow_listed "Microsoft Teams" = true
  /\ _is_builtin "Microsoft Teams" "Microsoft Corporation" = false.
Proof.
  assert (Hv : vendor_publisher "Microsoft Corporation").
  { apply (bool_decide_eq_true_1 _). vm_compute. reflexivity. }
  split; [exact Hv|]. split; [vm_compute; reflexivity|].
  apply (C5_vendor_rule "Microsoft Teams" "Microsoft Corporation" Hv);
    vm_compute; reflexivity.
Defined.

(** C5 as worded fails: an allow-listed name under a vendor publisher is
    excluded all the same when the name hits a built-in pattern. *)
Lemma C5_allow_listed_excluded :
  vendor_publisher "Microsoft Corporation"
  /\ allow_listed "Security Update for Microsoft Office 2010 (KB2553313)" = true
  /\ _is_builtin "Security Update for Microsoft Office 2010 (KB2553313)"
       "Microsoft Corporation" = true.
Proof.
  split; [apply (bool_decide_eq_true_1 _); vm_compute; reflexivity|].
  split; vm_compute; reflexivity.
Qed.

(** ** The scan: sorting *)

Section sorted_by_key.
Context {A : Type} (key : A -> string).

Lemma ltb_true_le x y : String.ltb x y = true -> String.le x y.
Proof.
  unfold String.ltb, String.le, String.leb.
  destruct (String.compare x y); simpl; intros; (done || discriminate).
Qed.

Lemma ltb_false_le x y : String.ltb x y = false -> String.le y x.
Proof.
  unfold String.ltb, String.le, String.leb.
  rewrite (String.compare_antisym y x).
  destruct (String.compare x y); simpl; intros; (done || discriminate).
Qed.

#[local] Instance key_le_trans : Transitive (key_le key).
Proof. intros a b c Hab Hbc. unfold key_le in *. by etrans. Qed.

Lemma insert_by_perm x l : insert_by key x l ≡ₚ x :: l.
Proof.
  induction l as [|y l IH]; simpl; [done|].
  destruct (String.ltb (key y) (key x)); [|done].
  rewrite IH. apply Permutation_swap.
Qed.

Lemma sorted_perm l : sorted key l ≡ₚ l.
Proof.
  induction l as [|x l IH]; simpl; [done|].
  rewrite insert_by_perm. by rewrite IH.
Qed.

Lemma insert_by_Sorted x l :
  Sorted (key_le key) l -> Sorted (key_le key) (insert_by key x l).
Proof.
  induction l as [|y l IH]; simpl; intros Hs.
  - repeat constructor.
  - destruct (String.ltb (key y) (key x)) eqn:Hlt.
    + apply Sorted_inv in Hs as [Hs Hhd].
      constructor; [by apply IH|].
      destruct l as [|z l]; simpl.
      * constructor. by apply ltb_true_le.
      * destruct (String.ltb (key z) (key x)).
        -- constructor. by inversion Hhd.
        -- constructor. by apply ltb_true_le.
    + constructor; [done|]. constructor. by apply ltb_false_le.
Qed.

Lemma sorted_Sorted l : Sorted (key_le key) (sorted key l).
Proof.
  induction l as [|x l IH]; simpl; [constructor|].
  by apply insert_by_Sorted.
Qed.

Lemma sorted_StronglySorted l : StronglySorted (key_le key) (sorted key l).
Proof. apply Sorted_StronglySorted; [apply _|apply sorted_Sorted]. Qed.

End sorted_by_key.

(** ** The scan: first occurrences *)

Lemma dedup_loop_app apps seen unique :
  dedup_loop apps seen unique = unique ++ dedup_loop apps seen [].
Proof.
  revert seen unique.
  induction apps as [|a apps IH]; intros seen unique; simpl.
  - by rewrite app_nil_r.
  - case_bool_decide; [apply IH|].
    rewrite (IH _ (unique ++ [a])), (IH _ ([] ++ [a])).
    by rewrite <- app_assoc.
Qed.

Lemma elem_of_dedup_loop apps seen a :
  a ∈ dedup_loop apps seen [] <->
  ((Str.lower (name a) ∉ seen) /\
   exists i, apps !! i = Some a
     /\ forall j b, j < i -> apps !! j = Some b ->
          Str.lower (name b) <> Str.lower (name a)).
Proof.
  revert seen.
  induction apps as [|a0 apps IH]; intros seen; simpl.
  - split; [by intros ?%elem_of_nil|]. by intros (_ & i & Hi & _).
  - case_bool_decide as Hseen.
    + rewrite IH. split.
      * intros (Hn & i & Hi & Hfirst). split; [done|].
        exists (S i). split; [done|].
        intros [|j] b Hj Hb; simplify_eq/=; [congruence|].
        apply (Hfirst j b); [lia|done].
      * intros (Hn & [|i] & Hi & Hfirst); simplify_eq/=; [done|].
        split; [done|]. exists i. split; [done|].
        intros j b Hj Hb. apply (Hfirst (S j) b); [lia|done].
    + rewrite dedup_loop_app. simpl.
      rewrite elem_of_cons, IH. split.
      * intros [->|(Hn & i & Hi & Hfirst)].
        -- split; [done|]. exists 0. split; [done|]. intros; lia.
        -- apply not_elem_of_union in Hn as [Hn0%not_elem_of_singleton Hn].
           split; [done|]. exists (S i). split; [done|].
           intros [|j] b Hj Hb; simplify_eq/=; [congruence|].
           apply (Hfirst j b); [lia|done].
      * intros (Hn & [|i] & Hi & Hfirst); simplify_eq/=; [by left|].
        right. split.
        -- assert (Str.lower (name a0) <> Str.lower (name a))
             by (apply (Hfirst 0 a0); [lia|done]).
           apply not_elem_of_union. split; [|done].
           apply not_elem_of_singleton. congruence.
        -- exists i. split; [done|].
           intros j b Hj Hb. apply (Hfirst (S j) b); [lia|done].
Qed.

Lemma NoDup_dedup_loop apps seen :
  NoDup (map (fun a => Str.lower (name a)) (dedup_loop apps seen [])).
Proof.
  revert seen.
  induction apps as [|a0 apps IH]; intros seen; simpl; [constructor|].
  case_bool_decide as Hseen; [apply IH|].
  rewrite dedup_loop_app. simpl. constructor; [|apply IH].
  rewrite list_elem_of_fmap. intros (b & Heq & Hb).
  apply elem_of_dedup_loop in Hb as [Hb _].
  apply Hb, elem_of_union. left. apply elem_of_singleton. congruence.
Qed.

(** C4.  Whatever the three views of the registry yield, the list
    returned by the scan has pairwise different names, case aside; its
    members are the first occurrences of their names in the views read in
    the order HKLM 64-bit, HKLM 32-bit, HKCU; and it is sorted by name,
    case aside. *)
Theorem C4_scan_unique_first_sorted (_read_hive : hive -> list AppRecord) :
  let apps := _read_hive HKLM_x64 ++ _read_hive HKLM_x86 ++ _read_hive HKCU in
  let key := fun a : AppRecord => Str.lower (name a) in
  let result := scan_installed_apps _read_hive in
  NoDup (map key result)
  /\ (forall a, a ∈ result <-> first_occurrence apps a)
  /\ StronglySorted (fun a b => String.le (key a) (key b)) result.
Proof.
  intros apps key result.
  assert (Hres : result = sorted key (dedup_loop apps ∅ [])).
  { unfold result, scan_installed_apps, apps. simpl. by rewrite <- app_assoc. }
  rewrite Hres. split; [|split].
  - assert (Hp : map key (sorted key (dedup_loop apps ∅ []))
                 ≡ₚ map key (dedup_loop apps ∅ []))
      by apply Permutation_map, sorted_perm.
    rewrite Hp. apply NoDup_dedup_loop.
  - intros a. rewrite (sorted_perm key), elem_of_dedup_loop.
    unfold first_occurrence. split; [by intros [_ ?]|].
    intros ?. split; [apply not_elem_of_empty|done].
  - apply (sorted_StronglySorted key).
Qed.

Example scan_ex :
  map name (scan_installed_apps (fun h =>
    match h with
    | HKLM_x64 => [new_record "zeta" "p" "1" "u" "l" "HKLM x64";
                   new_record "Alpha" "p" "1" "u" "l" "HKLM x64"]
    | HKLM_x86 => [new_record "ZETA" "q" "2" "u" "l" "HKLM x86"]
    | HKCU => [new_record "beta" "r" "3" "u" "l" "HKCU"]
    end)) = ["Alpha"; "beta"; "zeta"].
Proof. vm_compute. reflexivity. Qed.

(** ** The matcher: which identifier is kept *)

Lemma parse_line_keep name_lower st line :
  parse_line name_lower st line =
  match row_candidate name_lower line with
  | Some c => keep st c
  | None => st
  end.
Proof.
  unfold parse_line, row_candidate, keep. destruct st as [best_id best_score].
  destruct (length (Str.split line) <? 2); [done|].
  destruct (first_id_token 0 (Str.split line)) as [[i p]|]; [|done].
  simpl. by destruct (_ || _).
Qed.

Lemma fold_parse_line name_lower lines st :
  fold_left (parse_line name_lower) lines st =
  fold_left keep (omap (row_candidate name_lower) lines) st.
Proof.
  revert st. induction lines as [|line lines IH]; intros st; simpl; [done|].
  rewrite IH, parse_line_keep.
  by destruct (row_candidate name_lower line).
Qed.

Lemma first_id_token_test i parts k p :
  first_id_token i parts = Some (k, p) -> is_id_token p = true.
Proof.
  revert i. induction parts as [|q parts IH]; intros i; simpl; [done|].
  destruct (is_id_token q) eqn:Hq; [|apply IH]. by intros [= _ <-].
Qed.

Lemma is_id_token_nonempty p : is_id_token p = true -> Str.nonempty p = true.
Proof.
  unfold is_id_token. intros [_ Hlen]%andb_true_iff.
  destruct p; [done|done].
Qed.

Lemma row_candidate_nonempty name_lower line c :
  row_candidate name_lower line = Some c -> Str.nonempty c.1 = true.
Proof.
  unfold row_candidate. destruct (_ <? 2); [done|].
  destruct (first_id_token 0 (Str.split line)) as [[i p]|] eqn:Hf; [|done].
  intros [= <-]. simpl. eapply is_id_token_nonempty, first_id_token_test, Hf.
Qed.

Lemma candidates_nonempty output name c :
  c ∈ candidates output name -> Str.nonempty c.1 = true.
Proof.
  unfold candidates. intros (line & _ & Hc)%list_elem_of_omap.
  by eapply row_candidate_nonempty.
Qed.

(** Once an identifier is kept, only a strictly higher score replaces it. *)
Lemma keep_kept st c :
  Str.nonempty st.1 = true -> keep st c = if st.2 <? c.2 then c else st.
Proof.
  unfold keep. intros ->. simpl. by rewrite andb_false_r, orb_false_r.
Qed.

(** The first candidate met is kept whatever it scores. *)
Lemma keep_first c : keep (EmptyString, 0) c = c.
Proof.
  unfold keep. simpl. destruct c as [p [|sc]]; simpl; done.
Qed.

Lemma fold_keep_first_best c0 rest :
  (forall c, c ∈ c0 :: rest -> Str.nonempty c.1 = true) ->
  exists k, first_best (c0 :: rest) k (fold_left keep rest c0).
Proof.
  induction rest as [|c rest IH] using rev_ind; intros Hne.
  - exists 0. simpl. split; [done|]. split.
    + intros [|j] c' Hj; simplify_eq/=; lia.
    + intros; lia.
  - destruct IH as (k & Hk & Hmax & Hlt).
    { intros c' Hc'. apply Hne. rewrite app_comm_cons. apply elem_of_app. by left. }
    rewrite fold_left_app. simpl.
    set (b := fold_left keep rest c0) in *.
    assert (Hb : Str.nonempty b.1 = true).
    { apply Hne. rewrite app_comm_cons. apply elem_of_app. left.
      by eapply list_elem_of_lookup_2. }
    rewrite (keep_kept _ _ Hb).
    assert (Hklen : k < length (c0 :: rest)) by by eapply lookup_lt_Some.
    destruct (b.2 <? c.2) eqn:Hcmp.
    + apply Nat.ltb_lt in Hcmp.
      exists (length (c0 :: rest)). rewrite app_comm_cons. split; [|split].
      * rewrite lookup_app_r by lia. by rewrite Nat.sub_diag.
      * intros j c' Hj. apply lookup_app_Some in Hj as [Hj|[_ Hj]].
        -- specialize (Hmax j c' Hj). lia.
        -- apply list_lookup_singleton_Some in Hj as [_ ->]. lia.
      * intros j c' Hjlt Hj. rewrite lookup_app_l in Hj by lia.
        specialize (Hmax j c' Hj). lia.
    + apply Nat.ltb_ge in Hcmp.
      exists k. rewrite app_comm_cons. split; [|split].
      * by rewrite lookup_app_l by lia.
      * intros j c' Hj. apply lookup_app_Some in Hj as [Hj|[_ Hj]].
        -- by apply (Hmax j).
        -- apply list_lookup_singleton_Some in Hj as [_ ->]. lia.
      * intros j c' Hjlt Hj. rewrite lookup_app_l in Hj by lia.
        by apply (Hlt j).
Qed.

Lemma _parse_winget_id_fold output name :
  _parse_winget_id output name =
  (fold_left keep (candidates output name) (EmptyString, 0)).1.
Proof. unfold _parse_winget_id, candidates. by rewrite fold_parse_line. Qed.

(** What [_parse_winget_id] returns: the empty text when no row has a
    candidate, and otherwise the first of the best-scoring candidates. *)
Lemma _parse_winget_id_spec output name :
  match candidates output name with
  | [] => _parse_winget_id output name = EmptyString
  | cands =>
      exists k sc, first_best cands k (_parse_winget_id output name, sc)
  end.
Proof.
  rewrite _parse_winget_id_fold.
  pose proof (candidates_nonempty output name) as Hne.
  destruct (candidates output name) as [|c0 rest]; [done|].
  simpl. rewrite keep_first.
  destruct (fold_keep_first_best c0 rest Hne) as (k & Hk).
  exists k, (fold_left keep rest c0).2. by destruct (fold_left keep rest c0).
Qed.

Lemma _parse_winget_id_nonempty output name :
  Str.nonempty (_parse_winget_id output name)
  = match candidates output name with [] => false | _ => true end.
Proof.
  pose proof (_parse_winget_id_spec output name) as Hs.
  pose proof (candidates_nonempty output name) as Hne.
  destruct (candidates output name) as [|c0 rest]; [by rewrite Hs|].
  destruct Hs as (k & sc & Hk & _).
  apply (Hne (_, sc)). by eapply list_elem_of_lookup_2.
Qed.

Lemma first_id_token_lookup i parts k p :
  first_id_token i parts = Some (k, p) ->
  exists m, k = i + m /\ parts !! m = Some p.
Proof.
  revert i. induction parts as [|q parts IH]; intros i; simpl; [done|].
  destruct (is_id_token q).
  - intros [= <- <-]. exists 0. split; [lia|done].
  - intros (m & -> & Hm)%IH. exists (S m). split; [lia|done].
Qed.

(** Every candidate the code considers is one of the tokens the
    specification calls a candidate, with the score it gives it. *)
Lemma candidates_spec_candidates output name c :
  c ∈ candidates output name -> c ∈ spec_candidates output name.
Proof.
  unfold candidates, spec_candidates.
  intros (line & Hline & Hc)%list_elem_of_omap.
  apply list_elem_of_In, in_concat.
  exists (spec_row_candidates (Str.lower name) line).
  split; [apply in_map; by apply list_elem_of_In|].
  apply list_elem_of_In.
  unfold row_candidate in Hc. unfold spec_row_candidates.
  destruct (_ <? 2); [done|].
  destruct (first_id_token 0 (Str.split line)) as [[k p]|] eqn:Hf; [|done].
  injection Hc as <-.
  pose proof (first_id_token_test _ _ _ _ Hf) as Htest.
  apply first_id_token_lookup in Hf as (m & -> & Hm). simpl.
  apply list_elem_of_omap. exists m. split.
  - apply elem_of_seq. apply lookup_lt_Some in Hm. lia.
  - by rewrite Hm, Htest.
Qed.

(** C2, as the code has it.  The candidates are, row by row, the first
    token of a row of at least two tokens that holds a dot, is longer than
    three characters and does not begin with a dash, scored by the number
    of words of the lower-cased name found in the lower-cased row text
    before it.  [_parse_winget_id] keeps the candidate with the highest
    score, the first one on a tie, and the empty text when there is no
    candidate.  [_search_winget] answers not found with an empty
    identifier when neither query yields a candidate, and found with the
    kept candidate of the exact query, or else of the fuzzy one. *)
Theorem C2_first_best_candidate (_run : list string -> string) (name output : string) :
  (forall c, c ∈ candidates output name -> c ∈ spec_candidates output name)
  /\ match candidates output name with
     | [] => _parse_winget_id output name = EmptyString
     | cands => exists k sc, first_best cands k (_parse_winget_id output name, sc)
     end
  /\ match candidates (_run (exact_query name)) name,
           candidates (_run (fuzzy_query name)) name with
     | [], [] => _search_winget _run name = (EmptyString, "not_found")
     | [], cands | cands, _ =>
         exists k sc pkg_id,
           _search_winget _run name = (pkg_id, "found")
           /\ first_best cands k (pkg_id, sc)
     end.
Proof.
  split; [apply candidates_spec_candidates|].
  split; [apply _parse_winget_id_spec|].
  unfold _search_winget.
  rewrite !_parse_winget_id_nonempty.
  pose proof (_parse_winget_id_spec (_run (exact_query name)) name) as He.
  pose proof (_parse_winget_id_spec (_run (fuzzy_query name)) name) as Hf.
  destruct (candidates (_run (exact_query name)) name) as [|c0 rest].
  - destruct (candidates (_run (fuzzy_query name)) name) as [|d0 rest']; [done|].
    destruct Hf as (k & sc & Hk). by exists k, sc, (_parse_winget_id (_run (fuzzy_query name)) name).
  - destruct He as (k & sc & Hk). by exists k, sc, (_parse_winget_id (_run (exact_query name)) name).
Qed.

(** C2 as worded fails: a later token of the row that passes the same
    test scores higher than the token kept, so the identifier kept is not
    the best of the tokens that pass the test. *)
Lemma C2_later_token_scores_higher :
  _parse_winget_id "Node.js OpenJS.NodeJS 20.10.0 winget" "Node.js" = "Node.js"
  /\ spec_candidates "Node.js OpenJS.NodeJS 20.10.0 winget" "Node.js"
     = [("Node.js", 0); ("OpenJS.NodeJS", 1); ("20.10.0", 1)]
  /\ ~ exists k sc,
        first_best (spec_candidates "Node.js OpenJS.NodeJS 20.10.0 winget" "Node.js")
          k (_parse_winget_id "Node.js OpenJS.NodeJS 20.10.0 winget" "Node.js", sc).
Proof.
  assert (Hp : _parse_winget_id "Node.js OpenJS.NodeJS 20.10.0 winget" "Node.js"
               = "Node.js") by (vm_compute; reflexivity).
  assert (Hs : spec_candidates "Node.js OpenJS.NodeJS 20.10.0 winget" "Node.js"
               = [("Node.js", 0); ("OpenJS.NodeJS", 1); ("20.10.0", 1)])
    by (vm_compute; reflexivity).
  split; [done|]. split; [done|].
  rewrite Hp, Hs. intros (k & sc & Hk & Hmax & _).
  specialize (Hmax 1 ("OpenJS.NodeJS", 1) eq_refl). simpl in Hmax.
  destruct k as [|[|[|k]]]; simpl in Hk; simplify_eq; lia.
Qed.

Example parse_zero_score_kept :
  _search_winget (fun _ => "Foo Vendor.App 1.0") "Bar" = ("Vendor.App", "found").
Proof. vm_compute. reflexivity. Qed.

Example parse_single_token_row :
  _parse_winget_id "Vendor.App" "Vendor" = EmptyString.
Proof. vm_compute. reflexivity. Qed.

(** ** Texts: stripping and line splitting *)

#[local] Arguments String.append : simpl nomatch.

Lemma append_nil_r s : s +:+ EmptyString = s.
Proof. induction s; simpl; [done|]. by f_equal. Qed.

Lemma append_assoc s1 s2 s3 : (s1 +:+ s2) +:+ s3 = s1 +:+ s2 +:+ s3.
Proof. induction s1; simpl; [done|]. by f_equal. Qed.

Lemma rev_app_append s1 s2 : String.rev_app s1 s2 = String.rev s1 +:+ s2.
Proof.
  unfold String.rev. revert s2.
  induction s1 as [|c s1 IH]; intros s2; simpl; [done|].
  rewrite (IH (String c EmptyString)), IH. by rewrite append_assoc.
Qed.

Lemma rev_cons c s : String.rev (String c s) = String.rev s +:+ String c EmptyString.
Proof. unfold String.rev at 1. simpl. apply rev_app_append. Qed.

Lemma islinebreak_isspace c : Str.islinebreak c = true -> Str.isspace c = true.
Proof.
  unfold Str.islinebreak, Str.isspace, Str.between.
  generalize (Str.ord c). intros n.
  rewrite !orb_true_iff, !andb_true_iff, !N.leb_le, !N.eqb_eq. lia.
Qed.

Lemma all_space_append s1 s2 :
  all_space (s1 +:+ s2) = all_space s1 && all_space s2.
Proof.
  induction s1 as [|c s1 IH]; simpl; [done|].
  by rewrite IH, andb_assoc.
Qed.

Lemma last_char_is_Some c s : is_Some (last_char (String c s)).
Proof.
  revert c. induction s as [|d s IH]; intros c; [by eexists|]. apply (IH d).
Qed.

Lemma last_char_cons c s :
  last_char (String c s) =
  match last_char s with Some d => Some d | None => Some c end.
Proof.
  destruct s as [|d s]; [done|].
  destruct (last_char_is_Some d s) as [x Hx].
  change (last_char (String c (String d s))) with (last_char (String d s)).
  by rewrite Hx.
Qed.

Lemma last_char_append s1 s2 :
  last_char (s1 +:+ s2) =
  match last_char s2 with Some c => Some c | None => last_char s1 end.
Proof.
  induction s1 as [|c s1 IH]; [simpl; by destruct (last_char s2)|].
  change (String c s1 +:+ s2) with (String c (s1 +:+ s2)).
  rewrite !last_char_cons, IH. by destruct (last_char s2).
Qed.

Lemma lstrip_decomp s :
  exists pre, s = pre +:+ Str.lstrip s /\ all_space pre = true
    /\ match Str.lstrip s with
       | String c _ => Str.isspace c = false
       | EmptyString => True
       end.
Proof.
  induction s as [|c s (pre & Hs & Hpre & Hhd)]; simpl.
  - by exists EmptyString.
  - destruct (Str.isspace c) eqn:Hc.
    + exists (String c pre). simpl. rewrite Hc, Hpre. split; [by f_equal|done].
    + exists EmptyString. by rewrite Hc.
Qed.

Lemma rstrip_decomp t :
  exists post, t = Str.rstrip t +:+ post /\ all_space post = true
    /\ match last_char (Str.rstrip t) with
       | Some c => Str.isspace c = false
       | None => True
       end.
Proof.
  induction t as [|c t (post & Ht & Hpost & Hlast)]; simpl.
  - by exists EmptyString.
  - destruct (Str.rstrip t) as [|d r] eqn:Hr.
    + simpl in Ht. subst post. destruct (Str.isspace c) eqn:Hc.
      * exists (String c t). simpl. by rewrite Hc, Hpost.
      * exists t. simpl. by rewrite Hc.
    + exists post. split; [simpl; by f_equal|]. split; [done|].
      simpl in *. done.
Qed.

Lemma lstrip_empty s : Str.lstrip s = EmptyString <-> all_space s = true.
Proof.
  induction s as [|c s IH]; simpl; [done|].
  destruct (Str.isspace c); simpl; [done|]. split; done.
Qed.

Lemma rstrip_empty t : Str.rstrip t = EmptyString <-> all_space t = true.
Proof.
  induction t as [|c t IH]; simpl; [done|].
  destruct (Str.rstrip t) as [|d r].
  - destruct (Str.isspace c); simpl; [|split; done].
    split; [intros _; by apply IH|done].
  - split; [done|]. intros [_ Ht]%andb_true_iff. by apply IH in Ht.
Qed.

Lemma rstrip_lstrip_empty s :
  Str.rstrip (Str.lstrip s) = EmptyString <-> all_space s = true.
Proof.
  rewrite rstrip_empty.
  destruct (lstrip_decomp s) as (pre & Hs & Hpre & _).
  rewrite Hs at 2. rewrite all_space_append, Hpre. done.
Qed.

Lemma strip_empty s : Str.strip s = EmptyString <-> all_space s = true.
Proof. apply rstrip_lstrip_empty. Qed.

Lemma nonempty_strip s : Str.nonempty (Str.strip s) = negb (all_space s).
Proof.
  destruct (all_space s) eqn:Hs.
  - apply strip_empty in Hs. by rewrite Hs.
  - destruct (Str.strip s) eqn:Hst; [|done].
    apply strip_empty in Hst. congruence.
Qed.

(** The text stripped, in the text: whitespace on both sides, a visible
    character at both ends. *)
Lemma strip_decomp s :
  exists pre post,
    s = pre +:+ Str.strip s +:+ post
    /\ all_space pre = true /\ all_space post = true
    /\ (Str.strip s <> EmptyString ->
        (exists c, head_char (Str.strip s) = Some c /\ Str.isspace c = false)
        /\ (exists c, last_char (Str.strip s) = Some c /\ Str.isspace c = false)).
Proof.
  unfold Str.strip.
  destruct (lstrip_decomp s) as (pre & Hs & Hpre & Hhd).
  destruct (rstrip_decomp (Str.lstrip s)) as (post & Ht & Hpost & Hlast).
  exists pre, post. split; [by rewrite <- Ht|]. split; [done|]. split; [done|].
  intros Hne. split.
  - destruct (Str.rstrip (Str.lstrip s)) as [|c r] eqn:Hr; [done|].
    rewrite Ht in Hhd. simpl in Hhd. by exists c.
  - destruct (Str.rstrip (Str.lstrip s)) as [|c r]; [done|].
    destruct (last_char_is_Some c r) as [x Hx]. rewrite Hx in Hlast. by exists x.
Qed.

Lemma last_line_decomp u :
  exists before,
    u = before +:+ last_line u
    /\ has_break (last_line u) = false
    /\ (before = EmptyString
        \/ exists c, last_char before = Some c /\ Str.islinebreak c = true)
    /\ (has_break u = false -> before = EmptyString).
Proof.
  induction u as [|c u (before & Hu & Hnb & Hbefore & Hnone)]; simpl.
  - exists EmptyString. auto.
  - destruct (has_break u) eqn:Hbu.
    + exists (String c before). split; [simpl; by f_equal|]. split; [done|].
      split; [|by rewrite orb_true_r].
      right. destruct Hbefore as [->|(d & Hd & Hbr)].
      * simpl in Hu. congruence.
      * exists d. by rewrite last_char_cons, Hd.
    + destruct (Str.islinebreak c) eqn:Hc.
      * exists (String c EmptyString). split; [done|]. split; [done|].
        split; [|by rewrite orb_true_l]. right. by exists c.
      * exists EmptyString. simpl. rewrite Hc, Hbu. auto.
Qed.

Lemma splitlines_go_break fresh cur c s :
  Str.islinebreak c = true ->
  Str.splitlines_go fresh cur (String c s) =
  String.rev cur ::
    Str.splitlines_go true EmptyString
      (match s with
       | String d s' =>
           if bool_decide (c = "013"%char /\ d = "010"%char) then s' else s
       | EmptyString => s
       end).
Proof.
  intros Hc. simpl. rewrite Hc.
  destruct (decide (c = "013"%char)) as [->|Hne].
  - destruct s as [|d s']; [done|].
    destruct (decide (d = "010"%char)) as [->|Hd].
    + by rewrite bool_decide_eq_true_2.
    + rewrite bool_decide_eq_false_2 by (intros [_ ?]; done).
      destruct d as [[] [] [] [] [] [] [] []]; done.
  - assert (Hs : match s with
                 | String d s' =>
                     if bool_decide (c = "013"%char /\ d = "010"%char) then s' else s
                 | EmptyString => s
                 end = s).
    { destruct s as [|d s']; [done|].
      by rewrite bool_decide_eq_false_2 by (intros [? _]; done). }
    rewrite Hs.
    destruct c as [[] [] [] [] [] [] [] []]; try done; by destruct s.
Qed.

Lemma splitlines_go_nonbreak fresh cur c s :
  Str.islinebreak c = false ->
  Str.splitlines_go fresh cur (String c s) =
  Str.splitlines_go false (String c cur) s.
Proof. intros Hc. simpl. by rewrite Hc. Qed.

(** The last line of a text that does not end on a line boundary. *)
Lemma splitlines_go_last n u fresh cur :
  String.length u <= n ->
  match last_char u with
  | Some c => Str.islinebreak c = false
  | None => fresh = false
  end ->
  last (Str.splitlines_go fresh cur u)
  = Some (if has_break u then last_line u else String.rev cur +:+ u).
Proof.
  revert u fresh cur.
  induction n as [n IH] using lt_wf_ind. intros u fresh cur Hlen Hend.
  destruct u as [|c u].
  - simpl in *. subst fresh. by rewrite append_nil_r.
  - destruct (Str.islinebreak c) eqn:Hc.
    + rewrite splitlines_go_break by done.
      rewrite last_char_cons in Hend.
      destruct u as [|d u]; [simpl in Hend; congruence|].
      destruct (last_char_is_Some d u) as [x Hx]. rewrite Hx in Hend.
      rewrite last_cons.
      case_bool_decide as Hcrlf.
      * destruct Hcrlf as [-> ->].
        rewrite last_char_cons in Hx.
        destruct u as [|e u]; [simpl in Hx; by simplify_eq|].
        destruct (last_char_is_Some e u) as [y Hy]. rewrite Hy in Hx. simplify_eq.
        rewrite (IH (String.length (String e u))); [|simpl in *; lia|done|by rewrite Hy].
        simpl. by destruct (Str.islinebreak e || has_break u).
      * rewrite (IH (String.length (String d u))); [|simpl in *; lia|done|by rewrite Hx].
        simpl. rewrite Hc. simpl.
        by destruct (Str.islinebreak d || has_break u).
    + rewrite splitlines_go_nonbreak by done.
      rewrite (IH (String.length u)); [|simpl in *; lia|done|].
      * simpl. rewrite Hc. simpl.
        destruct (has_break u); [done|].
        by rewrite rev_cons, append_assoc.
      * rewrite last_char_cons in Hend. by destruct (last_char u).
Qed.

Lemma not_isspace_not_break c : Str.isspace c = false -> Str.islinebreak c = false.
Proof.
  intros Hc. destruct (Str.islinebreak c) eqn:Hb; [|done].
  apply islinebreak_isspace in Hb. congruence.
Qed.

Lemma head_char_append s1 s2 :
  s1 <> EmptyString -> head_char (s1 +:+ s2) = head_char s1.
Proof. by destruct s1. Qed.

Lemma all_space_head s c :
  head_char s = Some c -> Str.isspace c = false -> all_space s = false.
Proof. destruct s as [|d s]; [done|]. simpl. by intros [= ->] ->. Qed.

(** ** The installer: the error text *)

(** The last line of the stripped output, in the output itself. *)
Lemma fallback_last_visible output :
  all_space output = false ->
  exists line,
    last (Str.splitlines (Str.strip output)) = Some line
    /\ last_visible_line output line.
Proof.
  intros Hns.
  destruct (strip_decomp output) as (pre & post & Hout & Hpre & Hpost & Hends).
  assert (Hu : Str.strip output <> EmptyString).
  { intros ?%strip_empty. congruence. }
  destruct (Hends Hu) as [(h & Hh & Hhs) (l & Hl & Hls)]. clear Hends.
  destruct (last_line_decomp (Str.strip output))
    as (before & Hub & Hnb & Hbefore & Hnone).
  set (u := Str.strip output) in *.
  exists (last_line u). split.
  - unfold Str.splitlines.
    rewrite (splitlines_go_last (String.length u)); [|lia|].
    + destruct (has_break u); [done|].
      rewrite (Hnone eq_refl) in Hub. simpl in Hub. by rewrite <- Hub.
    + rewrite Hl. by apply not_isspace_not_break.
  - exists (pre +:+ before), post.
    split; [by rewrite append_assoc, <- (append_assoc before), <- Hub|].
    split; [done|]. split; [done|].
    assert (Hlast : last_char (last_line u) = Some l).
    { rewrite Hub, last_char_append in Hl.
      destruct (last_char (last_line u)) as [c|]; [done|].
      destruct Hbefore as [->|(c & Hc & Hbr)]; [done|].
      apply islinebreak_isspace in Hbr. congruence. }
    split; [by exists l|].
    destruct Hbefore as [->|(c & Hc & Hbr)].
    + left. split; [by rewrite append_nil_r|].
      exists h. simpl in Hub. by rewrite <- Hub.
    + right. split.
      * rewrite all_space_append, Hpre. simpl.
        apply (all_space_head _ h); [|done].
        rewrite Hub in Hh. rewrite head_char_append in Hh; [done|].
        by intros ->.
      * exists c. by rewrite last_char_append, Hc.
Qed.

Lemma extract_loop_find lines :
  extract_loop lines
  = (fun line => Str.take 120 (Str.strip line)) <$> find has_failure_keyword lines.
Proof.
  induction lines as [|line lines IH]; simpl; [done|].
  by destruct (has_failure_keyword line).
Qed.

(** C6, as the code has it.  The error text is the first line of the
    output that holds a failure keyword in lower case, stripped of the
    whitespace at both ends and then cut to 120 characters.  When no line
    holds one: for an output without a visible character it is the fixed
    text Unknown error; otherwise it is the last stretch of the output
    that holds a visible character, cut to 120 characters. *)
Theorem C6_extracted_error (output : string) :
  match find has_failure_keyword (Str.splitlines output) with
  | Some line =>
      _extract_winget_error output = Some (Str.take 120 (Str.strip line))
  | None =>
      if all_space output
      then _extract_winget_error output = Some "Unknown error"
      else exists line,
             last_visible_line output line
             /\ _extract_winget_error output = Some (Str.take 120 line)
  end.
Proof.
  unfold _extract_winget_error. rewrite extract_loop_find.
  destruct (find has_failure_keyword (Str.splitlines output)); [done|].
  simpl. rewrite nonempty_strip.
  destruct (all_space output) eqn:Hs; [done|]. simpl.
  destruct (fallback_last_visible output Hs) as (line & Hlast & Hvis).
  exists line. split; [done|]. by rewrite Hlast.
Qed.

(** The extraction never fails: the indexing of the last line is safe. *)
Lemma _extract_winget_error_total output : is_Some (_extract_winget_error output).
Proof.
  unfold _extract_winget_error. rewrite extract_loop_find.
  destruct (find has_failure_keyword (Str.splitlines output)); [by eexists|].
  simpl. rewrite nonempty_strip.
  destruct (all_space output) eqn:Hs; [by eexists|]. simpl.
  destruct (fallback_last_visible output Hs) as (line & -> & _). by eexists.
Qed.

Lemma take_length n s : String.length (Str.take n s) = Nat.min n (String.length s).
Proof.
  revert s. induction n as [|n IH]; intros [|c s]; simpl; try done.
  by rewrite IH.
Qed.

(** C6 as worded fails: the line is not cut as it stands, its leading
    whitespace goes first. *)
Lemma C6_line_is_stripped :
  Str.splitlines "  error: disk full" = ["  error: disk full"]
  /\ has_failure_keyword "  error: disk full" = true
  /\ _extract_winget_error "  error: disk full" = Some "error: disk full"
  /\ Str.take 120 "  error: disk full" <> "error: disk full".
Proof. repeat split; try (vm_compute; reflexivity). vm_compute. discriminate. Qed.

Example extract_fallback_ex :
  _extract_winget_error (String "a" (String "010" (String " " (String "b" (String " " (String "010" (String " " EmptyString)))))))
  = Some " b".
Proof. vm_compute. reflexivity. Qed.

Example extract_blank_ex : _extract_winget_error "   " = Some "Unknown error".
Proof. vm_compute. reflexivity. Qed.

(** ** The workers: cancellation and manual entries *)

Lemma turns_le w len n : turns w n len <= len.
Proof.
  revert n. induction len as [|len IH]; intros n; simpl; [done|].
  destruct (stop_poll w n); [lia|]. specialize (IH (S n)). lia.
Qed.


Lemma install_loop_items w apps total indices n dn :
  Forall (fun idx => is_Some (getitem apps idx)) indices ->
  install_loop w apps total n dn indices
  = (install_items w apps total n dn (take (turns w n (length indices)) indices),
     false).
Proof.
  intros Hvalid. revert n dn.
  induction Hvalid as [|idx rest [app Happ] _ IH]; intros n dn; simpl; [done|].
  destruct (stop_poll w n); [done|]. simpl.
  by rewrite Happ, IH.
Qed.

Lemma match_loop_items w apps total indices n :
  Forall (fun idx => is_Some (getitem apps idx)) indices ->
  match_loop w apps total n indices
  = (match_items w apps total n (take (turns w n (length indices)) indices), false).
Proof.
  intros Hvalid. revert n.
  induction Hvalid as [|idx rest [app Happ] _ IH]; intros n; simpl; [done|].
  destruct (stop_poll w n); [done|]. simpl.
  by rewrite Happ, IH.
Qed.

Lemma install_loop_trace w apps total indices n dn :
  (install_loop w apps total n dn indices).1
  = install_items w apps total n dn (take (turns w n (length indices)) indices).
Proof.
  revert n dn. induction indices as [|idx rest IH]; intros n dn; simpl; [done|].
  destruct (stop_poll w n); [done|]. simpl.
  destruct (getitem apps idx) as [app|]; [|done].
  specialize (IH (S n) (dn + 1)).
  destruct (install_loop w apps total (S n) (dn + 1) rest) as [tr raised].
  simpl in *. by rewrite IH.
Qed.

Lemma install_items_app w apps total n dn l1 l2 :
  Forall (fun idx => is_Some (getitem apps idx)) l1 ->
  install_items w apps total n dn (l1 ++ l2)
  = install_items w apps total n dn l1
    ++ install_items w apps total (n + length l1) (dn + length l1) l2.
Proof.
  intros Hvalid. revert n dn.
  induction Hvalid as [|idx rest [app Happ] _ IH]; intros n dn; simpl.
  - by rewrite !Nat.add_0_r.
  - rewrite Happ, IH, <- app_assoc.
    by replace (S n + length rest) with (n + S (length rest)) by lia;
       replace (dn + 1 + length rest) with (dn + S (length rest)) by lia.
Qed.

Lemma install_items_cons w apps total n dn idx rest app :
  getitem apps idx = Some app ->
  install_items w apps total n dn (idx :: rest)
  = install_item w total n dn idx app
    ++ install_items w apps total (S n) (dn + 1) rest.
Proof. intros Happ. cbn [install_items]. by rewrite Happ. Qed.

(** The events of a trace come from the turn of some index. *)
Lemma elem_of_install_items w apps total n dn indices e :
  e ∈ install_items w apps total n dn indices ->
  exists n' dn' idx app,
    idx ∈ indices /\ getitem apps idx = Some app
    /\ e ∈ install_item w total n' dn' idx app.
Proof.
  revert n dn. induction indices as [|idx rest IH]; intros n dn; simpl.
  - by intros ?%elem_of_nil.
  - destruct (getitem apps idx) as [app|] eqn:Happ; [|by intros ?%elem_of_nil].
    intros [He|He]%elem_of_app.
    + exists n, dn, idx, app. split; [by left|done].
    + destruct (IH _ _ He) as (n' & dn' & idx' & app' & Hin & Hget & He').
      exists n', dn', idx', app'. split; [by right|done].
Qed.

Lemma manual_entry_test app :
  negb (bool_decide (winget_status app = "found")) || negb (Str.nonempty (winget_id app))
  = bool_decide (manual_entry app).
Proof.
  unfold manual_entry.
  destruct (winget_id app) as [|c s] eqn:Hid; simpl.
  - rewrite orb_true_r. symmetry. apply bool_decide_eq_true_2. by right.
  - rewrite orb_false_r. case_bool_decide as Hs; simpl; symmetry.
    + apply bool_decide_eq_false_2. by intros [?|?].
    + apply bool_decide_eq_true_2. by left.
Qed.

Lemma install_item_manual w total n dn idx app :
  manual_entry app ->
  install_item w total n dn idx app
  = [ Emit (app_started idx (name app));
      Emit (app_finished idx "manual" "No Winget package available");
      Emit (overall_progress (dn + 1) total) ].
Proof.
  intros Hm. unfold install_item.
  by rewrite manual_entry_test, bool_decide_eq_true_2.
Qed.

(** The [try] statement leaves log lines only, and never the status
    manual. *)
Lemma install_attempt_shape w n app :
  Forall (fun e => exists text, e = Emit (log_message text)) (install_attempt w n app).1
  /\ ((install_attempt w n app).2.1 = "success"
      \/ (install_attempt w n app).2.1 = "failed").
Proof.
  unfold install_attempt.
  destruct (subprocess_run w n (install_command (winget_id app)))
    as [returncode stdout stderr| |msg]; simpl.
  - case_bool_decide; simpl.
    + split; [|by left]. repeat constructor. by eexists.
    + destruct (_extract_winget_error (stdout +:+ stderr)); simpl.
      * split; [|by right]. repeat constructor. by eexists.
      * split; [constructor|by right].
  - split; [|by right]. repeat constructor. by eexists.
  - split; [constructor|by right].
Qed.

Lemma install_item_installed w total n dn idx app :
  ~ manual_entry app ->
  exists logs status err,
    install_item w total n dn idx app
    = [ Emit (app_started idx (name app));
        Emit (log_message ("[" +:+ _ts w n 0 +:+ "] Installing: " +:+ name app
                           +:+ " (" +:+ winget_id app +:+ ")"));
        Run idx (install_command (winget_id app)) ]
      ++ logs
      ++ [ Emit (app_finished idx status err);
           Emit (overall_progress (dn + 1) total) ]
    /\ Forall (fun e => exists text, e = Emit (log_message text)) logs
    /\ (status = "success" \/ status = "failed").
Proof.
  intros Hm. unfold install_item.
  rewrite manual_entry_test, bool_decide_eq_false_2 by done.
  pose proof (install_attempt_shape w n app) as [Hlogs Hstatus].
  destruct (install_attempt w n app) as [logs [status err]]. simpl in *.
  by exists logs, status, err.
Qed.

Lemma install_item_finished_manual w total n dn idx app idx' err :
  Emit (app_finished idx' "manual" err) ∈ install_item w total n dn idx app ->
  idx' = idx /\ manual_entry app.
Proof.
  destruct (decide (manual_entry app)) as [Hm|Hm].
  - rewrite (install_item_manual _ _ _ _ _ _ Hm), !elem_of_cons, elem_of_nil.
    intros [?|[?|[?|[]]]]; by simplify_eq.
  - destruct (install_item_installed w total n dn idx app Hm)
      as (logs & status & err' & -> & Hlogs & Hstatus).
    rewrite !elem_of_app, !elem_of_cons, !elem_of_nil.
    intros [[?|[?|[?|[]]]]|[Hin|[?|[?|[]]]]]; simplify_eq.
    + rewrite Forall_forall in Hlogs. by destruct (Hlogs _ Hin).
    + by destruct Hstatus.
Qed.

Lemma install_item_run w total n dn idx app idx' args :
  Run idx' args ∈ install_item w total n dn idx app ->
  idx' = idx /\ ~ manual_entry app /\ args = install_command (winget_id app).
Proof.
  destruct (decide (manual_entry app)) as [Hm|Hm].
  - rewrite (install_item_manual _ _ _ _ _ _ Hm), !elem_of_cons, elem_of_nil.
    intros [?|[?|[?|[]]]]; by simplify_eq.
  - destruct (install_item_installed w total n dn idx app Hm)
      as (logs & status & err' & -> & Hlogs & Hstatus).
    rewrite !elem_of_app, !elem_of_cons, !elem_of_nil.
    intros [[?|[?|[?|[]]]]|[Hin|[?|[?|[]]]]]; simplify_eq; [done|].
    rewrite Forall_forall in Hlogs. by destruct (Hlogs _ Hin).
Qed.

(** *** The install status the main window records *)

Lemma position_lt_getitem {A} (l : list A) idx x :
  getitem l idx = Some x ->
  exists p, position (length l) idx = Some p /\ l !! p = Some x /\ p < length l.
Proof.
  unfold getitem. destruct (position (length l) idx) as [p|]; [|done].
  intros Hp. exists p. split; [done|]. split; [done|]. by eapply lookup_lt_Some.
Qed.

Lemma position_below len idx p :
  position len idx = Some p -> p < len -> (idx <? Z.of_nat len)%Z = true.
Proof.
  unfold position. intros Hpos Hp. apply Z.ltb_lt.
  destruct (0 <=? idx)%Z eqn:H0.
  - apply Z.leb_le in H0. simplify_eq. lia.
  - apply Z.leb_gt in H0. lia.
Qed.

Lemma update_at_length idx status error st :
  length (update_at idx status error st) = length st.
Proof.
  unfold update_at. destruct (idx <? _)%Z; [|done].
  destruct (position (length st) idx); [|done]. apply length_alter.
Qed.

Lemma update_at_lookup_eq idx status error st p a :
  position (length st) idx = Some p -> st !! p = Some a ->
  update_at idx status error st !! p = Some (update_status status error a).
Proof.
  intros Hpos Ha. unfold update_at.
  rewrite (position_below _ _ _ Hpos) by by eapply lookup_lt_Some.
  by rewrite Hpos, list_lookup_alter_eq, Ha.
Qed.

Lemma update_at_lookup_ne idx status error st p :
  position (length st) idx <> Some p ->
  update_at idx status error st !! p = st !! p.
Proof.
  intros Hpos. unfold update_at. destruct (idx <? _)%Z; [|done].
  destruct (position (length st) idx) as [q|]; [|done].
  apply list_lookup_alter_ne. congruence.
Qed.

Lemma after_signals_app tr1 tr2 st :
  after_signals (tr1 ++ tr2) st = after_signals tr2 (after_signals tr1 st).
Proof. apply fold_left_app. Qed.

Lemma after_signals_logs logs st :
  Forall (fun e => exists text, e = Emit (log_message text)) logs ->
  after_signals logs st = st.
Proof.
  intros Hlogs. revert st.
  induction Hlogs as [|e logs [text ->] _ IH]; intros st; [done|]. apply IH.
Qed.

(** The entries after the signals of one turn: the record of the index
    has the status of its finished signal, the others are as before. *)
Lemma after_install_item w total n dn idx app st :
  exists status error,
    after_signals (install_item w total n dn idx app) st
    = update_at idx status error (update_at idx "installing" EmptyString st)
    /\ (manual_entry app -> status = "manual")
    /\ (~ manual_entry app -> status = "success" \/ status = "failed").
Proof.
  destruct (decide (manual_entry app)) as [Hm|Hm].
  - exists "manual", "No Winget package available".
    rewrite install_item_manual by done. done.
  - destruct (install_item_installed w total n dn idx app Hm)
      as (logs & status & err & -> & Hlogs & Hstatus).
    exists status, err. split; [|done].
    rewrite !after_signals_app, (after_signals_logs logs) by done. done.
Qed.

Lemma after_signals_length tr st : length (after_signals tr st) = length st.
Proof.
  revert st. induction tr as [|e tr IH]; intros st; [done|].
  cbn [after_signals fold_left]. fold (after_signals tr (on_install_signal st e)).
  rewrite IH. destruct e as [[]|]; cbn [on_install_signal]; try done;
    apply update_at_length.
Qed.

(** The indices the loop goes through before one is out of range. *)
Lemma install_items_valid_prefix w apps total n dn l :
  exists l',
    Forall (fun idx => is_Some (getitem apps idx)) l'
    /\ install_items w apps total n dn l = install_items w apps total n dn l'.
Proof.
  revert n dn. induction l as [|idx l IH]; intros n dn.
  - by exists [].
  - destruct (getitem apps idx) as [app|] eqn:Happ.
    + destruct (IH (S n) (dn + 1)) as (l' & Hvalid & Heq).
      exists (idx :: l'). split; [constructor; [by eexists|done]|].
      by rewrite !(install_items_cons _ _ _ _ _ _ _ _ Happ), Heq.
    + exists []. split; [constructor|]. cbn [install_items]. by rewrite Happ.
Qed.

(** Once an index of an installable entry has had its turn, the status
    recorded at its position is success or failed. *)
Lemma after_install_items_status w apps total l n dn st p app :
  Forall (fun idx => is_Some (getitem apps idx)) l ->
  length st = length apps ->
  apps !! p = Some app -> ~ manual_entry app ->
  (exists idx, idx ∈ l /\ position (length apps) idx = Some p) ->
  forall a',
    after_signals (install_items w apps total n dn l) st !! p = Some a' ->
    install_status a' = "success" \/ install_status a' = "failed".
Proof.
  intros Hvalid Hlen Hp Hm. revert n dn.
  induction l as [|idx l IH] using rev_ind; intros n dn (idx0 & Hin & Hpos0) a'.
  { by apply elem_of_nil in Hin. }
  apply Forall_app in Hvalid as [Hvalid [[app' Happ'] _]%Forall_cons].
  rewrite install_items_app by done.
  rewrite (install_items_cons _ _ _ _ _ _ [] _ Happ').
  cbn [install_items]. rewrite app_nil_r, !after_signals_app.
  set (st' := after_signals (install_items w apps total n dn l) st).
  assert (Hlen' : length st' = length apps)
    by (unfold st'; by rewrite after_signals_length).
  destruct (after_install_item w total (n + length l) (dn + length l) idx app' st')
    as (status & err & -> & Hman & Hinst).
  destruct (decide (position (length apps) idx = Some p)) as [Hpos|Hpos].
  - apply position_lt_getitem in Happ' as (q & Hq & Hq' & _).
    assert (q = p) as -> by congruence. assert (app' = app) as -> by congruence.
    assert (is_Some (st' !! p)) as [a Ha].
    { apply lookup_lt_is_Some. rewrite Hlen'. by eapply lookup_lt_Some. }
    rewrite (update_at_lookup_eq _ _ _ _ p (update_status "installing" EmptyString a)).
    + intros [= <-]. simpl. by apply Hinst.
    + by rewrite update_at_length, Hlen'.
    + apply update_at_lookup_eq; [by rewrite Hlen'|done].
  - rewrite !update_at_lookup_ne by (by rewrite ?update_at_length, Hlen').
    apply (IH Hvalid). exists idx0. split; [|done].
    apply elem_of_app in Hin as [Hin|Hin%list_elem_of_singleton]; [done|].
    by subst.
Qed.

Lemma InstallWorker_run_ready w apps indices :
  is_Some (_log_path w) ->
  InstallWorker_run w apps indices
  = (let '(tr, raised) := install_loop w apps (length indices) 0 0 indices in
     if raised then (tr, true) else (tr ++ [Emit all_done], false)).
Proof. intros [log_path Hlog]. unfold InstallWorker_run. by rewrite Hlog. Qed.

Lemma InstallWorker_run_no_log w apps indices :
  _log_path w = None -> InstallWorker_run w apps indices = ([], false).
Proof. intros Hlog. unfold InstallWorker_run. by rewrite Hlog. Qed.

Lemma InstallWorker_run_trace w apps indices :
  is_Some (_log_path w) ->
  (InstallWorker_run w apps indices).1
  = install_items w apps (length indices) 0 0
      (take (turns w 0 (length indices)) indices)
    ++ (if (InstallWorker_run w apps indices).2 then [] else [Emit all_done]).
Proof.
  intros Hlog. rewrite InstallWorker_run_ready by done.
  pose proof (install_loop_trace w apps (length indices) indices 0 0) as Htr.
  destruct (install_loop w apps (length indices) 0 0 indices) as [tr raised].
  simpl in Htr. subst tr. destruct raised; simpl; [by rewrite app_nil_r|done].
Qed.

(** An event of a run is an event of one of its turns, or the completion
    signal. *)
Lemma InstallWorker_run_events w apps indices e :
  e ∈ (InstallWorker_run w apps indices).1 ->
  e ∈ install_items w apps (length indices) 0 0
        (take (turns w 0 (length indices)) indices)
  \/ e = Emit all_done.
Proof.
  destruct (_log_path w) as [log_path|] eqn:Hlog.
  - rewrite InstallWorker_run_trace by by eexists.
    intros [Hin|Hin]%elem_of_app; [by left|right].
    destruct (InstallWorker_run w apps indices).2;
      [by apply elem_of_nil in Hin|by apply list_elem_of_singleton in Hin].
  - rewrite InstallWorker_run_no_log by done. by intros ?%elem_of_nil.
Qed.

Lemma getitem_inj {A} (l : list A) i x y :
  getitem l i = Some x -> getitem l i = Some y -> x = y.
Proof. congruence. Qed.

(** C7.  When the worker reaches an index whose entry is not found or has
    no identifier (its run begins by setting up the session log, and it
    reaches an index only with the log set up), the trace holds, one
    after the other, the started signal of the index, its finished signal
    with status manual and the fixed message, and the progress signal; no
    command is run for that index.  Whatever the run, an index with a
    finished signal of status manual has no command run for it; and once
    the main window has handled the signals of the run, an entry whose
    install status is manual is at a position for which the run ran no
    command. *)
Theorem C7_manual_entry_not_installed
    (w : world) (apps : list AppRecord) (indices : list Z)
    (n : nat) (idx : Z) (app : AppRecord) :
  indices !! n = Some idx ->
  n < turns w 0 (length indices) ->
  Forall (fun i => is_Some (getitem apps i)) (take n indices) ->
  getitem apps idx = Some app ->
  manual_entry app ->
  let tr := (InstallWorker_run w apps indices).1 in
  (is_Some (_log_path w) ->
   exists pre post,
     tr = pre
          ++ [ Emit (app_started idx (name app));
               Emit (app_finished idx "manual" "No Winget package available");
               Emit (overall_progress (n + 1) (length indices)) ]
          ++ post)
  /\ (forall args, Run idx args ∉ tr)
  /\ (forall idx' err, Emit (app_finished idx' "manual" err) ∈ tr ->
      forall args, Run idx' args ∉ tr)
  /\ (forall p a', after_signals tr apps !! p = Some a' ->
      install_status a' = "manual" ->
      forall idx' args, Run idx' args ∈ tr ->
        position (length apps) idx' <> Some p).
Proof.
  intros Hidx Hn Hvalid Happ Hm tr.
  assert (Hnever : forall idx' app', getitem apps idx' = Some app' ->
            manual_entry app' -> forall args, Run idx' args ∉ tr).
  { intros idx' app' Hget' Hm' args Hin. unfold tr in Hin.
    apply InstallWorker_run_events in Hin as [Hin|Hin]; [|done].
    apply elem_of_install_items in Hin
      as (n' & dn' & idx2 & app2 & _ & Hget2 & Hin).
    apply install_item_run in Hin as (-> & Hnm & _).
    by rewrite (getitem_inj _ _ _ _ Hget' Hget2) in Hm'. }
  split; [|split; [|split]].
  - intros Hlog. unfold tr. rewrite InstallWorker_run_trace by done.
    set (m := turns w 0 (length indices)) in *.
    assert (Hlen : n < length indices) by by eapply lookup_lt_Some.
    assert (Hmid : take m indices
                   = take n indices ++ idx :: drop (S n) (take m indices)).
    { rewrite <- (take_drop_middle (take m indices) n idx) at 1.
      - by rewrite take_take, Nat.min_l by lia.
      - by rewrite lookup_take_lt. }
    rewrite Hmid, install_items_app by done.
    rewrite length_take, Nat.min_l by lia.
    rewrite (install_items_cons _ _ _ _ _ _ _ _ Happ), install_item_manual by done.
    exists (install_items w apps (length indices) 0 0 (take n indices)),
      (install_items w apps (length indices) (S n) (n + 1)
         (drop (S n) (take m indices))
       ++ (if (InstallWorker_run w apps indices).2 then [] else [Emit all_done])).
    by rewrite <- !app_assoc.
  - by apply (Hnever idx app).
  - intros idx' err Hin. unfold tr in Hin.
    apply InstallWorker_run_events in Hin as [Hin|Hin]; [|done].
    apply elem_of_install_items in Hin
      as (n' & dn' & idx1 & app1 & _ & Hget1 & Hin).
    apply install_item_finished_manual in Hin as [-> Hm1].
    by apply (Hnever idx1 app1).
  - intros p a' Ha' Hstatus idx' args Hin Hpos. unfold tr in Ha', Hin.
    destruct (_log_path w) as [log_path|] eqn:Hlog;
      [|rewrite InstallWorker_run_no_log in Hin by done;
        by apply elem_of_nil in Hin].
    rewrite InstallWorker_run_trace in Ha', Hin by by eexists.
    destruct (install_items_valid_prefix w apps (length indices) 0 0
                (take (turns w 0 (length indices)) indices))
      as (l' & Hvalid' & Heq).
    rewrite Heq in Ha', Hin.
    assert (Hin' : Run idx' args ∈ install_items w apps (length indices) 0 0 l').
    { apply elem_of_app in Hin as [Hin|Hin]; [done|].
      destruct (InstallWorker_run w apps indices).2;
        [by apply elem_of_nil in Hin|].
      by apply list_elem_of_singleton in Hin. }
    assert (Ha : after_signals (install_items w apps (length indices) 0 0 l') apps
                 !! p = Some a').
    { rewrite after_signals_app in Ha'.
      by destruct (InstallWorker_run w apps indices).2. }
    apply elem_of_install_items in Hin'
      as (n' & dn' & idx2 & app2 & Hidx2 & Hget2 & Hin').
    apply install_item_run in Hin' as (-> & Hnm & _).
    destruct (position_lt_getitem _ _ _ Hget2) as (q & Hq & Hq' & _).
    assert (q = p) as -> by congruence.
    destruct (after_install_items_status w apps (length indices) l' 0 0 apps
                p app2 Hvalid' eq_refl Hq' Hnm
                (ex_intro _ idx2 (conj Hidx2 Hpos)) a' Ha) as [Hs|Hs];
      rewrite Hs in Hstatus; discriminate.
Qed.

Lemma C7_manual_entry_not_installed_witness :
  let tr := (InstallWorker_run calm_world foo_bar [0; 1]%Z).1 in
  (exists pre post,
     tr = pre
          ++ [ Emit (app_started 1 "Bar");
               Emit (app_finished 1 "manual" "No Winget package available");
               Emit (overall_progress 2 2) ]
          ++ post)
  /\ (forall args, Run 1 args ∉ tr)
  /\ (forall idx' err, Emit (app_finished idx' "manual" err) ∈ tr ->
      forall args, Run idx' args ∉ tr)
  /\ (forall p a', after_signals tr foo_bar !! p = Some a' ->
      install_status a' = "manual" ->
      forall idx' args, Run idx' args ∈ tr -> position 2 idx' <> Some p).
Proof.
  destruct (C7_manual_entry_not_installed calm_world foo_bar [0; 1]%Z 1 1%Z
              (mkAppRecord "Bar" EmptyString EmptyString EmptyString EmptyString
                 EmptyString EmptyString "not_found" EmptyString EmptyString))
    as (Hshape & Hrest).
  - reflexivity.
  - vm_compute. lia.
  - repeat constructor. vm_compute. by eexists.
  - reflexivity.
  - left. discriminate.
  - split; [|exact Hrest]. apply Hshape. by eexists.
Defined.

Example install_scenario :
  InstallWorker_run calm_world foo_bar [0; 1]%Z
  = ([ Emit (app_started 0 "Foo");
       Emit (log_message "[12:00:00] Installing: Foo (Vendor.Foo)");
       Run 0 (install_command "Vendor.Foo");
       Emit (log_message "[12:00:00] ✓ Success: Foo");
       Emit (app_finished 0 "success" EmptyString);
       Emit (overall_progress 1 2);
       Emit (app_started 1 "Bar");
       Emit (app_finished 1 "manual" "No Winget package available");
       Emit (overall_progress 2 2);
       Emit all_done ], false).
Proof. vm_compute. reflexivity. Qed.

Example install_scenario_statuses :
  map (fun a => (name a, install_status a, install_error a))
      (after_signals (InstallWorker_run calm_world foo_bar [0; 1]%Z).1 foo_bar)
  = [ ("Foo", "success", EmptyString);
      ("Bar", "manual", "No Winget package available") ].
Proof. vm_compute. reflexivity. Qed.






(** The events of one turn of the matcher. *)
Lemma elem_of_match_item w total n idx app e :
  e ∈ match_item w total n idx app ->
  (exists args, e = Run idx args)
  \/ (exists wid status, e = Emit (app_matched idx wid status))
  \/ e = Emit (progress (n + 1) total).
Proof.
  unfold match_item. case_bool_decide.
  - intros ->%list_elem_of_singleton. by right; right.
  - destruct (_search_winget _ (name app)) as [wid status].
    rewrite elem_of_app, !elem_of_cons, elem_of_nil.
    intros [Hin|[->|[->|[]]]].
    + apply list_elem_of_fmap in Hin as (args & -> & _). left. by exists args.
    + right; left. by exists wid, status.
    + by right; right.
Qed.

Lemma elem_of_match_items w apps total n indices e :
  e ∈ match_items w apps total n indices ->
  exists n' idx app,
    idx ∈ indices /\ getitem apps idx = Some app
    /\ e ∈ match_item w total n' idx app.
Proof.
  revert n. induction indices as [|idx rest IH]; intros n; simpl.
  - by intros ?%elem_of_nil.
  - destruct (getitem apps idx) as [app|] eqn:Happ; [|by intros ?%elem_of_nil].
    intros [He|He]%elem_of_app.
    + exists n, idx, app. split; [by left|done].
    + destruct (IH _ He) as (n' & idx' & app' & Hin & Hget & He').
      exists n', idx', app'. split; [by right|done].
Qed.




Example install_cancelled :
  InstallWorker_run stopped_world foo_bar [0; 1]%Z
  = ([ Emit (app_started 0 "Foo");
       Emit (log_message "[12:00:00] Installing: Foo (Vendor.Foo)");
       Run 0 (install_command "Vendor.Foo");
       Emit (log_message "[12:00:00] ✓ Success: Foo");
       Emit (app_finished 0 "success" EmptyString);
       Emit (overall_progress 1 2);
       Emit all_done ], false).
Proof. vm_compute. reflexivity. Qed.

Example match_cancelled :
  WingetMatcher_run stopped_world foo_bar [1; 0]%Z
  = ([ Run 1 (exact_query "Bar"); Run 1 (fuzzy_query "Bar");
       Emit (app_matched 1 EmptyString "not_found");
       Emit (progress 1 2);
       Emit finished ], false).
Proof. vm_compute. reflexivity. Qed.

(** ** The codec: export, then import *)

Lemma from_dict_to_dict (a : AppRecord) :
  from_dict (to_dict a)
  = inr (mkAppRecord (JStr (name a)) (JStr (publisher a)) (JStr (version a))
           (JStr (uninstall_string a)) (JStr (install_location a))
           (JStr (source a)) (JStr (winget_id a)) (JStr (winget_status a))
           (JStr (install_status a)) (JStr (install_error a))).
Proof. destruct a. reflexivity. Qed.

Lemma from_dicts_to_dict (E : list AppRecord) :
  from_dicts (map to_dict E)
  = inr (map (fun a =>
           mkAppRecord (JStr (name a)) (JStr (publisher a)) (JStr (version a))
             (JStr (uninstall_string a)) (JStr (install_location a))
             (JStr (source a)) (JStr (winget_id a)) (JStr (winget_status a))
             (JStr (install_status a)) (JStr (install_error a))) E).
Proof.
  induction E as [|a E IH]; [done|].
  cbn [map from_dicts]. by rewrite from_dict_to_dict, IH.
Qed.

Lemma dict_get_apps_exported v1 v2 v :
  dict_get "apps" [("appvault_version", v1); ("exported_at", v2); ("apps", v)]
  = Some v.
Proof. reflexivity. Qed.

(** C1.  Importing the file written by the export of [E] gives, with no
    error, the records of [E] in their order, each field as the JSON
    string of the exported one, but for the install status and the install
    error, which are empty. *)
Theorem C1_export_import_roundtrip
    (E : list AppRecord) (filepath : string) (now : datetime) (fs : filesystem) :
  import_template filepath (export_template E filepath now fs)
  = (map imported E, EmptyString)
  /\ length (import_template filepath (export_template E filepath now fs)).1
     = length E
  /\ forall i a, E !! i = Some a ->
       exists b,
         (import_template filepath (export_template E filepath now fs)).1 !! i = Some b
         /\ name b = JStr (name a) /\ publisher b = JStr (publisher a)
         /\ version b = JStr (version a)
         /\ uninstall_string b = JStr (uninstall_string a)
         /\ install_location b = JStr (install_location a)
         /\ source b = JStr (source a)
         /\ winget_id b = JStr (winget_id a)
         /\ winget_status b = JStr (winget_status a)
         /\ install_status b = JStr EmptyString
         /\ install_error b = JStr EmptyString.
Proof.
  assert (Heq : import_template filepath (export_template E filepath now fs)
                = (map imported E, EmptyString)).
  { unfold import_template, import_body, export_template, load_json.
    rewrite lookup_insert_eq, dict_get_apps_exported.
    cbn [default from_option id py_iter]. rewrite from_dicts_to_dict.
    by rewrite map_map. }
  rewrite Heq. cbn [fst]. split; [done|]. split; [by rewrite length_map|].
  intros i a Hi. exists (imported a).
  split; [|done].
  change (map imported E) with (imported <$> E).
  by rewrite list_lookup_fmap, Hi.
Qed.

Example roundtrip_ex :
  import_template "t.json" (export_template foo_bar "t.json" noon ∅)
  = ([ mkAppRecord (JStr "Foo") (JStr EmptyString) (JStr EmptyString)
         (JStr EmptyString) (JStr EmptyString) (JStr EmptyString)
         (JStr "Vendor.Foo") (JStr "found") (JStr EmptyString) (JStr EmptyString);
       mkAppRecord (JStr "Bar") (JStr EmptyString) (JStr EmptyString)
         (JStr EmptyString) (JStr EmptyString) (JStr EmptyString)
         (JStr EmptyString) (JStr "not_found") (JStr EmptyString) (JStr EmptyString) ],
     EmptyString).
Proof. vm_compute. reflexivity. Qed.

(** ** The codec: failures of the import *)

Lemma append_nonempty s1 s2 :
  Str.nonempty s2 = true -> Str.nonempty (s1 +:+ s2) = true.
Proof. destruct s1; [done|]. by intros _. Qed.

Lemma str_exn_nonempty e : Str.nonempty (str_exn e) = true.
Proof. destruct e; try done. cbn [str_exn]. by apply append_nonempty. Qed.

Lemma nonempty_true s : Str.nonempty s = true <-> s <> EmptyString.
Proof. by destruct s. Qed.

Lemma from_dicts_fail ds d e :
  d ∈ ds -> from_dict d = inl e -> exists e', from_dicts ds = inl e'.
Proof.
  intros Hin Hd. induction Hin as [d ds|d d' ds Hin IH]; cbn [from_dicts].
  - rewrite Hd. by eexists.
  - destruct (from_dict d'); [by eexists|].
    destruct (IH Hd) as [e' ->]. by eexists.
Qed.

(** C8.  The import either succeeds, with an empty error text, or gives
    the empty list with a non-empty error text, and then [_do_import]
    leaves the store of the window as it was.  A file that cannot be read
    or decoded fails the import, and so does a single entry object that
    [from_dict] rejects, whatever the entries before it. *)
Theorem C8_import_all_or_nothing (filepath : string) (fs : filesystem) :
  match import_body filepath fs with
  | inl e =>
      import_template filepath fs = ([], str_exn e)
      /\ str_exn e <> EmptyString
      /\ forall _apps, _do_import filepath fs _apps = _apps
  | inr apps => import_template filepath fs = (apps, EmptyString)
  end
  /\ (forall e, load_json filepath fs = inl e -> import_body filepath fs = inl e)
  /\ (forall top ds d e,
        load_json filepath fs = inr (JDict top) ->
        py_iter (default (JList []) (dict_get "apps" top)) = inr ds ->
        d ∈ ds -> from_dict d = inl e ->
        exists e', import_body filepath fs = inl e').
Proof.
  split; [|split].
  - unfold _do_import, import_template.
    destruct (import_body filepath fs) as [e|apps]; [|done].
    split; [done|]. split; [apply nonempty_true, str_exn_nonempty|].
    intros _apps. destruct (negb (Str.nonempty filepath)); [done|].
    by rewrite str_exn_nonempty.
  - intros e He. unfold import_body. by rewrite He.
  - intros top ds d e Hload Hiter Hin Hd. unfold import_body.
    rewrite Hload, Hiter.
    destruct (from_dicts_fail ds d e Hin Hd) as [e' ->]. by eexists.
Qed.

Example import_missing_file :
  import_template "nowhere.json" ∅
  = ([], "[Errno 2] No such file or directory: 'nowhere.json'").
Proof. vm_compute. reflexivity. Qed.

Example import_script_file :
  import_template "install.ps1" (export_ps1 foo_bar "install.ps1" noon ∅).1
  = ([], "Expecting value: line 1 column 1 (char 0)").
Proof. vm_compute. reflexivity. Qed.

Example import_list_document :
  import_template "t.json" {[ "t.json" := Json (JList []) ]}
  = ([], "'list' object has no attribute 'get'").
Proof. vm_compute. reflexivity. Qed.

Example import_nameless_entry :
  import_template "t.json" {[ "t.json" := Json nameless_doc ]}
  = ([], "AppRecord.__init__() missing 1 required positional argument: 'name'").
Proof. vm_compute. reflexivity. Qed.

(** ** The codec: the fields of an imported entry *)

Lemma find_filter_fields (d : list (string * json)) :
  find (fun kv => negb (bool_decide (kv.1 ∈ dataclass_fields)))
       (filter (fun kv => kv.1 ∈ dataclass_fields) d) = None.
Proof.
  induction d as [|[k v] d IH]; [done|].
  rewrite filter_cons. case_decide as Hk; [|done].
  cbn [find fst]. by rewrite bool_decide_eq_true_2.
Qed.

Lemma dict_get_filter_fields k (d : list (string * json)) :
  k ∈ dataclass_fields ->
  dict_get k (filter (fun kv => kv.1 ∈ dataclass_fields) d) = dict_get k d.
Proof.
  intros Hk. induction d as [|[k' v] d IH]; [done|].
  rewrite filter_cons. case_decide as Hk'; cbn [dict_get].
  - by rewrite IH.
  - rewrite IH. simpl in Hk'. rewrite bool_decide_eq_false_2; [done|].
    by intros ->.
Qed.

Lemma field_in_dataclass k :
  bool_decide (k ∈ dataclass_fields) = true -> k ∈ dataclass_fields.
Proof. apply bool_decide_eq_true_1. Qed.

(** What [from_dict] makes of an entry object: keys that are not fields
    play no part, a missing name is an error, any other missing field
    takes its default. *)
Lemma from_dict_spec (d : list (string * json)) :
  from_dict (JDict d)
  = match dict_get "name" d with
    | None => inl TypeError_missing_name
    | Some n => inr (record_of n d)
    end.
Proof.
  unfold from_dict, AppRecord_init, record_of.
  rewrite find_filter_fields.
  rewrite !dict_get_filter_fields by (apply field_in_dataclass; reflexivity).
  done.
Qed.

Lemma from_dict_ignores_key d1 d2 k v :
  k ∉ dataclass_fields ->
  from_dict (JDict (d1 ++ (k, v) :: d2)) = from_dict (JDict (d1 ++ d2)).
Proof.
  intros Hk. unfold from_dict.
  by rewrite !filter_app, filter_cons_False.
Qed.

Lemma from_dicts_named ds :
  Forall (fun d => is_Some (dict_get "name" d)) ds ->
  from_dicts (map JDict ds)
  = inr (map (fun d => record_of (default JNull (dict_get "name" d)) d) ds).
Proof.
  induction 1 as [|d ds [n Hn] _ IH]; [done|].
  cbn [map from_dicts]. by rewrite from_dict_spec, Hn, IH.
Qed.

Lemma from_dicts_nameless ds :
  Exists (fun d => dict_get "name" d = None) ds ->
  from_dicts (map JDict ds) = inl TypeError_missing_name.
Proof.
  induction 1 as [d ds Hn|d ds _ IH]; cbn [map from_dicts];
    rewrite from_dict_spec.
  - by rewrite Hn.
  - destruct (dict_get "name" d); [|done]. by rewrite IH.
Qed.

(** C10, as the code has it.  For a document whose apps member is a list
    of objects: a key of an entry that names no field changes nothing; an
    entry with a name becomes the record of its field values, any field
    left out other than the name taking the default of the dataclass (the
    empty text, but unknown for the winget status), with the install
    status and the install error emptied; and an entry without a name
    fails the whole import with an empty list and the error text of the
    missing argument. *)
Theorem C10_import_entry_fields
    (filepath : string) (fs : filesystem)
    (top : list (string * json)) (ds : list (list (string * json))) :
  load_json filepath fs = inr (JDict top) ->
  dict_get "apps" top = Some (JList (map JDict ds)) ->
  (forall d1 d2 k v, k ∉ dataclass_fields ->
     from_dict (JDict (d1 ++ (k, v) :: d2)) = from_dict (JDict (d1 ++ d2)))
  /\ (forall d n, dict_get "name" d = Some n ->
        from_dict (JDict d) = inr (record_of n d))
  /\ (Forall (fun d => is_Some (dict_get "name" d)) ds ->
      import_template filepath fs = (map imported_entry ds, EmptyString))
  /\ (Exists (fun d => dict_get "name" d = None) ds ->
      import_template filepath fs
      = ([], "AppRecord.__init__() missing 1 required positional argument: 'name'")
      /\ forall _apps, _do_import filepath fs _apps = _apps).
Proof.
  intros Hload Happs.
  split; [apply from_dict_ignores_key|].
  split; [intros d n Hn; by rewrite from_dict_spec, Hn|].
  assert (Hbody : import_body filepath fs
                  = match from_dicts (map JDict ds) with
                    | inl e => inl e
                    | inr apps => inr (map reset_install apps)
                    end).
  { unfold import_body. by rewrite Hload, Happs. }
  split.
  - intros Hnamed. unfold import_template.
    rewrite Hbody, (from_dicts_named ds Hnamed). by rewrite map_map.
  - intros Hnameless.
    assert (Himp : import_template filepath fs
                   = ([], str_exn TypeError_missing_name)).
    { unfold import_template. by rewrite Hbody, (from_dicts_nameless ds Hnameless). }
    split; [done|].
    intros _apps. unfold _do_import. rewrite Himp.
    by destruct (negb (Str.nonempty filepath)).
Qed.

Lemma C10_import_entry_fields_witness :
  import_template "t.json" {[ "t.json" := Json name_only_doc ]}
  = ([ mkAppRecord (JStr "X") (JStr EmptyString) (JStr EmptyString)
         (JStr EmptyString) (JStr EmptyString) (JStr EmptyString)
         (JStr EmptyString) (JStr "unknown") (JStr EmptyString) (JStr EmptyString) ],
     EmptyString).
Proof.
  apply (C10_import_entry_fields "t.json" {[ "t.json" := Json name_only_doc ]}
           [ ("apps", JList [ JDict [ ("name", JStr "X"); ("colour", JStr "red") ] ]) ]
           [ [ ("name", JStr "X"); ("colour", JStr "red") ] ]).
  - vm_compute. reflexivity.
  - vm_compute. reflexivity.
  - repeat constructor. vm_compute. by eexists.
Defined.

(** C10 as worded fails: the winget status left out of an entry is not
    empty after the import, it is the text unknown. *)
Lemma C10_winget_status_defaults_to_unknown :
  exists a,
    import_template "t.json" {[ "t.json" := Json name_only_doc ]}
    = ([a], EmptyString)
    /\ winget_status a = JStr "unknown"
    /\ winget_status a <> JStr EmptyString.
Proof.
  eexists. split; [vm_compute; reflexivity|]. split; [reflexivity|discriminate].
Qed.

(** ** The codec: the install script *)

Lemma filter_partition_length {A} (f : A -> bool) (l : list A) :
  length (filter (fun a => f a = true) l) + length (filter (fun a => f a = false) l)
  = length l.
Proof.
  induction l as [|a l IH]; [done|].
  rewrite !filter_cons. destruct (f a) eqn:Hf.
  - rewrite decide_True, decide_False by done. simpl. lia.
  - rewrite decide_False, decide_True by done. simpl. lia.
Qed.

(** C3, as the code has it.  The script written depends on the entries
    and on the clock read to the minute: two calls on the same entries
    whose clocks agree on year, month, day, hour and minute write the same
    text, whatever the file systems they start from.  The pair returned
    depends on the entries alone and adds up to their number.  The only
    effect is on the file at the given path. *)
Theorem C3_script_depends_on_minute
    (apps : list AppRecord) (filepath : string)
    (clock1 clock2 : datetime) (fs1 fs2 : filesystem) :
  year clock1 = year clock2 -> month clock1 = month clock2 ->
  day clock1 = day clock2 -> hour clock1 = hour clock2 ->
  minute clock1 = minute clock2 ->
  (export_ps1 apps filepath clock1 fs1).1 !! filepath
  = (export_ps1 apps filepath clock2 fs2).1 !! filepath
  /\ (export_ps1 apps filepath clock1 fs1).2 = (export_ps1 apps filepath clock2 fs2).2
  /\ (export_ps1 apps filepath clock1 fs1).2.1 + (export_ps1 apps filepath clock1 fs1).2.2
     = length apps
  /\ (export_ps1 apps filepath clock1 fs1).2.1
     = length (filter (fun a => winget_id a <> EmptyString) apps)
  /\ forall p, p <> filepath ->
       (export_ps1 apps filepath clock1 fs1).1 !! p = fs1 !! p.
Proof.
  intros Hy Hmo Hd Hh Hmi. unfold export_ps1. cbn [fst snd].
  assert (Hnow : strftime_minute clock1 = strftime_minute clock2).
  { unfold strftime_minute. by rewrite Hy, Hmo, Hd, Hh, Hmi. }
  rewrite !lookup_insert_eq, Hnow.
  split; [done|]. split; [done|].
  split; [apply (filter_partition_length (fun a => Str.nonempty (winget_id a)))|].
  split.
  - f_equal. apply list_filter_iff. intros a. apply nonempty_true.
  - intros p Hp. by rewrite lookup_insert_ne.
Qed.

Lemma C3_script_depends_on_minute_witness :
  (export_ps1 foo_bar "install.ps1" noon ∅).1 !! "install.ps1"
  = (export_ps1 foo_bar "install.ps1" noon_and_a_second
       {[ "other.txt" := Json JNull ]}).1 !! "install.ps1"
  /\ (export_ps1 foo_bar "install.ps1" noon ∅).2 = (1, 1).
Proof.
  destruct (C3_script_depends_on_minute foo_bar "install.ps1" noon noon_and_a_second
              ∅ {[ "other.txt" := Json JNull ]}
              eq_refl eq_refl eq_refl eq_refl eq_refl) as (Hfile & _).
  split; [exact Hfile|]. vm_compute. reflexivity.
Defined.

(** C3 as worded fails: the same entries exported a minute later give
    another text. *)
Lemma C3_text_changes_with_the_clock :
  (export_ps1 foo_bar "install.ps1" noon ∅).1 !! "install.ps1"
  <> (export_ps1 foo_bar "install.ps1" a_minute_past_noon ∅).1 !! "install.ps1".
Proof. vm_compute. discriminate. Qed.

Example strftime_ex : strftime_minute (Datetime 2024 1 5 9 7 3 0) = "2024-01-05 09:07".
Proof. vm_compute. reflexivity. Qed.

Example isoformat_ex :
  isoformat (Datetime 2024 1 5 9 7 3 250) = "2024-01-05T09:07:03.000250".
Proof. vm_compute. reflexivity. Qed.

(* ================================================================== *)
(** * Further properties *)
(* ================================================================== *)

(** ** The matcher: the identifier returned *)

Lemma no_space_rev_app s1 s2 :
  no_space s1 = true -> no_space s2 = true -> no_space (String.rev_app s1 s2) = true.
Proof.
  revert s2. induction s1 as [|c s1 IH]; intros s2 H1 H2; simpl in *; [done|].
  apply andb_true_iff in H1 as [Hc H1]. apply IH; [done|]. simpl. by rewrite Hc.
Qed.

Lemma no_space_rev s : no_space s = true -> no_space (String.rev s) = true.
Proof. intros Hs. by apply no_space_rev_app. Qed.

(** The tokens of [split] hold no whitespace. *)
Lemma split_go_no_space cur s t :
  no_space cur = true -> t ∈ Str.split_go cur s -> no_space t = true.
Proof.
  revert cur. induction s as [|c s IH]; intros cur Hcur; simpl.
  - destruct cur; [by intros ?%elem_of_nil|].
    intros ->%list_elem_of_singleton. by apply no_space_rev.
  - destruct (Str.isspace c) eqn:Hc.
    + destruct cur.
      * by apply IH.
      * intros [->|Hin]%elem_of_cons; [by apply no_space_rev|].
        by apply (IH EmptyString).
    + apply IH. simpl. by rewrite Hc.
Qed.

Lemma split_no_space s t : t ∈ Str.split s -> no_space t = true.
Proof. by apply split_go_no_space. Qed.

Lemma first_id_token_elem i parts k p :
  first_id_token i parts = Some (k, p) -> p ∈ parts.
Proof.
  intros (m & _ & Hm)%first_id_token_lookup. by eapply list_elem_of_lookup_2.
Qed.

Lemma row_candidate_token name_lower line c :
  row_candidate name_lower line = Some c ->
  is_id_token c.1 = true /\ no_space c.1 = true.
Proof.
  unfold row_candidate. destruct (_ <? 2); [done|].
  destruct (first_id_token 0 (Str.split line)) as [[k p]|] eqn:Hf; [|done].
  intros [= <-]. simpl. split.
  - by eapply first_id_token_test.
  - eapply split_no_space, first_id_token_elem, Hf.
Qed.

Lemma _parse_winget_id_token output name :
  _parse_winget_id output name <> EmptyString ->
  is_id_token (_parse_winget_id output name) = true
  /\ no_space (_parse_winget_id output name) = true.
Proof.
  intros Hne. pose proof (_parse_winget_id_spec output name) as Hs.
  destruct (candidates output name) as [|c0 rest] eqn:Hc; [done|].
  destruct Hs as (k & sc & Hk & _).
  apply list_elem_of_lookup_2 in Hk. rewrite <- Hc in Hk.
  unfold candidates in Hk. apply list_elem_of_omap in Hk as (line & _ & Hrow).
  by apply row_candidate_token in Hrow.
Qed.

Lemma _search_winget_cases (_run : list string -> string) (app_name : string) :
  (exists pkg_id,
     _search_winget _run app_name = (pkg_id, "found")
     /\ pkg_id <> EmptyString
     /\ is_id_token pkg_id = true
     /\ no_space pkg_id = true)
  \/ _search_winget _run app_name = (EmptyString, "not_found").
Proof.
  unfold _search_winget.
  destruct (Str.nonempty (_parse_winget_id (_run (exact_query app_name)) app_name))
    eqn:He.
  - left. eexists. split; [done|].
    apply nonempty_true in He. split; [done|]. by apply _parse_winget_id_token.
  - destruct (Str.nonempty (_parse_winget_id (_run (fuzzy_query app_name)) app_name))
      eqn:Hf; [|by right].
    left. eexists. split; [done|].
    apply nonempty_true in Hf. split; [done|]. by apply _parse_winget_id_token.
Qed.

(** X1.  [_search_winget] answers either found, with an identifier that
    is a token of the output holding a dot, longer than three characters,
    not beginning with a dash and free of whitespace, or not found with
    the empty identifier. *)
Theorem search_winget_answer (_run : list string -> string) (app_name : string) :
  (exists pkg_id,
     _search_winget _run app_name = (pkg_id, "found")
     /\ pkg_id <> EmptyString
     /\ is_id_token pkg_id = true
     /\ no_space pkg_id = true)
  \/ _search_winget _run app_name = (EmptyString, "not_found").
Proof. apply _search_winget_cases. Qed.

Lemma _parse_winget_id_blank output name :
  all_space output = true -> _parse_winget_id output name = EmptyString.
Proof.
  intros Hs. unfold _parse_winget_id.
  apply strip_empty in Hs. by rewrite Hs.
Qed.

(** X2.  A catalog query that raises, times out or prints nothing but
    whitespace counts as no result: when that happens to every query the
    answer is not found with the empty identifier. *)
Theorem search_winget_failed_queries
    (run : list string -> proc_outcome) (app_name : string) :
  (forall args, all_space (search_output (run args)) = true) ->
  _search_winget (fun args => search_output (run args)) app_name
  = (EmptyString, "not_found").
Proof.
  intros Hblank. unfold _search_winget.
  by rewrite !_parse_winget_id_blank by apply Hblank.
Qed.

Lemma search_winget_failed_queries_witness :
  _search_winget (fun args => search_output ((fun _ => TimeoutExpired) args)) "Foo"
  = (EmptyString, "not_found").
Proof.
  apply (search_winget_failed_queries (fun _ => TimeoutExpired) "Foo").
  intros args. reflexivity.
Defined.

Example parse_no_package_message :
  _search_winget (fun _ => "No package found matching input criteria.") "Foo"
  = ("criteria.", "found").
Proof. vm_compute. reflexivity. Qed.

(** ** The matcher worker *)

Lemma match_loop_trace w apps total indices n :
  (match_loop w apps total n indices).1
  = match_items w apps total n (take (turns w n (length indices)) indices).
Proof.
  revert n. induction indices as [|idx rest IH]; intros n; simpl; [done|].
  destruct (stop_poll w n); [done|]. simpl.
  destruct (getitem apps idx) as [app|]; [|done].
  specialize (IH (S n)).
  destruct (match_loop w apps total (S n) rest) as [tr raised].
  simpl in *. by rewrite IH.
Qed.

Lemma WingetMatcher_run_trace w apps indices :
  (WingetMatcher_run w apps indices).1
  = match_items w apps (length indices) 0
      (take (turns w 0 (length indices)) indices)
    ++ (if (WingetMatcher_run w apps indices).2 then [] else [Emit finished]).
Proof.
  unfold WingetMatcher_run.
  pose proof (match_loop_trace w apps (length indices) indices 0) as Htr.
  destruct (match_loop w apps (length indices) 0 indices) as [tr raised].
  simpl in Htr. subst tr. destruct raised; simpl; [by rewrite app_nil_r|done].
Qed.

Lemma match_item_found w total n idx app :
  winget_status app = "found" ->
  match_item w total n idx app = [Emit (progress (n + 1) total)].
Proof. intros Hf. unfold match_item. by rewrite bool_decide_eq_true_2. Qed.

(** X3.  An entry whose status is already found is passed over by the
    matcher: whatever the run, no command is run for its index and no
    match result is emitted for it. *)
Theorem matcher_skips_found
    (w : world) (apps : list AppRecord) (indices : list Z)
    (idx : Z) (app : AppRecord) :
  getitem apps idx = Some app ->
  winget_status app = "found" ->
  (forall args, Run idx args ∉ (WingetMatcher_run w apps indices).1)
  /\ (forall wid status,
        Emit (app_matched idx wid status) ∉ (WingetMatcher_run w apps indices).1).
Proof.
  intros Happ Hfound.
  assert (Hitem : forall e, e ∈ (WingetMatcher_run w apps indices).1 ->
            e = Emit finished
            \/ exists n' idx' app', getitem apps idx' = Some app'
                 /\ e ∈ match_item w (length indices) n' idx' app').
  { intros e. rewrite WingetMatcher_run_trace.
    intros [Hin|Hin]%elem_of_app.
    - right. apply elem_of_match_items in Hin as (n' & idx' & app' & _ & ? & ?).
      by exists n', idx', app'.
    - left. destruct (WingetMatcher_run w apps indices).2;
        [by apply elem_of_nil in Hin|by apply list_elem_of_singleton in Hin]. }
  split.
  - intros args [?|(n' & idx' & app' & Hget & Hin)]%Hitem; [done|].
    destruct (decide (idx' = idx)) as [->|Hne].
    + assert (app' = app) as -> by congruence.
      rewrite match_item_found in Hin by done.
      by apply list_elem_of_singleton in Hin.
    + apply elem_of_match_item in Hin as [[? ?]|[(? & ? & ?)|?]]; by simplify_eq.
  - intros wid status [?|(n' & idx' & app' & Hget & Hin)]%Hitem; [done|].
    destruct (decide (idx' = idx)) as [->|Hne].
    + assert (app' = app) as -> by congruence.
      rewrite match_item_found in Hin by done.
      by apply list_elem_of_singleton in Hin.
    + apply elem_of_match_item in Hin as [[? ?]|[(? & ? & ?)|?]]; by simplify_eq.
Qed.

Lemma matcher_skips_found_witness :
  (forall args, Run 0 args ∉ (WingetMatcher_run calm_world foo_bar [0; 1]%Z).1)
  /\ (forall wid status,
        Emit (app_matched 0 wid status)
        ∉ (WingetMatcher_run calm_world foo_bar [0; 1]%Z).1).
Proof.
  apply (matcher_skips_found calm_world foo_bar [0; 1]%Z 0%Z
           (mkAppRecord "Foo" EmptyString EmptyString EmptyString EmptyString
              EmptyString "Vendor.Foo" "found" EmptyString EmptyString)).
  - reflexivity.
  - reflexivity.
Defined.

(** *** Progress *)

Lemma progress_signals_app tr1 tr2 :
  progress_signals (tr1 ++ tr2) = progress_signals tr1 ++ progress_signals tr2.
Proof. apply omap_app. Qed.

Lemma progress_signals_logs logs :
  Forall (fun e => exists text, e = Emit (log_message text)) logs ->
  progress_signals logs = [].
Proof. induction 1 as [|e logs [text ->] _ IH]; [done|]. by cbn. Qed.

Lemma progress_signals_runs idx (cmds : list (list string)) :
  progress_signals (map (Run idx) cmds) = [].
Proof. induction cmds as [|c cmds IH]; [done|]. by cbn. Qed.

Lemma progress_signals_match_item w total n idx app :
  progress_signals (match_item w total n idx app) = [(n + 1, total)].
Proof.
  unfold match_item. case_bool_decide; [done|].
  destruct (_search_winget _ (name app)) as [wid status].
  by rewrite progress_signals_app, progress_signals_runs.
Qed.

Lemma progress_signals_install_item w total n dn idx app :
  progress_signals (install_item w total n dn idx app) = [(dn + 1, total)].
Proof.
  destruct (decide (manual_entry app)) as [Hm|Hm].
  - by rewrite install_item_manual.
  - destruct (install_item_installed w total n dn idx app Hm)
      as (logs & status & err & -> & Hlogs & _).
    by rewrite !progress_signals_app, (progress_signals_logs logs Hlogs).
Qed.

Lemma progress_signals_match_items w apps total n l :
  Forall (fun idx => is_Some (getitem apps idx)) l ->
  progress_signals (match_items w apps total n l)
  = map (fun i => (i + 1, total)) (seq n (length l)).
Proof.
  intros Hvalid. revert n.
  induction Hvalid as [|idx rest [app Happ] _ IH]; intros n; [done|].
  cbn [match_items length seq map]. rewrite Happ, progress_signals_app.
  by rewrite progress_signals_match_item, IH.
Qed.

Lemma progress_signals_install_items w apps total n l :
  Forall (fun idx => is_Some (getitem apps idx)) l ->
  progress_signals (install_items w apps total n n l)
  = map (fun i => (i + 1, total)) (seq n (length l)).
Proof.
  intros Hvalid. revert n.
  induction Hvalid as [|idx rest [app Happ] _ IH]; intros n; [done|].
  rewrite (install_items_cons _ _ _ _ _ _ _ _ Happ), progress_signals_app.
  cbn [length seq map].
  rewrite progress_signals_install_item.
  replace (n + 1) with (S n) by lia. by rewrite IH.
Qed.

(** X4.  Both workers report progress after every item they process, the
    entries passed over included: with the indices in range, the progress
    signals of a run that goes through [m] items are, in this order,
    [(1, total)], [(2, total)], up to [(m, total)], the total being the
    number of indices given; for the install worker, whose run begins by
    setting up the session log, this is so once the log is set up. *)
Theorem workers_progress
    (w : world) (apps : list AppRecord) (indices : list Z) :
  Forall (fun i => is_Some (getitem apps i)) indices ->
  let m := turns w 0 (length indices) in
  progress_signals (WingetMatcher_run w apps indices).1
  = map (fun i => (i + 1, length indices)) (seq 0 m)
  /\ (is_Some (_log_path w) ->
      progress_signals (InstallWorker_run w apps indices).1
      = map (fun i => (i + 1, length indices)) (seq 0 m)).
Proof.
  intros Hvalid m.
  assert (Hvalid' : Forall (fun i => is_Some (getitem apps i)) (take m indices))
    by by apply Forall_take.
  assert (Hlen : length (take m indices) = m).
  { rewrite length_take. pose proof (turns_le w (length indices) 0). unfold m. lia. }
  unfold m in *. clear m. split.
  - unfold WingetMatcher_run. rewrite match_loop_items by done. cbn [fst].
    rewrite progress_signals_app, progress_signals_match_items by done.
    by rewrite Hlen, app_nil_r.
  - intros Hlog. rewrite InstallWorker_run_ready, install_loop_items by done.
    cbn [fst].
    rewrite progress_signals_app, progress_signals_install_items by done.
    by rewrite Hlen, app_nil_r.
Qed.

Lemma workers_progress_witness :
  progress_signals (WingetMatcher_run calm_world foo_bar [0; 1]%Z).1 = [(1, 2); (2, 2)]
  /\ progress_signals (InstallWorker_run calm_world foo_bar [0; 1]%Z).1
     = [(1, 2); (2, 2)].
Proof.
  destruct (workers_progress calm_world foo_bar [0; 1]%Z) as [Hmatch Hinstall].
  - repeat constructor; vm_compute; by eexists.
  - split; [exact Hmatch|]. apply Hinstall. by eexists.
Defined.

(** *** The match results the main window records *)

Lemma match_item_matched w total n idx app idx' wid status :
  Emit (app_matched idx' wid status) ∈ match_item w total n idx app ->
  (status = "found" /\ wid <> EmptyString)
  \/ (status = "not_found" /\ wid = EmptyString).
Proof.
  unfold match_item. case_bool_decide.
  - by intros ?%list_elem_of_singleton.
  - set (_run := fun args => search_output (subprocess_run w n args)).
    destruct (_search_winget_cases _run (name app))
      as [(pkg_id & -> & Hne & _)| ->];
      rewrite elem_of_app, !elem_of_cons, elem_of_nil;
      (intros [Hin|[?|[?|[]]]];
       [by apply list_elem_of_fmap in Hin as (? & ? & _)| |done]);
      simplify_eq; auto.
Qed.

Lemma update_winget_consistent wid status a :
  (status = "found" /\ wid <> EmptyString)
  \/ (status = "not_found" /\ wid = EmptyString) ->
  match_consistent (update_winget wid status a).
Proof.
  intros [[-> Hne]|[-> ->]]; [by left|right]. split; [|done]. simpl. discriminate.
Qed.

Lemma _on_app_matched_consistent idx wid status apps :
  (status = "found" /\ wid <> EmptyString)
  \/ (status = "not_found" /\ wid = EmptyString) ->
  Forall match_consistent apps ->
  Forall match_consistent (_on_app_matched idx wid status apps).
Proof.
  intros Hpair Happs. unfold _on_app_matched.
  destruct (idx <? _)%Z; [|done].
  destruct (position (length apps) idx) as [p|]; [|done].
  apply Forall_alter; [done|]. intros a _ _. by apply update_winget_consistent.
Qed.

Lemma _on_app_matched_frame idx wid status apps :
  map match_frame (_on_app_matched idx wid status apps) = map match_frame apps.
Proof.
  unfold _on_app_matched.
  destruct (idx <? _)%Z; [|done].
  destruct (position (length apps) idx) as [p|]; [|done].
  change (match_frame <$> alter (update_winget wid status) p apps
          = match_frame <$> apps).
  rewrite (list_fmap_alter match_frame (update_winget wid status) id)
    by (by apply Forall_forall).
  by apply list_alter_id.
Qed.

Lemma after_match_signals_consistent tr apps :
  (forall idx wid status, Emit (app_matched idx wid status) ∈ tr ->
     (status = "found" /\ wid <> EmptyString)
     \/ (status = "not_found" /\ wid = EmptyString)) ->
  Forall match_consistent apps ->
  Forall match_consistent (after_match_signals tr apps).
Proof.
  revert apps. induction tr as [|e tr IH]; intros apps Htr Happs; [done|].
  cbn [after_match_signals fold_left].
  apply IH.
  - intros idx wid status Hin. apply (Htr idx). by right.
  - destruct e as [[]|]; cbn [on_match_signal]; try done.
    apply _on_app_matched_consistent; [|done]. apply (Htr idx). by left.
Qed.

Lemma after_match_signals_frame tr apps :
  map match_frame (after_match_signals tr apps) = map match_frame apps.
Proof.
  revert apps. induction tr as [|e tr IH]; intros apps; [done|].
  cbn [after_match_signals fold_left].
  rewrite IH. destruct e as [[]|]; cbn [on_match_signal]; try done.
  apply _on_app_matched_frame.
Qed.

(** X5.  Recording the results of a match run keeps the match fields of
    every entry in agreement (found with an identifier, or not found with
    none) when they were so before, and changes no other field of any
    entry. *)
Theorem match_run_keeps_entries_consistent
    (w : world) (apps : list AppRecord) (indices : list Z) :
  Forall match_consistent apps ->
  Forall match_consistent
    (after_match_signals (WingetMatcher_run w apps indices).1 apps)
  /\ map match_frame (after_match_signals (WingetMatcher_run w apps indices).1 apps)
     = map match_frame apps.
Proof.
  intros Happs. split; [|apply after_match_signals_frame].
  apply after_match_signals_consistent; [|done].
  intros idx wid status. rewrite WingetMatcher_run_trace.
  intros [Hin|Hin]%elem_of_app.
  - apply elem_of_match_items in Hin as (n' & idx' & app' & _ & _ & Hin).
    by eapply match_item_matched.
  - destruct (WingetMatcher_run w apps indices).2;
      [by apply elem_of_nil in Hin|by apply list_elem_of_singleton in Hin].
Qed.

Lemma match_run_keeps_entries_consistent_witness :
  Forall match_consistent
    (after_match_signals (WingetMatcher_run calm_world foo_bar [0; 1]%Z).1 foo_bar)
  /\ map match_frame
       (after_match_signals (WingetMatcher_run calm_world foo_bar [0; 1]%Z).1 foo_bar)
     = map match_frame foo_bar.
Proof.
  apply (match_run_keeps_entries_consistent calm_world foo_bar [0; 1]%Z).
  constructor; [left; split; [reflexivity|discriminate]|].
  constructor; [right; split; [discriminate|reflexivity]|].
  constructor.
Defined.

(** ** The installer: the error text is never empty *)

Lemma isspace_lower_char c : Str.isspace (Str.lower_char c) = Str.isspace c.
Proof. by destruct c as [[] [] [] [] [] [] [] []]. Qed.

Lemma all_space_lower s : all_space (Str.lower s) = all_space s.
Proof.
  induction s as [|c s IH]; [done|]. simpl. by rewrite isspace_lower_char, IH.
Qed.

Lemma contains_visible k kw s :
  Str.isspace k = false -> Str.contains (String k kw) s = true ->
  all_space s = false.
Proof.
  intros Hk. induction s as [|c s IH]; simpl; [done|].
  destruct (ascii_dec k c) as [<-|_].
  - intros _. by rewrite Hk.
  - simpl. intros Hin%IH. by rewrite Hin, andb_false_r.
Qed.

Lemma has_failure_keyword_visible line :
  has_failure_keyword line = true -> all_space line = false.
Proof.
  unfold has_failure_keyword, failure_keywords. rewrite <- all_space_lower.
  cbn [existsb]. rewrite !orb_true_iff.
  intros [H|[H|[H|[H|[H|H]]]]]; try discriminate;
    (refine (contains_visible _ _ _ _ H); reflexivity).
Qed.

Lemma take_nonempty n s : s <> EmptyString -> Str.take (S n) s <> EmptyString.
Proof. by destruct s. Qed.

Lemma last_visible_line_nonempty output line :
  last_visible_line output line -> line <> EmptyString.
Proof. intros (_ & _ & _ & _ & _ & (c & Hc & _) & _). by intros ->. Qed.

Lemma take_length_le n s : String.length (Str.take n s) <= n.
Proof. rewrite take_length. lia. Qed.

Lemma _extract_winget_error_eq output :
  _extract_winget_error output
  = match find has_failure_keyword (Str.splitlines output) with
    | Some line => Some (Str.take 120 (Str.strip line))
    | None =>
        if all_space output then Some "Unknown error"
        else Str.take 120 <$> last (Str.splitlines (Str.strip output))
    end.
Proof.
  unfold _extract_winget_error. rewrite extract_loop_find.
  destruct (find has_failure_keyword (Str.splitlines output)); [done|].
  cbn [fmap option_fmap option_map]. rewrite nonempty_strip.
  by destruct (all_space output).
Qed.

(** X6.  [_extract_winget_error] always returns a text, the text is not
    empty and it has at most 120 characters. *)
Theorem extract_winget_error_nonempty_bounded (output : string) :
  exists err,
    _extract_winget_error output = Some err
    /\ err <> EmptyString
    /\ String.length err <= 120.
Proof.
  rewrite _extract_winget_error_eq.
  destruct (find has_failure_keyword (Str.splitlines output)) as [line|] eqn:Hfind.
  - apply find_some in Hfind as [_ Hkw].
    exists (Str.take 120 (Str.strip line)).
    split; [done|]. split; [|apply take_length_le].
    apply take_nonempty. intros Hs%strip_empty.
    apply has_failure_keyword_visible in Hkw. congruence.
  - destruct (all_space output) eqn:Hs.
    + exists "Unknown error". split; [done|]. split; [done|]. cbn. lia.
    + destruct (fallback_last_visible output Hs) as (line & -> & Hvis).
      exists (Str.take 120 line).
      split; [done|]. split; [|apply take_length_le].
      by eapply take_nonempty, last_visible_line_nonempty.
Qed.

(** ** The install worker: the order and the kinds of its signals *)

Lemma lifecycle_app tr1 tr2 : lifecycle (tr1 ++ tr2) = lifecycle tr1 ++ lifecycle tr2.
Proof. apply omap_app. Qed.

Lemma lifecycle_logs logs :
  Forall (fun e => exists text, e = Emit (log_message text)) logs ->
  lifecycle logs = [].
Proof. induction 1 as [|e logs [text ->] _ IH]; [done|]. by cbn. Qed.

Lemma lifecycle_install_item w total n dn idx app :
  lifecycle (install_item w total n dn idx app) = [inl idx; inr idx].
Proof.
  destruct (decide (manual_entry app)) as [Hm|Hm].
  - by rewrite install_item_manual.
  - destruct (install_item_installed w total n dn idx app Hm)
      as (logs & status & err & -> & Hlogs & _).
    by rewrite !lifecycle_app, (lifecycle_logs logs Hlogs).
Qed.

Lemma lifecycle_install_items w apps total n dn l :
  Forall (fun idx => is_Some (getitem apps idx)) l ->
  lifecycle (install_items w apps total n dn l)
  = flat_map (fun idx => [inl idx; inr idx]) l.
Proof.
  intros Hvalid. revert n dn.
  induction Hvalid as [|idx rest [app Happ] _ IH]; intros n dn; [done|].
  rewrite (install_items_cons _ _ _ _ _ _ _ _ Happ), lifecycle_app.
  by rewrite lifecycle_install_item, IH.
Qed.

(** X7.  In a run of the install worker over indices in range, its
    session log set up, the started and finished signals come in pairs,
    item after item in the order of the indices: started for an index,
    then finished for the same index, before anything of the next one. *)
Theorem install_signals_paired
    (w : world) (apps : list AppRecord) (indices : list Z) :
  is_Some (_log_path w) ->
  Forall (fun i => is_Some (getitem apps i)) indices ->
  lifecycle (InstallWorker_run w apps indices).1
  = flat_map (fun idx => [inl idx; inr idx])
      (take (turns w 0 (length indices)) indices).
Proof.
  intros Hlog Hvalid. rewrite InstallWorker_run_ready by done.
  rewrite install_loop_items by done. cbn [fst].
  rewrite lifecycle_app, lifecycle_install_items by by apply Forall_take.
  apply app_nil_r.
Qed.

Lemma install_signals_paired_witness :
  lifecycle (InstallWorker_run calm_world foo_bar [0; 1]%Z).1
  = [inl 0%Z; inr 0%Z; inl 1%Z; inr 1%Z].
Proof.
  apply (install_signals_paired calm_world foo_bar [0; 1]%Z).
  - by eexists.
  - repeat constructor; vm_compute; by eexists.
Defined.

Lemma install_attempt_result w n app :
  (install_attempt w n app).2 = ("success", EmptyString)
  \/ (install_attempt w n app).2.1 = "failed".
Proof.
  unfold install_attempt.
  destruct (subprocess_run w n (install_command (winget_id app)))
    as [returncode stdout stderr| |msg]; simpl; [|by right..].
  case_bool_decide; simpl; [by left|].
  by destruct (_extract_winget_error (stdout +:+ stderr)); right.
Qed.

Lemma install_item_installed_result w total n dn idx app :
  ~ manual_entry app ->
  exists logs status err,
    install_item w total n dn idx app
    = [ Emit (app_started idx (name app));
        Emit (log_message ("[" +:+ _ts w n 0 +:+ "] Installing: " +:+ name app
                           +:+ " (" +:+ winget_id app +:+ ")"));
        Run idx (install_command (winget_id app)) ]
      ++ logs
      ++ [ Emit (app_finished idx status err);
           Emit (overall_progress (dn + 1) total) ]
    /\ Forall (fun e => exists text, e = Emit (log_message text)) logs
    /\ ((status, err) = ("success", EmptyString) \/ status = "failed").
Proof.
  intros Hm. unfold install_item.
  rewrite manual_entry_test, bool_decide_eq_false_2 by done.
  pose proof (install_attempt_shape w n app) as [Hlogs _].
  pose proof (install_attempt_result w n app) as Hres.
  destruct (install_attempt w n app) as [logs [status err]]. simpl in *.
  by exists logs, status, err.
Qed.

Lemma install_item_finished w total n dn idx app idx' status err :
  Emit (app_finished idx' status err) ∈ install_item w total n dn idx app ->
  (status = "manual" /\ err = "No Winget package available")
  \/ (status = "success" /\ err = EmptyString)
  \/ status = "failed".
Proof.
  destruct (decide (manual_entry app)) as [Hm|Hm].
  - rewrite install_item_manual by done.
    rewrite !elem_of_cons, elem_of_nil.
    intros [?|[?|[?|[]]]]; simplify_eq. by left.
  - destruct (install_item_installed_result w total n dn idx app Hm)
      as (logs & status' & err' & -> & Hlogs & Hres).
    rewrite !elem_of_app, !elem_of_cons, !elem_of_nil.
    intros [[?|[?|[?|[]]]]|[Hin|[?|[?|[]]]]]; simplify_eq.
    + rewrite Forall_forall in Hlogs. by destruct (Hlogs _ Hin).
    + right. destruct Hres as [?|?]; simplify_eq; auto.
Qed.

(** X8.  Every finished signal of the install worker has one of three
    shapes: status manual with the fixed message, status success with an
    empty error text, or status failed. *)
Theorem install_finished_shapes
    (w : world) (apps : list AppRecord) (indices : list Z)
    (idx : Z) (status err : string) :
  Emit (app_finished idx status err) ∈ (InstallWorker_run w apps indices).1 ->
  (status = "manual" /\ err = "No Winget package available")
  \/ (status = "success" /\ err = EmptyString)
  \/ status = "failed".
Proof.
  intros [Hin|Hin]%InstallWorker_run_events; [|done].
  apply elem_of_install_items in Hin as (n' & dn' & idx' & app & _ & _ & Hin).
  by eapply install_item_finished.
Qed.

Lemma install_finished_shapes_witness :
  ("manual" = "manual" /\ "No Winget package available" = "No Winget package available")
  \/ ("manual" = "success" /\ "No Winget package available" = EmptyString)
  \/ "manual" = "failed".
Proof.
  apply (install_finished_shapes calm_world foo_bar [0; 1]%Z 1%Z).
  vm_compute. do 7 right. left.
Defined.

(** ** The install slots touch the install fields only *)

Lemma update_at_frame idx status error apps :
  map install_frame (update_at idx status error apps) = map install_frame apps.
Proof.
  unfold update_at.
  destruct (idx <? _)%Z; [|done].
  destruct (position (length apps) idx) as [p|]; [|done].
  change (install_frame <$> alter (update_status status error) p apps
          = install_frame <$> apps).
  rewrite (list_fmap_alter install_frame (update_status status error) id)
    by (by apply Forall_forall).
  by apply list_alter_id.
Qed.

Lemma after_signals_frame tr apps :
  map install_frame (after_signals tr apps) = map install_frame apps.
Proof.
  revert apps. induction tr as [|e tr IH]; intros apps; [done|].
  cbn [after_signals fold_left]. fold (after_signals tr (on_install_signal apps e)).
  rewrite IH. destruct e as [[]|]; cbn [on_install_signal]; try done;
    apply update_at_frame.
Qed.

Lemma getitem_frame apps1 apps2 idx :
  map install_frame apps1 = map install_frame apps2 ->
  match getitem apps1 idx, getitem apps2 idx with
  | Some a1, Some a2 => install_frame a1 = install_frame a2
  | None, None => True
  | _, _ => False
  end.
Proof.
  intros Heq. unfold getitem.
  assert (Hlen : length apps1 = length apps2).
  { by rewrite <- (length_map install_frame apps1), Heq, length_map. }
  rewrite Hlen. destruct (position (length apps2) idx) as [p|]; [|done].
  assert (Hp : (install_frame <$> apps1) !! p = (install_frame <$> apps2) !! p)
    by (change (map install_frame apps1 !! p = map install_frame apps2 !! p);
        by rewrite Heq).
  rewrite !list_lookup_fmap in Hp.
  destruct (apps1 !! p), (apps2 !! p); cbn in Hp; try done; congruence.
Qed.

Lemma install_item_frame w total n dn idx a1 a2 :
  install_frame a1 = install_frame a2 ->
  install_item w total n dn idx a1 = install_item w total n dn idx a2.
Proof.
  destruct a1, a2. unfold install_frame. intros [= -> -> -> -> -> -> -> ->].
  reflexivity.
Qed.

Lemma match_item_frame w total n idx a1 a2 :
  install_frame a1 = install_frame a2 ->
  match_item w total n idx a1 = match_item w total n idx a2.
Proof.
  destruct a1, a2. unfold install_frame. intros [= -> -> -> -> -> -> -> ->].
  reflexivity.
Qed.

Lemma install_loop_frame w apps1 apps2 total indices n dn :
  map install_frame apps1 = map install_frame apps2 ->
  install_loop w apps1 total n dn indices = install_loop w apps2 total n dn indices.
Proof.
  intros Heq. revert n dn.
  induction indices as [|idx rest IH]; intros n dn; [done|].
  cbn [install_loop]. destruct (stop_poll w n); [done|].
  pose proof (getitem_frame apps1 apps2 idx Heq) as Hget.
  destruct (getitem apps1 idx) as [a1|], (getitem apps2 idx) as [a2|]; try done.
  by rewrite IH, (install_item_frame _ _ _ _ _ a1 a2).
Qed.

Lemma match_loop_frame w apps1 apps2 total indices n :
  map install_frame apps1 = map install_frame apps2 ->
  match_loop w apps1 total n indices = match_loop w apps2 total n indices.
Proof.
  intros Heq. revert n.
  induction indices as [|idx rest IH]; intros n; [done|].
  cbn [match_loop]. destruct (stop_poll w n); [done|].
  pose proof (getitem_frame apps1 apps2 idx Heq) as Hget.
  destruct (getitem apps1 idx) as [a1|], (getitem apps2 idx) as [a2|]; try done.
  by rewrite IH, (match_item_frame _ _ _ _ a1 a2).
Qed.

(** X9.  Recording the signals of an install run changes nothing but the
    install status and the install error of the entries.  Neither worker
    reads these two fields: on the entries so recorded, a new run of the
    install worker, or of the matcher, goes exactly as it would have gone
    on the entries as they were, so that an install is attempted again
    whatever its earlier status. *)
Theorem install_status_is_not_read
    (w : world) (tr : list event) (apps : list AppRecord) (indices : list Z) :
  map install_frame (after_signals tr apps) = map install_frame apps
  /\ InstallWorker_run w (after_signals tr apps) indices
     = InstallWorker_run w apps indices
  /\ WingetMatcher_run w (after_signals tr apps) indices
     = WingetMatcher_run w apps indices.
Proof.
  pose proof (after_signals_frame tr apps) as Hframe.
  split; [done|]. split.
  - unfold InstallWorker_run. destruct (_log_path w); [|done].
    by rewrite (install_loop_frame _ _ apps).
  - unfold WingetMatcher_run. by rewrite (match_loop_frame _ _ apps).
Qed.

(** ** The scripts: their install directives *)

Lemma directive_eq winget_id :
  directive winget_id
  = "winget install --id " +:+ winget_id
    +:+ " --silent --accept-package-agreements --accept-source-agreements".
Proof. reflexivity. Qed.

Lemma prefix_nil s : String.prefix EmptyString s = true.
Proof. by destruct s. Qed.

Lemma prefix_append p s : String.prefix p (p +:+ s) = true.
Proof.
  induction p as [|c p IH]; simpl; [apply prefix_nil|].
  by destruct (ascii_dec c c).
Qed.

Lemma is_directive_directive winget_id : is_directive (directive winget_id) = true.
Proof. rewrite directive_eq. apply prefix_append. Qed.

Lemma filter_directive_skip line lines :
  is_directive line = false ->
  filter (fun l => is_directive l = true) (line :: lines)
  = filter (fun l => is_directive l = true) lines.
Proof. intros Hl. rewrite filter_cons_False; [done|]. by rewrite Hl. Qed.

Lemma filter_directive_keep line lines :
  is_directive line = true ->
  filter (fun l => is_directive l = true) (line :: lines)
  = line :: filter (fun l => is_directive l = true) lines.
Proof. intros Hl. by rewrite filter_cons_True. Qed.

Lemma winget_block_directives a :
  filter (fun l => is_directive l = true) (winget_block a)
  = [directive (winget_id a)].
Proof.
  unfold winget_block.
  rewrite filter_directive_skip
    by (destruct (Str.nonempty (publisher a)), (Str.nonempty (version a)); reflexivity).
  rewrite filter_directive_keep by apply (is_directive_directive (winget_id a)).
  by rewrite filter_directive_skip by reflexivity.
Qed.

Lemma manual_block_directives a :
  filter (fun l => is_directive l = true) (manual_block a) = [].
Proof.
  unfold manual_block. rewrite !filter_app.
  rewrite filter_directive_skip by reflexivity.
  destruct (Str.nonempty (publisher a)), (Str.nonempty (version a));
    rewrite ?filter_directive_skip by reflexivity; reflexivity.
Qed.

Lemma winget_blocks_directives apps :
  filter (fun l => is_directive l = true) (concat (map winget_block apps))
  = map (fun a => directive (winget_id a)) apps.
Proof.
  induction apps as [|a apps IH]; [done|].
  cbn [map concat]. by rewrite filter_app, winget_block_directives, IH.
Qed.

Lemma manual_blocks_directives apps :
  filter (fun l => is_directive l = true) (concat (map manual_block apps)) = [].
Proof.
  induction apps as [|a apps IH]; [done|].
  cbn [map concat]. by rewrite filter_app, manual_block_directives, IH.
Qed.

Lemma ps1_lines_directives (apps : list AppRecord) (now : string) :
  filter (fun l => is_directive l = true) (ps1_lines apps now)
  = map (fun a => directive (winget_id a)) (with_id apps).
Proof.
  unfold ps1_lines. fold (with_id apps).
  set (manual := filter (fun a => Str.nonempty (winget_id a) = false) apps).
  rewrite !filter_app.
  assert (Hfoot : filter (fun l => is_directive l = true)
            [ "Write-Host '' ";
              "Write-Host 'Done! Check output above for any errors.' -ForegroundColor Green" ]
          = []) by reflexivity.
  rewrite Hfoot, app_nil_r.
  assert (Hmanual :
    filter (fun l => is_directive l = true)
      match manual with
      | [] => []
      | _ =>
          [ "# ── Manual Installs Required ────────────────────────────────";
            "# The following apps have no Winget package — install manually:";
            EmptyString ]
          ++ concat (map manual_block manual)
      end = []).
  { destruct manual as [|m ms] eqn:Hm; [done|].
    rewrite filter_app, manual_blocks_directives. reflexivity. }
  destruct (with_id apps) as [|a valid] eqn:Hvalid.
  - destruct manual as [|m ms]; [reflexivity|].
    rewrite !filter_app, manual_blocks_directives.
    rewrite !filter_directive_skip by reflexivity. reflexivity.
  - destruct manual as [|m ms].
    + rewrite !filter_app, winget_blocks_directives.
      rewrite !filter_directive_skip by reflexivity. reflexivity.
    + rewrite !filter_app, winget_blocks_directives, manual_blocks_directives.
      rewrite !filter_directive_skip by reflexivity.
      rewrite !filter_nil. cbn [app]. by rewrite app_nil_r.
Qed.

(** X10.  Among the lines [export_ps1] joins into the script, those that
    begin as an install directive are one for each entry that has an
    identifier, in the order of the entries, and none for the others; the
    directive of an entry is the command line the install worker runs for
    it, the arguments joined by single spaces. *)
Theorem ps1_script_directives
    (apps : list AppRecord) (filepath : string) (clock : datetime) (fs : filesystem) :
  (export_ps1 apps filepath clock fs).1 !! filepath
  = Some (NoJson (Str.join LF (ps1_lines apps (strftime_minute clock)))
            "Expecting value" 1 1 0)
  /\ filter (fun l => is_directive l = true) (ps1_lines apps (strftime_minute clock))
     = map (fun a => Str.join " " (install_command (winget_id a)))
         (filter (fun a => winget_id a <> EmptyString) apps).
Proof.
  split; [unfold export_ps1; cbn [fst]; by rewrite lookup_insert_eq|].
  rewrite ps1_lines_directives. unfold with_id, directive. f_equal.
  apply list_filter_iff. intros a. apply nonempty_true.
Qed.

Lemma build_winget_command_lines apps clock :
  build_winget_command apps clock = Str.join LF (build_winget_lines apps clock).
Proof.
  unfold build_winget_command, build_winget_lines, with_id.
  by destruct (filter (fun a => Str.nonempty (winget_id a) = true) apps).
Qed.

Lemma build_winget_lines_directives apps clock :
  filter (fun l => is_directive l = true) (build_winget_lines apps clock)
  = map (fun a => directive (winget_id a)) (with_id apps).
Proof.
  unfold build_winget_lines.
  destruct (with_id apps) as [|a valid]; [reflexivity|].
  rewrite filter_app.
  rewrite !filter_directive_skip by reflexivity. rewrite filter_nil. cbn [app].
  generalize (a :: valid). intros l.
  induction l as [|b l IH]; [done|].
  cbn [map]. rewrite filter_directive_keep by apply is_directive_directive.
  by rewrite IH.
Qed.

(** X11.  The command text of the install page is the join of lines of
    which those that begin as an install directive are the same, in the
    same order, as in the script [export_ps1] writes for the same
    entries, whatever the two clocks; with no entry that has an
    identifier the command is the fixed comment and holds no directive. *)
Theorem command_and_script_agree
    (apps : list AppRecord) (clock : datetime) (now : string) :
  build_winget_command apps clock = Str.join LF (build_winget_lines apps clock)
  /\ filter (fun l => is_directive l = true) (build_winget_lines apps clock)
     = filter (fun l => is_directive l = true) (ps1_lines apps now)
  /\ (Forall (fun a => winget_id a = EmptyString) apps ->
      build_winget_command apps clock = "# No apps with Winget IDs selected.").
Proof.
  split; [apply build_winget_command_lines|]. split.
  - by rewrite build_winget_lines_directives, ps1_lines_directives.
  - intros Hnone. unfold build_winget_command.
    replace (filter (fun a => Str.nonempty (winget_id a) = true) apps) with (@nil AppRecord);
      [done|].
    symmetry. induction Hnone as [|a l Ha _ IH]; [done|].
    rewrite filter_cons_False; [done|]. by rewrite Ha.
Qed.

Lemma command_and_script_agree_witness :
  build_winget_command
    [ mkAppRecord "Bar" EmptyString EmptyString EmptyString EmptyString EmptyString
        EmptyString "not_found" EmptyString EmptyString ] noon
  = "# No apps with Winget IDs selected.".
Proof.
  apply (command_and_script_agree
           [ mkAppRecord "Bar" EmptyString EmptyString EmptyString EmptyString
               EmptyString EmptyString "not_found" EmptyString EmptyString ]
           noon EmptyString).
  repeat constructor.
Defined.

(** ** The bundle *)

Lemma import_template_exported apps filepath now fs :
  import_template filepath (export_template apps filepath now fs)
  = (map imported apps, EmptyString).
Proof.
  unfold import_template, import_body, export_template, load_json.
  rewrite lookup_insert_eq, dict_get_apps_exported.
  cbn [default from_option id py_iter]. rewrite from_dicts_to_dict.
  by rewrite map_map.
Qed.

Lemma import_template_same_file filepath fs1 fs2 :
  fs1 !! filepath = fs2 !! filepath ->
  import_template filepath fs1 = import_template filepath fs2.
Proof.
  intros Heq. unfold import_template, import_body, load_json. by rewrite Heq.
Qed.

(** X12.  In the bundle [export_bundle] writes, the three paths being
    different, the template imports back as the exported entries with no
    error, the script is the one [export_ps1] writes, the script and the
    listing are refused by the import as no JSON document, the dictionary
    returned names the three files in the order written, and no other
    file is touched. *)
Theorem bundle_template_imports_back
    (path_join : string -> string -> string)
    (apps : list AppRecord) (folder : string)
    (clock1 clock2 clock3 : datetime) (fs : filesystem) :
  let json_path := path_join folder "appvault_template.json" in
  let ps1_path := path_join folder "install.ps1" in
  let txt_path := path_join folder "app_list.txt" in
  let bundle := export_bundle path_join apps folder clock1 clock2 clock3 fs in
  json_path <> ps1_path -> json_path <> txt_path -> ps1_path <> txt_path ->
  import_template json_path bundle.1 = (map imported apps, EmptyString)
  /\ bundle.1 !! ps1_path = (export_ps1 apps ps1_path clock2 fs).1 !! ps1_path
  /\ import_template ps1_path bundle.1
     = ([], "Expecting value: line 1 column 1 (char 0)")
  /\ import_template txt_path bundle.1
     = ([], "Expecting value: line 1 column 1 (char 0)")
  /\ bundle.2 = [ ("appvault_template.json", json_path);
                  ("install.ps1", ps1_path);
                  ("app_list.txt", txt_path) ]
  /\ forall p, p <> json_path -> p <> ps1_path -> p <> txt_path ->
       bundle.1 !! p = fs !! p.
Proof.
  intros json_path ps1_path txt_path bundle Hjp Hjt Hpt.
  unfold bundle, export_bundle. cbn [fst snd app].
  fold json_path ps1_path txt_path.
  split; [|split; [|split; [|split; [|split]]]].
  - rewrite <- (import_template_exported apps json_path clock1 fs).
    apply import_template_same_file. unfold export_ps1. cbn [fst].
    by rewrite !lookup_insert_ne by done.
  - unfold export_ps1. cbn [fst].
    rewrite lookup_insert_ne by done. by rewrite !lookup_insert_eq.
  - unfold import_template, import_body, load_json, export_ps1. cbn [fst].
    rewrite lookup_insert_ne by done. by rewrite lookup_insert_eq.
  - unfold import_template, import_body, load_json.
    by rewrite lookup_insert_eq.
  - done.
  - intros p Hj Hp Ht. unfold export_ps1, export_template. cbn [fst].
    by rewrite !lookup_insert_ne by done.
Qed.

Lemma bundle_template_imports_back_witness :
  import_template (backslash_join "C:\out" "appvault_template.json")
    (export_bundle backslash_join foo_bar "C:\out" noon noon noon_and_a_second ∅).1
  = (map imported foo_bar, EmptyString).
Proof.
  apply (bundle_template_imports_back backslash_join foo_bar "C:\out"
           noon noon noon_and_a_second ∅); vm_compute; discriminate.
Defined.

Example listing_ex :
  listing foo_bar "2024-01-15 12:00"
  = "AppVault — Exported App List" +:+ LF
    +:+ "Generated: 2024-01-15 12:00" +:+ LF
    +:+ "============================================================" +:+ LF
    +:+ LF
    +:+ "  Foo" +:+ LF
    +:+ "    Winget ID  : Vendor.Foo" +:+ LF
    +:+ LF
    +:+ "  Bar" +:+ LF
    +:+ "    Winget     : Manual install required" +:+ LF
    +:+ LF.
Proof. vm_compute. reflexivity. Qed.

(** ** The main window: the indices it hands to the workers *)

Lemma getitem_middle {A} (pre : list A) x suf :
  getitem (pre ++ x :: suf) (Z.of_nat (length pre)) = Some x.
Proof.
  unfold getitem, position.
  rewrite (proj2 (Z.leb_le 0 _)) by lia.
  rewrite Nat2Z.id. by rewrite list_lookup_middle.
Qed.

Lemma snoc_middle {A} (pre : list A) x suf : (pre ++ [x]) ++ suf = pre ++ x :: suf.
Proof. by rewrite <- app_assoc. Qed.

Lemma snoc_length {A} (pre : list A) x : length (pre ++ [x]) = S (length pre).
Proof. rewrite length_app. simpl. lia. Qed.

Lemma checked_from_valid {A} (widgets : list bool) (pre suf : list A) :
  length widgets <= length suf ->
  Forall (fun idx => is_Some (getitem (pre ++ suf) idx))
    (checked_from (length pre) widgets).
Proof.
  revert pre suf. induction widgets as [|c widgets IH]; intros pre suf Hlen.
  { constructor. }
  destruct suf as [|x suf]; [simpl in Hlen; lia|].
  assert (Hrest : Forall (fun idx => is_Some (getitem (pre ++ x :: suf) idx))
                    (checked_from (S (length pre)) widgets)).
  { rewrite <- snoc_middle, <- (snoc_length pre x). apply IH. simpl in Hlen. lia. }
  cbn [checked_from]. destruct c; [|done].
  constructor; [|done]. rewrite getitem_middle. by eexists.
Qed.

Lemma checked_indices_valid {A} (widgets : list bool) (l : list A) :
  length widgets = length l ->
  Forall (fun idx => is_Some (getitem l idx)) (checked_indices widgets).
Proof. intros Hlen. apply (checked_from_valid widgets [] l). lia. Qed.

Lemma getitems_checked_from {A} (widgets : list bool) (pre suf : list A) :
  length widgets <= length suf ->
  getitems (pre ++ suf) (checked_from (length pre) widgets)
  = Some (checked_entries suf widgets).
Proof.
  revert pre suf. induction widgets as [|c widgets IH]; intros pre suf Hlen.
  { by destruct suf. }
  destruct suf as [|x suf]; [simpl in Hlen; lia|].
  assert (Hrest : getitems (pre ++ x :: suf) (checked_from (S (length pre)) widgets)
                  = Some (checked_entries suf widgets)).
  { rewrite <- snoc_middle, <- (snoc_length pre x). apply IH. simpl in Hlen. lia. }
  cbn [checked_from checked_entries]. destruct c; [|done].
  cbn [getitems]. by rewrite getitem_middle, Hrest.
Qed.

Lemma checked_from_length {A} (widgets : list bool) (l : list A) i :
  length widgets = length l ->
  length (checked_from i widgets) = length (checked_entries l widgets).
Proof.
  revert l i. induction widgets as [|c widgets IH]; intros l i Hlen.
  { by destruct l. }
  destruct l as [|x l]; [done|]. cbn [checked_from checked_entries].
  destruct c; cbn [length]; rewrite (IH l); try done; by injection Hlen.
Qed.

(** X13.  The indices the main window hands to the workers are those of
    the checked boxes: with one widget for each entry, neither worker
    meets an index out of range, whatever the run, and the entries
    [_selected_apps] returns to the exports are the entries whose box is
    checked, in the order of the list, as many as the indices. *)
Theorem window_indices_in_range
    (w : world) (apps : list AppRecord) (widgets : list bool) :
  length widgets = length apps ->
  (InstallWorker_run w apps (checked_indices widgets)).2 = false
  /\ (WingetMatcher_run w apps (checked_indices widgets)).2 = false
  /\ _selected_apps apps widgets = Some (checked_entries apps widgets)
  /\ length (checked_indices widgets) = length (checked_entries apps widgets).
Proof.
  intros Hlen.
  pose proof (checked_indices_valid widgets apps Hlen) as Hvalid.
  split; [|split; [|split]].
  - unfold InstallWorker_run. destruct (_log_path w); [|done].
    by rewrite install_loop_items.
  - unfold WingetMatcher_run. by rewrite match_loop_items.
  - apply (getitems_checked_from widgets [] apps). lia.
  - by apply checked_from_length.
Qed.

Lemma window_indices_in_range_witness :
  (InstallWorker_run stopped_world foo_bar (checked_indices [false; true])).2 = false
  /\ (WingetMatcher_run stopped_world foo_bar (checked_indices [false; true])).2 = false
  /\ _selected_apps foo_bar [false; true] = Some (checked_entries foo_bar [false; true])
  /\ length (checked_indices [false; true])
     = length (checked_entries foo_bar [false; true]).
Proof.
  apply (window_indices_in_range stopped_world foo_bar [false; true]). reflexivity.
Defined.

(** ** The main window: what a whole install run leaves *)

Lemma turns_never_stopped w n len : never_stopped w -> turns w n len = len.
Proof.
  intros Hw. revert n. induction len as [|len IH]; intros n; [done|].
  cbn [turns]. by rewrite Hw, IH.
Qed.

Lemma update_at_middle pre x suf status err :
  update_at (Z.of_nat (length pre)) status err (pre ++ x :: suf)
  = pre ++ update_status status err x :: suf.
Proof.
  unfold update_at. rewrite length_app. cbn [length].
  rewrite (proj2 (Z.ltb_lt _ _)) by lia.
  unfold position. rewrite (proj2 (Z.leb_le 0 _)) by lia.
  rewrite Nat2Z.id.
  transitivity (alter (update_status status err) (length pre + 0) (pre ++ x :: suf));
    [by rewrite Nat.add_0_r|].
  by rewrite alter_app_r.
Qed.

Lemma after_install_item_outcome w total n dn idx app st :
  after_signals (install_item w total n dn idx app) st
  = update_at idx (item_outcome w n app).1 (item_outcome w n app).2
      (update_at idx "installing" EmptyString st).
Proof.
  unfold install_item, item_outcome.
  destruct (negb (bool_decide (winget_status app = "found"))
            || negb (Str.nonempty (winget_id app))); [done|].
  pose proof (install_attempt_shape w n app) as [Hlogs _].
  destruct (install_attempt w n app) as [logs [status err]]. cbn [fst snd] in *.
  rewrite !after_signals_app, (after_signals_logs logs) by done. done.
Qed.

Lemma after_install_items_checked w total widgets :
  forall suf pre pre' n dn,
    length pre' = length pre -> length widgets = length suf ->
    after_signals
      (install_items w (pre ++ suf) total n dn (checked_from (length pre) widgets))
      (pre' ++ suf)
    = pre' ++ installed_from w n suf widgets.
Proof.
  induction widgets as [|c widgets IH]; intros suf pre pre' n dn Hpre Hlen.
  { by destruct suf. }
  destruct suf as [|a suf]; [done|]. injection Hlen as Hlen.
  cbn [checked_from installed_from]. destruct c.
  - rewrite (install_items_cons _ _ _ _ _ _ _ a) by apply getitem_middle.
    rewrite after_signals_app, after_install_item_outcome.
    rewrite <- Hpre, !update_at_middle.
    rewrite <- (snoc_middle pre), <- (snoc_middle pre' _ suf).
    rewrite Hpre, <- (snoc_length pre a).
    rewrite (IH suf (pre ++ [a]) _ (S n) (dn + 1)); [|by rewrite !snoc_length, Hpre|done].
    by rewrite snoc_middle.
  - rewrite <- (snoc_middle pre), <- (snoc_middle pre' _ suf).
    rewrite <- (snoc_length pre a).
    rewrite (IH suf (pre ++ [a]) _ n dn); [|by rewrite !snoc_length, Hpre|done].
    by rewrite snoc_middle.
Qed.

Lemma after_install_run_checked w apps widgets :
  length widgets = length apps -> is_Some (_log_path w) -> never_stopped w ->
  after_signals (InstallWorker_run w apps (checked_indices widgets)).1 apps
  = installed_from w 0 apps widgets.
Proof.
  intros Hlen Hlog Hw. rewrite InstallWorker_run_ready by done.
  rewrite install_loop_items by by apply checked_indices_valid.
  cbn [fst]. rewrite turns_never_stopped, firstn_all by done.
  rewrite after_signals_app.
  apply (after_install_items_checked w _ widgets apps [] [] 0 0); done.
Qed.

Lemma item_outcome_cases w n a :
  (manual_entry a ->
   item_outcome w n a = ("manual", "No Winget package available"))
  /\ (~ manual_entry a ->
      item_outcome w n a = ("success", EmptyString)
      \/ (item_outcome w n a).1 = "failed").
Proof.
  unfold item_outcome. rewrite manual_entry_test. split; intros Hm.
  - by rewrite bool_decide_eq_true_2.
  - rewrite bool_decide_eq_false_2 by done. apply install_attempt_result.
Qed.

Lemma installed_from_lookup w apps :
  forall widgets n p a,
    apps !! p = Some a ->
    exists a',
      installed_from w n apps widgets !! p = Some a'
      /\ install_frame a' = install_frame a
      /\ match widgets !! p with
         | Some true =>
             exists k, (install_status a', install_error a') = item_outcome w k a
         | _ => a' = a
         end.
Proof.
  induction apps as [|a0 apps IH]; intros widgets n p a Hp; [done|].
  destruct widgets as [|c widgets].
  { exists a. by destruct p. }
  destruct p as [|p].
  - injection Hp as ->. destruct c; cbn [installed_from].
    + eexists. split; [done|]. split; [done|]. exists n.
      by destruct (item_outcome w n a).
    + by exists a.
  - destruct c; cbn [installed_from]; apply (IH widgets _ p a Hp).
Qed.

(** X14.  After a whole install run launched from the main window, one
    widget for each entry, the session log set up and no cancellation,
    once the window has handled the signals: an entry whose box is
    checked has the status
    manual with the fixed message when it is not found or has no
    identifier, and otherwise the status success with an empty error
    text or the status failed; an entry whose box is not checked is as
    it was; and no entry has another field changed. *)
Theorem install_run_outcome
    (w : world) (apps : list AppRecord) (widgets : list bool) :
  length widgets = length apps ->
  is_Some (_log_path w) ->
  never_stopped w ->
  forall p a, apps !! p = Some a ->
    exists a',
      after_signals (InstallWorker_run w apps (checked_indices widgets)).1 apps !! p
      = Some a'
      /\ install_frame a' = install_frame a
      /\ match widgets !! p with
         | Some true =>
             (manual_entry a ->
              install_status a' = "manual"
              /\ install_error a' = "No Winget package available")
             /\ (~ manual_entry a ->
                 (install_status a' = "success" /\ install_error a' = EmptyString)
                 \/ install_status a' = "failed")
         | _ => a' = a
         end.
Proof.
  intros Hlen Hlog Hw p a Hp.
  rewrite after_install_run_checked by done.
  destruct (installed_from_lookup w apps widgets 0 p a Hp) as (a' & Ha' & Hframe & Hres).
  exists a'. split; [done|]. split; [done|].
  destruct (widgets !! p) as [[]|]; try done.
  destruct Hres as [k Hk].
  destruct (item_outcome_cases w k a) as [Hman Hinst]. split; intros Hm.
  - rewrite Hman in Hk by done. by injection Hk as -> ->.
  - destruct (Hinst Hm) as [Hs|Hf].
    + rewrite Hs in Hk. left. by injection Hk as -> ->.
    + right. rewrite <- Hk in Hf. done.
Qed.

Lemma install_run_outcome_witness :
  exists a',
    after_signals (InstallWorker_run calm_world foo_bar (checked_indices [true; true])).1
      foo_bar !! 0
    = Some a'
    /\ install_status a' = "success".
Proof.
  destruct (install_run_outcome calm_world foo_bar [true; true]
              eq_refl (mk_is_Some _ _ eq_refl) (fun _ => eq_refl) 0
              (mkAppRecord "Foo" EmptyString EmptyString EmptyString EmptyString
                 EmptyString "Vendor.Foo" "found" EmptyString EmptyString)
              eq_refl) as (a' & Ha' & _ & _).
  exists a'. split; [exact Ha'|].
  vm_compute in Ha'. injection Ha' as <-. reflexivity.
Defined.

(** ** The main window: the counters of the results page *)

Lemma with_status_cons status a apps :
  with_status status (a :: apps)
  = (if bool_decide (install_status a = status) then 1 else 0) + with_status status apps.
Proof.
  unfold with_status. rewrite filter_cons.
  case_bool_decide.
  - by rewrite decide_True.
  - by rewrite decide_False.
Qed.

Lemma triple_eq (a a' b b' c c' : nat) :
  a = a' -> b = b' -> c = c' -> (a, b, c) = (a', b', c').
Proof. by intros -> -> ->. Qed.

Lemma _refresh_results_fold apps n_success n_failed n_manual :
  fold_left
    (fun '(n_success, n_failed, n_manual) app =>
       if bool_decide (install_status app = "success")
       then (n_success + 1, n_failed, n_manual)
       else if bool_decide (install_status app = "failed")
       then (n_success, n_failed + 1, n_manual)
       else if bool_decide (install_status app = "manual")
       then (n_success, n_failed, n_manual + 1)
       else (n_success, n_failed, n_manual))
    apps (n_success, n_failed, n_manual)
  = (n_success + with_status "success" apps,
     n_failed + with_status "failed" apps,
     n_manual + with_status "manual" apps).
Proof.
  revert n_success n_failed n_manual.
  induction apps as [|a apps IH]; intros n_success n_failed n_manual.
  { unfold with_status. cbn. by rewrite !Nat.add_0_r. }
  cbn [fold_left]. rewrite !with_status_cons.
  destruct (bool_decide (install_status a = "success")) eqn:Hs.
  - apply bool_decide_eq_true_1 in Hs. rewrite IH.
    rewrite !bool_decide_eq_false_2 by congruence. apply triple_eq; lia.
  - destruct (bool_decide (install_status a = "failed")) eqn:Hf.
    + apply bool_decide_eq_true_1 in Hf. rewrite IH.
      rewrite !bool_decide_eq_false_2 by congruence. apply triple_eq; lia.
    + destruct (bool_decide (install_status a = "manual")) eqn:Hm; rewrite IH;
        apply triple_eq; lia.
Qed.

Lemma _refresh_results_eq apps :
  _refresh_results apps
  = (with_status "success" apps, with_status "failed" apps, with_status "manual" apps).
Proof. unfold _refresh_results. by rewrite _refresh_results_fold. Qed.

Lemma installed_from_counts w apps :
  forall widgets n,
    length widgets = length apps -> Forall unreported apps ->
    with_status "manual" (installed_from w n apps widgets)
    = length (filter manual_entry (checked_entries apps widgets))
    /\ with_status "success" (installed_from w n apps widgets)
       + with_status "failed" (installed_from w n apps widgets)
       = length (filter (fun a => ~ manual_entry a) (checked_entries apps widgets)).
Proof.
  induction apps as [|a apps IH]; intros widgets n Hlen Hfresh.
  { by destruct widgets. }
  destruct widgets as [|c widgets]; [done|]. injection Hlen as Hlen.
  apply Forall_cons in Hfresh as [(Hs & Hf & Hm) Hfresh].
  cbn [installed_from checked_entries]. destruct c.
  - destruct (IH widgets (S n) Hlen Hfresh) as [IHm IHsf].
    rewrite !with_status_cons, IHm. cbn [install_status update_status].
    destruct (item_outcome_cases w n a) as [Hman Hinst].
    destruct (decide (manual_entry a)) as [Hma|Hma].
    + rewrite (Hman Hma). cbn [fst].
      rewrite (filter_cons_True manual_entry) by done.
      rewrite (filter_cons_False (fun a => ~ manual_entry a)) by tauto.
      rewrite <- IHsf. split; [done|].
      by rewrite !bool_decide_eq_false_2 by discriminate.
    + rewrite (filter_cons_False manual_entry) by done.
      rewrite (filter_cons_True (fun a => ~ manual_entry a)) by done.
      cbn [length]. rewrite <- IHsf.
      destruct (Hinst Hma) as [-> | ->]; cbn [fst];
        repeat match goal with
        | |- context [bool_decide (?x = ?y)] =>
            first [ rewrite (bool_decide_eq_false_2 (x = y)) by discriminate
                  | rewrite (bool_decide_eq_true_2 (x = y)) by reflexivity ]
        end; split; lia.
  - destruct (IH widgets n Hlen Hfresh) as [IHm IHsf].
    rewrite !with_status_cons, IHm, <- IHsf.
    by rewrite !bool_decide_eq_false_2 by done.
Qed.

(** X15.  After a whole install run launched from the main window, one
    widget for each entry, the session log set up and no cancellation,
    on entries no run had reported on, the counters of the results page add up to the number of
    checked boxes: the manual counter is the number of checked entries
    that are not found or have no identifier, and the success and failed
    counters together are the number of the other checked entries. *)
Theorem results_counters
    (w : world) (apps : list AppRecord) (widgets : list bool) :
  length widgets = length apps ->
  is_Some (_log_path w) ->
  never_stopped w ->
  Forall unreported apps ->
  exists n_success n_failed n_manual,
    _refresh_results
      (after_signals (InstallWorker_run w apps (checked_indices widgets)).1 apps)
    = (n_success, n_failed, n_manual)
    /\ n_manual = length (filter manual_entry (checked_entries apps widgets))
    /\ n_success + n_failed
       = length (filter (fun a => ~ manual_entry a) (checked_entries apps widgets))
    /\ n_success + n_failed + n_manual = length (checked_indices widgets).
Proof.
  intros Hlen Hlog Hw Hfresh.
  rewrite after_install_run_checked, _refresh_results_eq by done.
  destruct (installed_from_counts w apps widgets 0 Hlen Hfresh) as [Hm Hsf].
  eexists _, _, _. split; [done|]. split; [done|]. split; [done|].
  unfold checked_indices.
  rewrite Hm, Hsf, (checked_from_length widgets apps) by done.
  rewrite <- (Permutation_length
                (filter_app_complement manual_entry (checked_entries apps widgets))).
  rewrite length_app. lia.
Qed.

Lemma results_counters_witness :
  _refresh_results
    (after_signals (InstallWorker_run calm_world foo_bar (checked_indices [true; true])).1
       foo_bar)
  = (1, 0, 1).
Proof.
  destruct (results_counters calm_world foo_bar [true; true] eq_refl
              (mk_is_Some _ _ eq_refl) (fun _ => eq_refl))
    as (n_success & n_failed & n_manual & Heq & _).
  - repeat constructor; discriminate.
  - rewrite Heq. vm_compute in Heq. injection Heq as <- <- <-. reflexivity.
Defined.

(** ** The main window: what a whole match run leaves *)

Lemma _on_app_matched_middle pre x suf wid status :
  _on_app_matched (Z.of_nat (length pre)) wid status (pre ++ x :: suf)
  = pre ++ update_winget wid status x :: suf.
Proof.
  unfold _on_app_matched. rewrite length_app. cbn [length].
  rewrite (proj2 (Z.ltb_lt _ _)) by lia.
  unfold position. rewrite (proj2 (Z.leb_le 0 _)) by lia.
  rewrite Nat2Z.id.
  transitivity (alter (update_winget wid status) (length pre + 0) (pre ++ x :: suf));
    [by rewrite Nat.add_0_r|].
  by rewrite alter_app_r.
Qed.

Lemma after_match_signals_app tr1 tr2 st :
  after_match_signals (tr1 ++ tr2) st
  = after_match_signals tr2 (after_match_signals tr1 st).
Proof. apply fold_left_app. Qed.

Lemma after_match_signals_runs idx (cmds : list (list string)) st :
  after_match_signals (map (Run idx) cmds) st = st.
Proof. induction cmds as [|c cmds IH]; [done|]. apply IH. Qed.

Lemma after_match_item w total n idx app st :
  after_match_signals (match_item w total n idx app) st
  = if bool_decide (winget_status app = "found") then st
    else
      _on_app_matched idx
        (_search_winget (fun args => search_output (subprocess_run w n args)) (name app)).1
        (_search_winget (fun args => search_output (subprocess_run w n args)) (name app)).2
        st.
Proof.
  unfold match_item. case_bool_decide; [done|].
  destruct (_search_winget _ (name app)) as [wid status].
  by rewrite after_match_signals_app, after_match_signals_runs.
Qed.

Lemma after_match_items_checked w total widgets :
  forall suf pre pre' n,
    length pre' = length pre -> length widgets = length suf ->
    after_match_signals
      (match_items w (pre ++ suf) total n (checked_from (length pre) widgets))
      (pre' ++ suf)
    = pre' ++ matched_from w n suf widgets.
Proof.
  induction widgets as [|c widgets IH]; intros suf pre pre' n Hpre Hlen.
  { by destruct suf. }
  destruct suf as [|a suf]; [done|]. injection Hlen as Hlen.
  cbn [checked_from matched_from]. destruct c.
  - cbn [match_items]. rewrite getitem_middle.
    rewrite after_match_signals_app, after_match_item.
    assert (Hstep :
      (if bool_decide (winget_status a = "found") then pre' ++ a :: suf
       else
         _on_app_matched (Z.of_nat (length pre))
           (_search_winget (fun args => search_output (subprocess_run w n args)) (name a)).1
           (_search_winget (fun args => search_output (subprocess_run w n args)) (name a)).2
           (pre' ++ a :: suf))
      = pre'
        ++ (if bool_decide (winget_status a = "found") then a
            else
              update_winget
                (_search_winget (fun args => search_output (subprocess_run w n args))
                   (name a)).1
                (_search_winget (fun args => search_output (subprocess_run w n args))
                   (name a)).2 a)
        :: suf).
    { case_bool_decide; [done|]. by rewrite <- Hpre, _on_app_matched_middle. }
    rewrite Hstep.
    rewrite <- (snoc_middle pre), <- (snoc_middle pre' _ suf).
    rewrite <- (snoc_length pre a).
    rewrite (IH suf (pre ++ [a]) _ (S n)); [|by rewrite !snoc_length, Hpre|done].
    by rewrite snoc_middle.
  - rewrite <- (snoc_middle pre), <- (snoc_middle pre' _ suf).
    rewrite <- (snoc_length pre a).
    rewrite (IH suf (pre ++ [a]) _ n); [|by rewrite !snoc_length, Hpre|done].
    by rewrite snoc_middle.
Qed.

Lemma after_match_run_checked w apps widgets :
  length widgets = length apps -> never_stopped w ->
  after_match_signals (WingetMatcher_run w apps (checked_indices widgets)).1 apps
  = matched_from w 0 apps widgets.
Proof.
  intros Hlen Hw. unfold WingetMatcher_run.
  rewrite match_loop_items by by apply checked_indices_valid.
  cbn [fst]. rewrite turns_never_stopped, firstn_all by done.
  rewrite after_match_signals_app.
  apply (after_match_items_checked w _ widgets apps [] [] 0); done.
Qed.

Lemma checked_from_shift i j widgets :
  length (checked_from i widgets) = length (checked_from j widgets).
Proof.
  revert i j. induction widgets as [|c widgets IH]; intros i j; [done|].
  cbn [checked_from]. destruct c; cbn [length]; by rewrite (IH (S i) (S j)).
Qed.

Lemma matched_from_lookup w apps :
  forall widgets n p a,
    apps !! p = Some a ->
    exists a',
      matched_from w n apps widgets !! p = Some a'
      /\ match widgets !! p with
         | Some true =>
             a' = if bool_decide (winget_status a = "found") then a
                  else
                    let turn := n + length (checked_indices (take p widgets)) in
                    let found :=
                      _search_winget
                        (fun args => search_output (subprocess_run w turn args))
                        (name a) in
                    update_winget found.1 found.2 a
         | _ => a' = a
         end.
Proof.
  induction apps as [|a0 apps IH]; intros widgets n p a Hp; [done|].
  destruct widgets as [|c widgets].
  { exists a. by destruct p. }
  destruct p as [|p].
  - injection Hp as ->. destruct c; cbn [matched_from].
    + eexists. split; [done|]. cbn. by rewrite Nat.add_0_r.
    + by exists a.
  - cbn [lookup list_lookup] in Hp |- *.
    assert (Hcount : forall k,
      k + length (checked_indices (take (S p) (true :: widgets)))
      = S k + length (checked_indices (take p widgets))).
    { intros k. unfold checked_indices. cbn [take checked_from length].
      rewrite (checked_from_shift 1 0). lia. }
    assert (Hcount' : forall k,
      k + length (checked_indices (take (S p) (false :: widgets)))
      = k + length (checked_indices (take p widgets))).
    { intros k. unfold checked_indices. cbn [take checked_from length].
      by rewrite (checked_from_shift 1 0). }
    destruct c; cbn [matched_from].
    + destruct (IH widgets (S n) p a Hp) as (a' & Ha' & Hres).
      exists a'. split; [done|].
      destruct (widgets !! p) as [[]|]; try done.
      cbv zeta in Hres |- *. by rewrite Hcount.
    + destruct (IH widgets n p a Hp) as (a' & Ha' & Hres).
      exists a'. split; [done|].
      destruct (widgets !! p) as [[]|]; try done.
      cbv zeta in Hres |- *. by rewrite Hcount'.
Qed.

Lemma matched_from_all_checked w apps :
  forall widgets n,
    length widgets = length apps -> Forall (fun c => c = true) widgets ->
    Forall (fun a => winget_status a = "found" \/ winget_status a = "not_found")
      (matched_from w n apps widgets).
Proof.
  induction apps as [|a apps IH]; intros widgets n Hlen Hall.
  { destruct widgets; constructor. }
  destruct widgets as [|c widgets]; [done|]. injection Hlen as Hlen.
  apply Forall_cons in Hall as [-> Hall].
  cbn [matched_from]. constructor; [|by apply IH].
  case_bool_decide; [by left|].
  destruct (_search_winget_cases
              (fun args => search_output (subprocess_run w n args)) (name a))
    as [(pkg_id & -> & _)| ->]; [by left|by right].
Qed.

Lemma matched_from_length w apps :
  forall widgets n, length (matched_from w n apps widgets) = length apps.
Proof.
  induction apps as [|a apps IH]; intros widgets n; [by destruct widgets|].
  destruct widgets as [|[] widgets]; [done|..]; cbn [matched_from length];
    by rewrite IH.
Qed.

Lemma found_or_not_found_count (apps : list AppRecord) :
  Forall (fun a => winget_status a = "found" \/ winget_status a = "not_found") apps ->
  length (filter (fun a => winget_status a = "found") apps)
  + length (filter (fun a => winget_status a = "not_found") apps)
  = length apps.
Proof.
  induction 1 as [|a apps [Ha|Ha] _ IH]; [done|..]; rewrite !filter_cons, Ha.
  - rewrite decide_True, decide_False by done. cbn [length]. lia.
  - rewrite decide_False, decide_True by done. cbn [length]. lia.
Qed.

(** X16.  After a whole match run launched from the main window, one
    widget for each entry and no cancellation, once the window has
    handled the signals: an entry whose box is checked is as it was when
    it was found already, and otherwise has the identifier and the status
    [_search_winget] answered for its name in its turn, the turn being
    the number of checked boxes before it; an entry whose box is not
    checked is as it was.  With every box checked, the two numbers of the
    status line add up to the number of entries. *)
Theorem match_run_outcome
    (w : world) (apps : list AppRecord) (widgets : list bool) :
  length widgets = length apps ->
  never_stopped w ->
  (forall p a, apps !! p = Some a ->
     exists a',
       after_match_signals (WingetMatcher_run w apps (checked_indices widgets)).1 apps
         !! p = Some a'
       /\ match widgets !! p with
          | Some true =>
              a' = if bool_decide (winget_status a = "found") then a
                   else
                     let turn := length (checked_indices (take p widgets)) in
                     let found :=
                       _search_winget
                         (fun args => search_output (subprocess_run w turn args))
                         (name a) in
                     update_winget found.1 found.2 a
          | _ => a' = a
          end)
  /\ (Forall (fun c => c = true) widgets ->
      (_on_match_done
         (after_match_signals
            (WingetMatcher_run w apps (checked_indices widgets)).1 apps)).1
      + (_on_match_done
           (after_match_signals
              (WingetMatcher_run w apps (checked_indices widgets)).1 apps)).2
      = length apps).
Proof.
  intros Hlen Hw. rewrite after_match_run_checked by done. split.
  - intros p a Hp. apply (matched_from_lookup w apps widgets 0 p a Hp).
  - intros Hall. unfold _on_match_done. cbn [fst snd].
    rewrite found_or_not_found_count by by apply matched_from_all_checked.
    apply matched_from_length.
Qed.

Lemma match_run_outcome_witness :
  (_on_match_done
     (after_match_signals
        (WingetMatcher_run calm_world foo_bar (checked_indices [true; true])).1
        foo_bar)).1
  + (_on_match_done
       (after_match_signals
          (WingetMatcher_run calm_world foo_bar (checked_indices [true; true])).1
          foo_bar)).2
  = 2.
Proof.
  apply (match_run_outcome calm_world foo_bar [true; true] eq_refl (fun _ => eq_refl)).
  repeat constructor.
Defined.

(** ** The import: a document without entries *)

(** X17.  A document that is an object whose apps member is missing, or
    is an empty list, an empty text or an empty object, imports as no
    entry and with no error; [_do_import], for a path that is not empty,
    then replaces the entries of the window by the empty list. *)
Theorem import_without_entries
    (filepath : string) (fs : filesystem) (top : list (string * json))
    (_apps : list (AppRecord_of json)) :
  load_json filepath fs = inr (JDict top) ->
  dict_get "apps" top = None
  \/ dict_get "apps" top = Some (JList [])
  \/ dict_get "apps" top = Some (JStr EmptyString)
  \/ dict_get "apps" top = Some (JDict []) ->
  filepath <> EmptyString ->
  import_template filepath fs = ([], EmptyString)
  /\ _do_import filepath fs _apps = [].
Proof.
  intros Hload Happs Hpath.
  assert (Himp : import_template filepath fs = ([], EmptyString)).
  { unfold import_template, import_body. rewrite Hload.
    by destruct Happs as [-> |[-> |[-> | ->]]]. }
  split; [done|]. unfold _do_import. rewrite Himp.
  apply nonempty_true in Hpath. by rewrite Hpath.
Qed.

Lemma import_without_entries_witness :
  import_template "t.json" {[ "t.json" := Json (JDict [("version", JInt 1)]) ]}
  = ([], EmptyString)
  /\ _do_import "t.json" {[ "t.json" := Json (JDict [("version", JInt 1)]) ]}
       (map imported foo_bar)
     = [].
Proof.
  apply (import_without_entries "t.json"
           {[ "t.json" := Json (JDict [("version", JInt 1)]) ]}
           [("version", JInt 1)] (map imported foo_bar)).
  - vm_compute. reflexivity.
  - left. vm_compute. reflexivity.
  - discriminate.
Defined.

(** ** The main window: sorting the list *)

Lemma le_ltb_false x y : String.le x y -> String.ltb y x = false.
Proof.
  unfold String.ltb, String.le, String.leb.
  rewrite (String.compare_antisym y x).
  destruct (String.compare x y); simpl; intros; (done || discriminate).
Qed.

Lemma le_ne_ltb x y : String.le x y -> x <> y -> String.ltb x y = true.
Proof.
  unfold String.ltb, String.le, String.leb.
  destruct (String.compare x y) eqn:Hc; simpl; intros Hle Hne; [|done..].
  by apply String.compare_eq_iff in Hc.
Qed.

Lemma sorted_id {A} (key : A -> string) l :
  Sorted (key_le key) l -> sorted key l = l.
Proof.
  induction 1 as [|x l _ IH Hhd]; [done|].
  cbn [sorted]. rewrite IH. destruct Hhd as [|y l Hxy]; [done|].
  cbn [insert_by]. by rewrite le_ltb_false.
Qed.

Lemma insert_by_last {A} (key : A -> string) x l :
  Forall (fun y => String.ltb (key y) (key x) = true) l ->
  insert_by key x l = l ++ [x].
Proof.
  induction 1 as [|y l Hy _ IH]; [done|].
  cbn [insert_by]. by rewrite Hy, IH.
Qed.

Lemma sorted_reverse_strict {A} (key : A -> string) l :
  StronglySorted (fun a b => String.ltb (key a) (key b) = true) l ->
  sorted key (reverse l) = l.
Proof.
  induction l as [|x l IH] using rev_ind; [done|].
  intros Hs. apply StronglySorted_app in Hs as (Hlt & Hl & _).
  rewrite reverse_snoc. cbn [sorted]. rewrite IH by done.
  apply insert_by_last, Forall_forall. intros y Hy.
  apply (Hlt y x Hy). by left.
Qed.

Lemma strictly_sorted {A} (key : A -> string) l :
  StronglySorted (key_le key) l -> NoDup (map key l) ->
  StronglySorted (fun a b => String.ltb (key a) (key b) = true) l.
Proof.
  induction 1 as [|x l _ IH Hall]; intros Hnd; [constructor|].
  cbn [map] in Hnd. apply NoDup_cons in Hnd as [Hx Hnd].
  constructor; [by apply IH|].
  apply Forall_forall. intros y Hy. rewrite Forall_forall in Hall.
  apply le_ne_ltb; [by apply Hall|].
  intros Heq. apply Hx. rewrite Heq.
  change (key y ∈ key <$> l). by apply list_elem_of_fmap_2.
Qed.

Lemma flip_key_le_trans {A} (key : A -> string) : Transitive (flip (key_le key)).
Proof. intros a b c Hab Hbc. unfold flip, key_le in *. by etrans. Qed.

Lemma list_sort_perm {A} (key : A -> string) (rev : bool) (l : list A) :
  list_sort key rev l ≡ₚ l.
Proof.
  unfold list_sort. destruct rev; [|apply sorted_perm].
  by rewrite reverse_Permutation, sorted_perm, reverse_Permutation.
Qed.

Lemma list_sort_sorted {A} (key : A -> string) (rev : bool) (l : list A) :
  StronglySorted (if rev then flip (key_le key) else key_le key) (list_sort key rev l).
Proof.
  unfold list_sort. destruct rev; [|apply sorted_StronglySorted].
  apply Sorted_StronglySorted; [apply flip_key_le_trans|].
  apply Sorted_reverse, sorted_Sorted.
Qed.

(** X18.  Sorting the list of the window loses and repeats no entry; the
    entries come out in ascending order of the chosen key, case aside
    (the name for any index but 2 and 3, the publisher for 2, the source
    for 3), or in descending order of the name for index 1; and the list
    is rebuilt with one widget for each entry, every box checked again. *)
Theorem sort_keeps_entries (idx : Z) (_apps : list AppRecord) :
  (_do_sort idx _apps).1 ≡ₚ _apps
  /\ StronglySorted
       (if bool_decide (idx = 1%Z)
        then fun a b => String.le (Str.lower (name b)) (Str.lower (name a))
        else fun a b => String.le (sorts idx a) (sorts idx b))
       (_do_sort idx _apps).1
  /\ length (_do_sort idx _apps).2 = length _apps
  /\ Forall (fun is_checked => is_checked = true) (_do_sort idx _apps).2.
Proof.
  unfold _do_sort, _on_scan_done. cbn [fst snd].
  split; [apply list_sort_perm|]. split; [|split].
  - pose proof (list_sort_sorted (sorts idx) (bool_decide (idx = 1%Z)) _apps) as Hs.
    case_bool_decide as Hidx; [|done]. by subst idx.
  - rewrite length_map. apply Permutation_length, list_sort_perm.
  - apply Forall_forall. intros c Hc.
    change (c ∈ (fun _ => true) <$> list_sort (sorts idx) (bool_decide (idx = 1%Z)) _apps)
      in Hc.
    by apply list_elem_of_fmap in Hc as (? & -> & _).
Qed.

Lemma scan_sorted_strictly (_read_hive : hive -> list AppRecord) :
  StronglySorted
    (fun a b => String.ltb (Str.lower (name a)) (Str.lower (name b)) = true)
    (scan_installed_apps _read_hive).
Proof.
  unfold scan_installed_apps.
  apply (strictly_sorted (fun a => Str.lower (name a)));
    [apply (sorted_StronglySorted (fun a : AppRecord => Str.lower (name a)))|].
  rewrite (Permutation_map _ (sorted_perm _ _)). apply NoDup_dedup_loop.
Qed.

(** X19.  On the list a scan returns, sorting by ascending name changes
    nothing, and sorting by descending name gives the list reversed. *)
Theorem sort_by_name_after_scan (_read_hive : hive -> list AppRecord) :
  (_do_sort 0 (scan_installed_apps _read_hive)).1 = scan_installed_apps _read_hive
  /\ (_do_sort 1 (scan_installed_apps _read_hive)).1
     = reverse (scan_installed_apps _read_hive).
Proof.
  unfold _do_sort, _on_scan_done, list_sort. cbn [fst]. split.
  - change (sorts 0) with (fun a : AppRecord => Str.lower (name a)).
    rewrite bool_decide_eq_false_2 by done.
    apply sorted_id. unfold scan_installed_apps. apply sorted_Sorted.
  - change (sorts 1) with (fun a : AppRecord => Str.lower (name a)).
    rewrite bool_decide_eq_true_2 by done.
    f_equal. apply sorted_reverse_strict, scan_sorted_strictly.
Qed.

(** ** The main window: the search box *)

Lemma prefix_spec p s : String.prefix p s = true <-> exists q, s = p +:+ q.
Proof.
  split.
  - revert s. induction p as [|c p IH]; intros s Hp; [by exists s|].
    destruct s as [|d s]; [done|]. simpl in Hp.
    destruct (ascii_dec c d) as [->|]; [|done].
    destruct (IH s Hp) as [q ->]. by exists q.
  - intros [q ->]. apply prefix_append.
Qed.

Lemma contains_unfold sub s :
  Str.contains sub s
  = String.prefix sub s
    || match s with EmptyString => false | String _ s' => Str.contains sub s' end.
Proof. by destruct s. Qed.

Lemma contains_spec sub s :
  Str.contains sub s = true <-> exists p q, s = p +:+ sub +:+ q.
Proof.
  split.
  - induction s as [|c s IH]; rewrite contains_unfold, orb_true_iff.
    + intros [Hp|?]; [|done]. apply prefix_spec in Hp as [q Hq].
      exists EmptyString, q. exact Hq.
    + intros [Hp|Hc].
      * apply prefix_spec in Hp as [q Hq]. exists EmptyString, q. exact Hq.
      * destruct (IH Hc) as (p & q & ->). by exists (String c p), q.
  - intros (p & q & ->). induction p as [|c p IH].
    + rewrite contains_unfold, orb_true_iff. left. exact (prefix_append sub q).
    + rewrite contains_unfold, orb_true_iff. right. apply IH.
Qed.

Lemma contains_trans a b c :
  Str.contains a b = true -> Str.contains b c = true -> Str.contains a c = true.
Proof.
  rewrite !contains_spec. intros (p & q & ->) (p' & q' & ->).
  exists (p' +:+ p), (q +:+ q'). by rewrite !append_assoc.
Qed.

Lemma contains_empty s : Str.contains EmptyString s = true.
Proof. rewrite contains_unfold. by rewrite prefix_nil. Qed.

Lemma lower_char_idem c : Str.lower_char (Str.lower_char c) = Str.lower_char c.
Proof. by destruct c as [[] [] [] [] [] [] [] []]. Qed.

Lemma lower_idem s : Str.lower (Str.lower s) = Str.lower s.
Proof. induction s as [|c s IH]; [done|]. simpl. by rewrite lower_char_idem, IH. Qed.

(** X20.  The search box of the list: the empty text hides no row; the
    letter case of the text does not matter; and a text that contains
    another, case aside, shows no row the other hides, so that typing
    further never brings a row back. *)
Theorem filter_refines (text1 text2 : string) (_apps : list AppRecord) :
  _do_filter EmptyString _apps = map (fun _ => false) _apps
  /\ _do_filter (Str.lower text1) _apps = _do_filter text1 _apps
  /\ (Str.contains (Str.lower text1) (Str.lower text2) = true ->
      forall i, _do_filter text1 _apps !! i = Some true ->
                _do_filter text2 _apps !! i = Some true).
Proof.
  unfold _do_filter. split; [|split].
  - apply map_ext. intros a. cbn [Str.lower]. by rewrite contains_empty.
  - by rewrite lower_idem.
  - intros Hsub i.
    change (((fun app =>
               if Str.contains (Str.lower text1) (Str.lower (name app))
                  || Str.contains (Str.lower text1) (Str.lower (publisher app))
               then false else true) <$> _apps) !! i = Some true ->
            ((fun app =>
               if Str.contains (Str.lower text2) (Str.lower (name app))
                  || Str.contains (Str.lower text2) (Str.lower (publisher app))
               then false else true) <$> _apps) !! i = Some true).
    rewrite !list_lookup_fmap.
    destruct (_apps !! i) as [a|]; [|done]. cbn [fmap option_fmap option_map].
    destruct (Str.contains (Str.lower text2) (Str.lower (name a))) eqn:Hn.
    { by rewrite (contains_trans _ _ _ Hsub Hn). }
    destruct (Str.contains (Str.lower text2) (Str.lower (publisher a))) eqn:Hp; [|done].
    by rewrite (contains_trans _ _ _ Hsub Hp), orb_true_r.
Qed.

Lemma filter_refines_witness : _do_filter "FOO" foo_bar !! 1 = Some true.
Proof.
  apply (filter_refines "fo" "FOO" foo_bar); reflexivity.
Defined.

(** ** The scan: no name is lost *)

Lemma dedup_loop_keys apps seen a :
  a ∈ apps ->
  Str.lower (name a) ∈ seen
  \/ exists b, b ∈ dedup_loop apps seen [] /\ Str.lower (name b) = Str.lower (name a).
Proof.
  revert seen. induction apps as [|a0 apps IH]; intros seen Hin.
  { by apply elem_of_nil in Hin. }
  cbn [dedup_loop]. case_bool_decide as Hseen.
  - apply elem_of_cons in Hin as [->|Hin]; [by left|by apply IH].
  - rewrite dedup_loop_app.
    apply elem_of_cons in Hin as [->|Hin].
    + right. exists a0. split; [|done]. apply elem_of_app. left. by left.
    + destruct (IH ({[Str.lower (name a0)]} ∪ seen) Hin) as [Hk|(b & Hb & Hkey)].
      * apply elem_of_union in Hk as [Hk%elem_of_singleton|Hk]; [|by left].
        right. exists a0. split; [|done]. apply elem_of_app. left. by left.
      * right. exists b. split; [|done]. apply elem_of_app. by right.
Qed.

(** X21.  The scan loses no name: the names of the list returned, case
    aside, are those the three views of the registry yield, and the list
    has as many entries as the views have different names. *)
Theorem scan_keeps_every_name (_read_hive : hive -> list AppRecord) :
  let apps := _read_hive HKLM_x64 ++ _read_hive HKLM_x86 ++ _read_hive HKCU in
  let key := fun a : AppRecord => Str.lower (name a) in
  (forall k, k ∈ map key (scan_installed_apps _read_hive) <-> k ∈ map key apps)
  /\ length (scan_installed_apps _read_hive)
     = size (list_to_set (map key apps) : gset string).
Proof.
  intros apps key.
  assert (Hres : scan_installed_apps _read_hive = sorted key (dedup_loop apps ∅ [])).
  { unfold scan_installed_apps, apps. simpl. by rewrite <- app_assoc. }
  assert (Hkeys : forall k, k ∈ map key (scan_installed_apps _read_hive)
                            <-> k ∈ map key apps).
  { intros k. rewrite Hres.
    change (k ∈ key <$> sorted key (dedup_loop apps ∅ []) <-> k ∈ key <$> apps).
    rewrite !list_elem_of_fmap. split.
    - intros (a & -> & Ha). rewrite (sorted_perm key) in Ha.
      apply elem_of_dedup_loop in Ha as (_ & i & Hi & _).
      exists a. split; [done|]. by eapply list_elem_of_lookup_2.
    - intros (a & -> & Ha).
      destruct (dedup_loop_keys apps ∅ a Ha) as [Hk|(b & Hb & Hkey)].
      + by apply not_elem_of_empty in Hk.
      + exists b. split; [done|]. by rewrite (sorted_perm key). }
  split; [done|].
  assert (Hnd : NoDup (map key (scan_installed_apps _read_hive))).
  { rewrite Hres, (Permutation_map _ (sorted_perm _ _)). apply NoDup_dedup_loop. }
  rewrite <- (length_map key), <- (size_list_to_set (C := gset string)) by done.
  f_equal. apply set_eq. intros k. rewrite !elem_of_list_to_set. apply Hkeys.
Qed.
